(** * The .eml export engine of msg-reader (src/js/emlExport.js)

    A shallow embedding of the serializer that turns a parsed message into
    an RFC 5322 / MIME byte stream, and the properties its specification
    states about it.

    JavaScript strings are sequences of UTF-16 code units; they are modelled
    as lists of [N].  Typed arrays hold octets, also as [N], with the
    wrap-around of a [Uint8Array] store written out.  The two sources of
    non-determinism of the engine ([Math.random] and [Date.now]) and the
    platform's date rendering are read from a [Host]; the one platform call
    that can raise ([btoa]) does so in an exception monad. *)

From Stdlib Require Import List NArith ZArith Lia ZifyBool Bool String Ascii Arith.
From Stdlib Require Import Permutation.
From Stdlib Require Strings.Byte.
Import ListNotations.

Local Open Scope N_scope.

(* ------------------------------------------------------------------ *)
(** ** JavaScript strings *)

Module JsString.

Definition jsstring : Type := list N.

(** An ASCII literal as a JavaScript string. *)
Definition js (s : string) : jsstring :=
  List.map N_of_ascii (list_ascii_of_string s).

Definition CR : N := 13.
Definition LF : N := 10.
Definition SPACE : N := 32.
Definition DQUOTE : N := 34.
Definition BACKSLASH : N := 92.
Definition SLASH : N := 47.
Definition UNDERSCORE : N := 95.

Definition is_empty (s : jsstring) : bool :=
  match s with [] => true | _ :: _ => false end.

(** [array.length === 0] *)
Definition is_empty_list {A : Type} (l : list A) : bool :=
  match l with [] => true | _ :: _ => false end.

Fixpoint str_eqb (a b : jsstring) : bool :=
  match a, b with
  | [], [] => true
  | x :: a', y :: b' => (x =? y) && str_eqb a' b'
  | _, _ => false
  end.

(** [v || d] on a possibly absent string: the empty string is falsy. *)
Definition js_or (v : option jsstring) (d : jsstring) : jsstring :=
  match v with
  | Some (c :: t) => c :: t
  | _ => d
  end.

(** [v || w] where both sides may be absent. *)
Definition js_or_opt (v w : option jsstring) : option jsstring :=
  match v with
  | Some (c :: t) => Some (c :: t)
  | _ => w
  end.

(** [obj?.field] *)
Definition opt_chain {A B : Type} (obj : option A) (field : A -> option B)
  : option B :=
  match obj with
  | Some o => field o
  | None => None
  end.

(** [Array.prototype.join] *)
Fixpoint join (sep : jsstring) (parts : list jsstring) : jsstring :=
  match parts with
  | [] => []
  | [p] => p
  | p :: rest => p ++ sep ++ join sep rest
  end.

Fixpoint startsWith (s prefix : jsstring) : bool :=
  match prefix, s with
  | [], _ => true
  | p :: prefix', c :: s' => (c =? p) && startsWith s' prefix'
  | _ :: _, [] => false
  end.

(** [s.indexOf(c)] for a single code unit; [None] is [-1]. *)
Fixpoint indexOf (c : N) (s : jsstring) : option nat :=
  match s with
  | [] => None
  | x :: t =>
      if x =? c then Some O
      else match indexOf c t with
           | Some i => Some (S i)
           | None => None
           end
  end.

(** [s.slice(i)] for an in-range [i]. *)
Definition slice_from (i : nat) (s : jsstring) : jsstring := skipn i s.

(** White space and line terminators, the code units [trim] strips. *)
Definition is_whitespace (c : N) : bool :=
  (c =? 9) || (c =? 10) || (c =? 11) || (c =? 12) || (c =? 13)
  || (c =? 32) || (c =? 0xA0) || (c =? 0x1680)
  || ((0x2000 <=? c) && (c <=? 0x200A))
  || (c =? 0x2028) || (c =? 0x2029) || (c =? 0x202F) || (c =? 0x205F)
  || (c =? 0x3000) || (c =? 0xFEFF).

Fixpoint trimStart (s : jsstring) : jsstring :=
  match s with
  | [] => []
  | c :: t => if is_whitespace c then trimStart t else s
  end.

Definition trimEnd (s : jsstring) : jsstring := rev (trimStart (rev s)).

Definition trim (s : jsstring) : jsstring := trimEnd (trimStart s).

(** [/[class]/g] replaced by [r]. *)
Definition replace_class (p : N -> bool) (r : jsstring) (s : jsstring)
  : jsstring :=
  flat_map (fun c => if p c then r else [c]) s.

(** [/[class]+/g] replaced by [r]: every maximal run gives one [r]. *)
Fixpoint replace_runs_from (in_run : bool) (p : N -> bool) (r : jsstring)
  (s : jsstring) : jsstring :=
  match s with
  | [] => []
  | c :: t =>
      if p c
      then (if in_run then [] else r) ++ replace_runs_from true p r t
      else c :: replace_runs_from false p r t
  end.

Definition replace_runs (p : N -> bool) (r : jsstring) (s : jsstring)
  : jsstring :=
  replace_runs_from false p r s.

(** [/[class]/.test(s)] *)
Definition test_class (p : N -> bool) (s : jsstring) : bool := existsb p s.

(** The three-unit pattern [a b c] removed globally, scanning once from
    the left ([/\.\.\//g] and [/\.\.\\/g]). *)
Fixpoint remove_triples (a b c : N) (s : jsstring) : jsstring :=
  match s with
  | [] => []
  | x :: t1 =>
      match t1 with
      | y :: z :: t3 =>
          if (x =? a) && (y =? b) && (z =? c)
          then remove_triples a b c t3
          else x :: remove_triples a b c t1
      | _ => x :: remove_triples a b c t1
      end
  end.

(** The two-unit pattern [a b] replaced globally by [r] ([/\r\n/g]). *)
Fixpoint replace_pair (a b : N) (r : jsstring) (s : jsstring) : jsstring :=
  match s with
  | [] => []
  | x :: t1 =>
      match t1 with
      | y :: t2 =>
          if (x =? a) && (y =? b)
          then r ++ replace_pair a b r t2
          else x :: replace_pair a b r t1
      | [] => [x]
      end
  end.

(** [/^c+/] removed. *)
Fixpoint drop_leading (c : N) (s : jsstring) : jsstring :=
  match s with
  | [] => []
  | x :: t => if x =? c then drop_leading c t else s
  end.

(** A pattern of per-position classes anchored at the start. *)
Fixpoint prefix_matches (pat : list (N -> bool)) (s : jsstring) : bool :=
  match pat, s with
  | [], _ => true
  | p :: pat', c :: s' => p c && prefix_matches pat' s'
  | _ :: _, [] => false
  end.

(** A pattern of per-position classes anchored at the end ([$]). *)
Definition suffix_matches (pat : list (N -> bool)) (s : jsstring) : bool :=
  prefix_matches (rev pat) (rev s).

Definition drop_last (n : nat) (s : jsstring) : jsstring :=
  firstn (List.length s - n) s.

(** Case-insensitive match of an ASCII letter given in lower case.  Without
    the [u] flag a code unit above 127 never matches an ASCII one. *)
Definition ci (lower : N) (c : N) : bool :=
  (c =? lower) || (c =? lower - 32).

Definition is_ascii_letter (c : N) : bool :=
  ((65 <=? c) && (c <=? 90)) || ((97 <=? c) && (c <=? 122)).

(** [[\x00-\x1f\x7f]] *)
Definition is_control (c : N) : bool := (c <=? 0x1f) || (c =? 0x7f).

(** [[\r\n]] *)
Definition is_cr_lf (c : N) : bool := (c =? CR) || (c =? LF).

(** [[^\x00-\x7f]] *)
Definition is_non_ascii (c : N) : bool := 0x7f <? c.

Fixpoint contains (pat s : jsstring) : bool :=
  match s with
  | [] => is_empty pat
  | _ :: t => startsWith s pat || contains pat t
  end.

(** The loop [for (i = 0; i < s.length; i += width) out.push(s.slice(i, i +
    width))]; each iteration consumes one unit of [fuel]. *)
Fixpoint slices (fuel width : nat) (s : jsstring) : list jsstring :=
  match fuel with
  | O => []
  | S fuel' =>
      match s with
      | [] => []
      | _ :: _ => firstn width s :: slices fuel' width (skipn width s)
      end
  end.

End JsString.
Import JsString.

(* ------------------------------------------------------------------ *)
(** ** Effects: the host, the world and exceptions *)

Inductive JsError : Type :=
| InvalidCharacterError.

(** How many times the random source and the clock were read. *)
Record World : Type := mkWorld {
  random_draws : nat;
  clock_reads : nat
}.

Inductive Outcome (A : Type) : Type :=
| Returns (a : A) (w : World)
| Throws (e : JsError).
Arguments Returns {A} a w.
Arguments Throws {A} e.

Definition M (A : Type) : Type := World -> Outcome A.

Definition ret {A : Type} (a : A) : M A := fun w => Returns a w.

Definition throw {A : Type} (e : JsError) : M A := fun _ => Throws e.

Definition bind {A B : Type} (c : M A) (k : A -> M B) : M B :=
  fun w =>
    match c w with
    | Returns a w' => k a w'
    | Throws e => Throws e
    end.

Declare Scope js_scope.
Delimit Scope js_scope with js.
Notation "x <- c ;; k" := (bind c (fun x => k))
  (at level 61, c at next level, right associativity) : js_scope.

Fixpoint mapM {A B : Type} (f : A -> M B) (l : list A) : M (list B) :=
  match l with
  | [] => ret []
  | x :: t =>
      (y <- f x ;;
       ys <- mapM f t ;;
       ret (y :: ys))%js
  end.

(** A value handed to [new Date(...)]: a date string, or a [Date] object with
    its time value ([None] is [NaN]). *)
Inductive DateInput : Type :=
| DateString (s : jsstring)
| DateObject (time : option Z).

Record Host : Type := mkHost {
  (** the hexadecimal digits of the fraction returned by the n-th
      [Math.random()], as [toString(16)] prints them after ["0."] *)
  Math_random : nat -> list N;
  (** the n-th [Date.now()] *)
  Date_now : nat -> N;
  (** [Date.parse]; [None] is [NaN] *)
  Date_parse : jsstring -> option Z;
  (** [Date.prototype.toUTCString] of a valid time value *)
  Date_toUTCString : Z -> jsstring
}.

(* ------------------------------------------------------------------ *)
(** ** Base64: [btoa], and the decoder the properties are stated with *)

Module Base64.

Definition PAD : N := 61.

Definition alphabet : jsstring :=
  js "ABCDEFGHIJKLMNOPQRSTUVWXYZabcdefghijklmnopqrstuvwxyz0123456789+/".

(** The character of a six-bit value. *)
Definition char_of (v : N) : N := nth (N.to_nat v) alphabet PAD.

(** Three octets give four characters; one or two trailing octets are
    padded with [=]. *)
Fixpoint encode (octets : list N) : jsstring :=
  match octets with
  | [] => []
  | [a] => [char_of (a / 4); char_of ((a mod 4) * 16); PAD; PAD]
  | [a; b] =>
      [char_of (a / 4); char_of ((a mod 4) * 16 + b / 16);
       char_of ((b mod 16) * 4); PAD]
  | a :: b :: c :: rest =>
      char_of (a / 4) :: char_of ((a mod 4) * 16 + b / 16)
      :: char_of ((b mod 16) * 4 + c / 64) :: char_of (c mod 64)
      :: encode rest
  end.

(** [btoa(binary)]: raises [InvalidCharacterError] when a code unit of the
    binary string is above 255. *)
Definition btoa (binary : jsstring) : M jsstring :=
  if forallb (fun c => c <=? 255) binary
  then ret (encode binary)
  else throw InvalidCharacterError.

(** The six-bit value of a character of the alphabet. *)
Definition value_of (c : N) : option N :=
  if (65 <=? c) && (c <=? 90) then Some (c - 65)
  else if (97 <=? c) && (c <=? 122) then Some (c - 97 + 26)
  else if (48 <=? c) && (c <=? 57) then Some (c - 48 + 52)
  else if c =? 43 then Some 62
  else if c =? 47 then Some 63
  else None.

Definition is_base64_char (c : N) : bool :=
  match value_of c with
  | Some _ => true
  | None => c =? PAD
  end.

(** Reference decoder (RFC 4648, padding required, no white space). *)
Fixpoint decode (s : jsstring) : option (list N) :=
  match s with
  | [] => Some []
  | a :: b :: c :: d :: rest =>
      match value_of a, value_of b with
      | Some x, Some y =>
          if d =? PAD then
            match rest with
            | [] =>
                if c =? PAD then Some [x * 4 + y / 16]
                else match value_of c with
                     | Some z => Some [x * 4 + y / 16; (y mod 16) * 16 + z / 4]
                     | None => None
                     end
            | _ :: _ => None
            end
          else
            match value_of c, value_of d, decode rest with
            | Some z, Some u, Some octets =>
                Some (x * 4 + y / 16 :: (y mod 16) * 16 + z / 4
                      :: (z mod 4) * 64 + u :: octets)
            | _, _, _ => None
            end
      | _, _ => None
      end
  | _ => None
  end.

End Base64.

(* ------------------------------------------------------------------ *)
(** ** UTF-8: [TextEncoder], and the decoder the properties are stated with *)

Module Utf8.

Definition REPLACEMENT : N := 0xFFFD.

Definition is_high_surrogate (c : N) : bool := (0xD800 <=? c) && (c <=? 0xDBFF).
Definition is_low_surrogate (c : N) : bool := (0xDC00 <=? c) && (c <=? 0xDFFF).
Definition is_surrogate (c : N) : bool := (0xD800 <=? c) && (c <=? 0xDFFF).

(** A JavaScript string read as scalar values: a surrogate pair is one
    value, an unpaired surrogate becomes U+FFFD. *)
Fixpoint scalar_values (s : jsstring) : list N :=
  match s with
  | [] => []
  | c :: t =>
      if is_high_surrogate c then
        match t with
        | d :: t' =>
            if is_low_surrogate d
            then 0x10000 + (c - 0xD800) * 0x400 + (d - 0xDC00) :: scalar_values t'
            else REPLACEMENT :: scalar_values t
        | [] => [REPLACEMENT]
        end
      else if is_low_surrogate c then REPLACEMENT :: scalar_values t
      else c :: scalar_values t
  end.

(** A store into a [Uint8Array] keeps the low eight bits. *)
Definition uint8 (v : N) : N := v mod 256.

Definition encode_scalar (cp : N) : list N :=
  if cp <? 0x80 then [uint8 cp]
  else if cp <? 0x800 then
    [uint8 (0xC0 + cp / 64); uint8 (0x80 + cp mod 64)]
  else if cp <? 0x10000 then
    [uint8 (0xE0 + cp / 4096); uint8 (0x80 + (cp / 64) mod 64);
     uint8 (0x80 + cp mod 64)]
  else
    [uint8 (0xF0 + cp / 262144); uint8 (0x80 + (cp / 4096) mod 64);
     uint8 (0x80 + (cp / 64) mod 64); uint8 (0x80 + cp mod 64)].

(** [new TextEncoder().encode(text)] *)
Definition TextEncoder_encode (text : jsstring) : list N :=
  flat_map encode_scalar (scalar_values text).

Definition is_continuation (b : N) : bool := (0x80 <=? b) && (b <? 0xC0).

(** Reference decoder: strict UTF-8 (shortest form, no surrogates, at most
    U+10FFFF), to scalar values. *)
Fixpoint decode_scalars (octets : list N) : option (list N) :=
  match octets with
  | [] => Some []
  | b0 :: t0 =>
      if b0 <? 0x80 then option_map (cons b0) (decode_scalars t0)
      else if (0xC0 <=? b0) && (b0 <? 0xE0) then
        match t0 with
        | b1 :: t1 =>
            let cp := (b0 - 0xC0) * 64 + (b1 - 0x80) in
            if is_continuation b1 && (0x80 <=? cp)
            then option_map (cons cp) (decode_scalars t1)
            else None
        | _ => None
        end
      else if (0xE0 <=? b0) && (b0 <? 0xF0) then
        match t0 with
        | b1 :: b2 :: t2 =>
            let cp := (b0 - 0xE0) * 4096 + (b1 - 0x80) * 64 + (b2 - 0x80) in
            if is_continuation b1 && is_continuation b2 && (0x800 <=? cp)
               && negb (is_surrogate cp)
            then option_map (cons cp) (decode_scalars t2)
            else None
        | _ => None
        end
      else if (0xF0 <=? b0) && (b0 <? 0xF8) then
        match t0 with
        | b1 :: b2 :: b3 :: t3 =>
            let cp := (b0 - 0xF0) * 262144 + (b1 - 0x80) * 4096
                      + (b2 - 0x80) * 64 + (b3 - 0x80) in
            if is_continuation b1 && is_continuation b2 && is_continuation b3
               && (0x10000 <=? cp) && (cp <=? 0x10FFFF)
            then option_map (cons cp) (decode_scalars t3)
            else None
        | _ => None
        end
      else None
  end.

(** Scalar values as UTF-16 code units. *)
Definition utf16_units (cp : N) : jsstring :=
  if cp <? 0x10000 then [cp]
  else [0xD800 + (cp - 0x10000) / 0x400; 0xDC00 + (cp - 0x10000) mod 0x400].

(** The octets decoded as UTF-8 into a JavaScript string. *)
Definition decode (octets : list N) : option jsstring :=
  option_map (flat_map utf16_units) (decode_scalars octets).

(** Every code unit is sixteen bits wide and every surrogate is paired. *)
Fixpoint well_formed (s : jsstring) : bool :=
  match s with
  | [] => true
  | c :: t =>
      if is_high_surrogate c then
        match t with
        | d :: t' => is_low_surrogate d && well_formed t'
        | [] => false
        end
      else (c <? 0x10000) && negb (is_low_surrogate c) && well_formed t
  end.

End Utf8.

(* ------------------------------------------------------------------ *)
(** ** The message handed to the exporter

    Every property of the objects is optional, as the exporter reads them
    ([message?.subject || '']): [None] is a property that is missing,
    [undefined] or [null].  The text properties hold strings, the arrays
    hold objects or [null], the dates hold a date string or a [Date], the
    raw buffer is an [ArrayBuffer]. *)

Module Recipient.
Record t : Type := mk {
  recipType : option jsstring;
  smtpAddress : option jsstring;
  email : option jsstring;
  address : option jsstring;
  name : option jsstring;
  (** properties the exporter never reads, by name *)
  others : list (string * jsstring)
}.
End Recipient.

Module Attachment.
Record t : Type := mk {
  attachMimeTag : option jsstring;
  fileName : option jsstring;
  contentBase64 : option jsstring;
  contentId : option jsstring
}.
End Attachment.

Module Message.
Record t : Type := mk {
  subject : option jsstring;
  senderName : option jsstring;
  senderEmail : option jsstring;
  recipients : option (list (option Recipient.t));
  bodyContent : option jsstring;
  bodyContentHTML : option jsstring;
  attachments : option (list (option Attachment.t));
  messageDeliveryTime : option DateInput;
  timestamp : option DateInput;
  fileName : option jsstring;
  _fileType : option jsstring;
  (** an [ArrayBuffer] *)
  _rawBuffer : option (list Byte.byte)
}.
End Message.

(** The [{ name, address }] object [formatAddress] receives. *)
Record NameAddress : Type := mkNameAddress {
  na_name : jsstring;
  na_address : jsstring
}.

(** The object [buildEmlDownload] returns. *)
Record Download : Type := mkDownload {
  fileName : jsstring;
  dataUrl : jsstring
}.

(* ------------------------------------------------------------------ *)
(** ** src/js/emlExport.js *)

Module Eml.

Import Base64 Utf8.
Local Open Scope js_scope.

Definition CRLF : jsstring := [CR; LF].
Definition BASE64_LINE_LENGTH : nat := 76.

Definition sanitizeHeaderValue (value : option jsstring) : jsstring :=
  trim
    (replace_runs is_cr_lf [SPACE]
       (replace_class is_control [SPACE] (js_or value []))).

(** The class of less-than, greater-than, colon, double quote, bar,
    question mark and star. *)
Definition is_illegal (c : N) : bool :=
  (c =? 60) || (c =? 62) || (c =? 58) || (c =? DQUOTE) || (c =? 124)
  || (c =? 63) || (c =? 42).

(** Slash or backslash. *)
Definition is_separator (c : N) : bool := (c =? SLASH) || (c =? BACKSLASH).

(** A letter, a colon, then a slash or a backslash, at the start. *)
Definition drive_prefix : list (N -> bool) :=
  [is_ascii_letter; N.eqb 58; is_separator].

Definition remove_drive_prefix (s : jsstring) : jsstring :=
  if prefix_matches drive_prefix s then slice_from 3 s else s.

(** The chain of replacements of [sanitizeFilename], before the fallback. *)
Definition sanitizeFilename_chain (filename : option jsstring) : jsstring :=
  trim
    (replace_class is_separator [UNDERSCORE]
       (replace_class is_illegal [UNDERSCORE]
          (replace_class is_control []
             (remove_drive_prefix
                (drop_leading SLASH
                   (remove_triples 46 46 BACKSLASH
                      (remove_triples 46 46 SLASH (js_or filename [])))))))).

Definition sanitizeFilename (filename : option jsstring) : jsstring :=
  js_or (Some (sanitizeFilename_chain filename)) (js "message.eml").

Definition normalizeLineEndings (text : option jsstring) : jsstring :=
  replace_class (N.eqb LF) CRLF
    (replace_class (N.eqb CR) [LF]
       (replace_pair CR LF [LF] (js_or text []))).

(** [String.fromCharCode] applies [ToUint16] to each argument. *)
Definition fromCharCode (codes : list N) : jsstring :=
  List.map (fun v => v mod 65536) codes.

Definition chunkSize : nat := N.to_nat 0x8000.

Definition base64EncodeBytes (bytes : list N) : M jsstring :=
  let binary :=
    fold_left (fun acc chunk => acc ++ fromCharCode chunk)
      (slices (List.length bytes) chunkSize bytes) [] in
  btoa binary.

Definition base64EncodeUtf8 (text : jsstring) : M jsstring :=
  let bytes := TextEncoder_encode text in
  base64EncodeBytes bytes.

Definition wrapBase64 (base64 : jsstring) : jsstring :=
  if is_empty base64 then []
  else join CRLF (slices (List.length base64) BASE64_LINE_LENGTH base64).

Definition encodeHeaderWord (value : option jsstring) : M jsstring :=
  let clean := sanitizeHeaderValue value in
  if is_empty clean then ret []
  else
    let hasNonAscii := test_class is_non_ascii clean in
    if negb hasNonAscii then ret clean
    else
      encoded <- base64EncodeUtf8 clean ;;
      ret (js "=?UTF-8?B?" ++ encoded ++ js "?=").

(** The class of double quote, comma, less-than, greater-than and at sign. *)
Definition needs_quoting (c : N) : bool :=
  (c =? DQUOTE) || (c =? 44) || (c =? 60) || (c =? 62) || (c =? 64).

Definition formatAddress (recipient : NameAddress) : M jsstring :=
  let address := sanitizeHeaderValue (Some (js_or (Some (na_address recipient)) [])) in
  if is_empty address then ret []
  else
    let rawName := sanitizeHeaderValue (Some (js_or (Some (na_name recipient)) [])) in
    if is_empty rawName || str_eqb rawName address
    then ret (js "<" ++ address ++ js ">")
    else
      encodedName <-
        (if test_class is_non_ascii rawName
         then encodeHeaderWord (Some rawName)
         else ret rawName) ;;
      let isEncoded := startsWith encodedName (js "=?UTF-8?B?") in
      if isEncoded
      then ret (encodedName ++ js " <" ++ address ++ js ">")
      else
        let needsQuotes := test_class needs_quoting encodedName in
        let displayName :=
          if needsQuotes
          then [DQUOTE]
               ++ replace_class (N.eqb DQUOTE) [BACKSLASH; DQUOTE] encodedName
               ++ [DQUOTE]
          else encodedName in
        ret (displayName ++ js " <" ++ address ++ js ">").

Definition normalizeRecipient (recipient : option Recipient.t) : NameAddress :=
  let address :=
    js_or
      (js_or_opt (opt_chain recipient Recipient.smtpAddress)
         (js_or_opt (opt_chain recipient Recipient.email)
            (opt_chain recipient Recipient.address)))
      [] in
  {| na_name := js_or (opt_chain recipient Recipient.name) address;
     na_address := address |}.

(** [recipient?.recipType === type] *)
Definition has_type (type : jsstring) (recipient : option Recipient.t) : bool :=
  match opt_chain recipient Recipient.recipType with
  | Some t => str_eqb t type
  | None => false
  end.

(** [recipients] is [None] when the property is not an array. *)
Definition formatAddressList (recipients : option (list (option Recipient.t)))
  (type : jsstring) : M jsstring :=
  match recipients with
  | None => ret []
  | Some recipients =>
      formatted <-
        mapM (fun recipient => formatAddress (normalizeRecipient recipient))
          (filter (has_type type) recipients) ;;
      let list := filter (fun s => negb (is_empty s)) formatted in
      ret (join (js ", ") list)
  end.

(** Whether a date value is truthy: an empty string is not, a [Date] object
    always is. *)
Definition truthy_date (v : option DateInput) : option DateInput :=
  match v with
  | Some (DateString []) => None
  | _ => v
  end.

Section WithHost.

Variable host : Host.

(** The time value of [new Date(dateValue)]; [None] is [NaN]. *)
Definition new_Date (dateValue : DateInput) : option Z :=
  match dateValue with
  | DateString s => Date_parse host s
  | DateObject time => time
  end.

Definition getMessageDate (message : option Message.t) : jsstring :=
  let dateValue :=
    match truthy_date (opt_chain message Message.messageDeliveryTime) with
    | Some v => Some v
    | None => truthy_date (opt_chain message Message.timestamp)
    end in
  match dateValue with
  | None => []
  | Some dateValue =>
      match new_Date dateValue with
      | None => []
      | Some time => Date_toUTCString host time
      end
  end.

Definition hex_digit (d : N) : N :=
  nth (N.to_nat (d mod 16)) (js "0123456789abcdef") 48.

(** [Math.random().toString(16)]: the fraction in base sixteen, ["0"] when
    it is zero. *)
Definition Math_random_toString16 : M jsstring :=
  fun w =>
    let digits := Math_random host (random_draws w) in
    Returns
      (match digits with
       | [] => js "0"
       | _ :: _ => js "0." ++ List.map hex_digit digits
       end)
      {| random_draws := S (random_draws w); clock_reads := clock_reads w |}.

Fixpoint uint_digits (u : Decimal.uint) : jsstring :=
  match u with
  | Decimal.Nil => []
  | Decimal.D0 u' => 48 :: uint_digits u'
  | Decimal.D1 u' => 49 :: uint_digits u'
  | Decimal.D2 u' => 50 :: uint_digits u'
  | Decimal.D3 u' => 51 :: uint_digits u'
  | Decimal.D4 u' => 52 :: uint_digits u'
  | Decimal.D5 u' => 53 :: uint_digits u'
  | Decimal.D6 u' => 54 :: uint_digits u'
  | Decimal.D7 u' => 55 :: uint_digits u'
  | Decimal.D8 u' => 56 :: uint_digits u'
  | Decimal.D9 u' => 57 :: uint_digits u'
  end.

(** [String(Date.now())]: the milliseconds in decimal. *)
Definition Date_now_string : M jsstring :=
  fun w =>
    Returns (uint_digits (N.to_uint (Date_now host (clock_reads w))))
      {| random_draws := random_draws w; clock_reads := S (clock_reads w) |}.

Definition makeBoundary (prefix : jsstring) : M jsstring :=
  digits <- Math_random_toString16 ;;
  let random := slice_from 2 digits in
  now <- Date_now_string ;;
  ret (prefix ++ js "-" ++ now ++ js "-" ++ random).

Definition extractBase64 (dataUrl : jsstring) : jsstring :=
  if is_empty dataUrl then []
  else
    match indexOf 44 dataUrl with
    | None => dataUrl
    | Some commaIndex => slice_from (commaIndex + 1) dataUrl
    end.

Definition buildTextPart (content : jsstring) (contentType : jsstring)
  : M (list jsstring) :=
  let normalized := normalizeLineEndings (Some (js_or (Some content) [])) in
  base64 <- base64EncodeUtf8 normalized ;;
  let encoded := wrapBase64 base64 in
  ret [js "Content-Type: " ++ contentType ++ js "; charset=" ++ [DQUOTE]
         ++ js "utf-8" ++ [DQUOTE];
       js "Content-Transfer-Encoding: base64";
       [];
       encoded].

Definition buildAlternativeLines (boundaryAlt text html : jsstring)
  (includeHeader : bool) : M (list jsstring) :=
  let lines0 :=
    if includeHeader
    then [js "Content-Type: multipart/alternative; boundary=" ++ [DQUOTE]
            ++ boundaryAlt ++ [DQUOTE];
          []]
    else [] in
  let lines1 := lines0 ++ [js "--" ++ boundaryAlt] in
  textPart <- buildTextPart text (js "text/plain") ;;
  let lines2 := lines1 ++ textPart in
  let lines3 := lines2 ++ [js "--" ++ boundaryAlt] in
  htmlPart <- buildTextPart html (js "text/html") ;;
  let lines4 := lines3 ++ htmlPart in
  ret (lines4 ++ [js "--" ++ boundaryAlt ++ js "--"]).

(** Less-than or greater-than. *)
Definition is_angle (c : N) : bool := (c =? 60) || (c =? 62).

(** [None] is the [null] returned for an attachment without content. *)
Definition buildAttachmentPart (attachment : option Attachment.t)
  : option (list jsstring) :=
  let mimeType :=
    js_or (opt_chain attachment Attachment.attachMimeTag)
      (js "application/octet-stream") in
  let fileName :=
    sanitizeFilename
      (Some (js_or (opt_chain attachment Attachment.fileName) (js "attachment"))) in
  let base64Content :=
    extractBase64 (js_or (opt_chain attachment Attachment.contentBase64) []) in
  if is_empty base64Content then None
  else
    let lines0 :=
      [js "Content-Type: " ++ mimeType ++ js "; name=" ++ [DQUOTE] ++ fileName
         ++ [DQUOTE];
       js "Content-Transfer-Encoding: base64"] in
    let cid := js_or (opt_chain attachment Attachment.contentId) [] in
    let lines1 :=
      if negb (is_empty cid) then
        let contentId :=
          replace_class is_angle [] (sanitizeHeaderValue (Some cid)) in
        if negb (is_empty contentId)
        then lines0 ++ [js "Content-ID: <" ++ contentId ++ js ">"]
        else lines0
      else lines0 in
    let disposition :=
      if negb (is_empty cid) then js "inline" else js "attachment" in
    Some
      (lines1
         ++ [js "Content-Disposition: " ++ disposition ++ js "; filename="
               ++ [DQUOTE] ++ fileName ++ [DQUOTE]]
         ++ [[]]
         ++ [wrapBase64 base64Content]).

(** [if (value) headers.push(name + value)] *)
Definition push_header (headers : list jsstring) (name value : jsstring)
  : list jsstring :=
  if is_empty value then headers else headers ++ [name ++ value].

(** The [forEach] over the attachments: one delimiter and one part for each
    attachment that has content. *)
Definition push_attachment (boundaryMixed : jsstring) (lines : list jsstring)
  (attachment : option Attachment.t) : list jsstring :=
  match buildAttachmentPart attachment with
  | None => lines
  | Some partLines => (lines ++ [js "--" ++ boundaryMixed]) ++ partLines
  end.

(** [Array.isArray(message?.attachments) ? message.attachments : []] *)
Definition message_attachments (message : option Message.t)
  : list (option Attachment.t) :=
  match opt_chain message Message.attachments with
  | Some attachments => attachments
  | None => []
  end.

(** The first statements of [buildEmlFromMessage]: the header block from
    [Subject] to [MIME-Version], before the body structure is chosen. *)
Definition buildEmlFromMessage_headers (message : option Message.t)
  : M (list jsstring) :=
  let headers := [] in
  subject <- encodeHeaderWord (Some (js_or (opt_chain message Message.subject) [])) ;;
  let headers := push_header headers (js "Subject: ") subject in
  fromAddress <-
    formatAddress
      {| na_name := js_or (opt_chain message Message.senderName) [];
         na_address := js_or (opt_chain message Message.senderEmail) [] |} ;;
  let headers := push_header headers (js "From: ") fromAddress in
  toList <- formatAddressList (opt_chain message Message.recipients) (js "to") ;;
  let headers := push_header headers (js "To: ") toList in
  ccList <- formatAddressList (opt_chain message Message.recipients) (js "cc") ;;
  let headers := push_header headers (js "Cc: ") ccList in
  let date := getMessageDate message in
  let headers := push_header headers (js "Date: ") date in
  ret (headers ++ [js "MIME-Version: 1.0"]).

Definition buildEmlFromMessage (message : option Message.t) : M jsstring :=
  headers <- buildEmlFromMessage_headers message ;;
  let attachments := message_attachments message in
  let bodyText := normalizeLineEndings (Some (js_or (opt_chain message Message.bodyContent) [])) in
  let bodyHtml := normalizeLineEndings (Some (js_or (opt_chain message Message.bodyContentHTML) [])) in
  let hasText := negb (is_empty (trim bodyText)) in
  let hasHtml := negb (is_empty (trim bodyHtml)) in
  let useBoth := hasText && hasHtml in
  if negb (is_empty_list attachments) then
    boundaryMixed <- makeBoundary (js "mixed") ;;
    let headers :=
      headers ++ [js "Content-Type: multipart/mixed; boundary=" ++ [DQUOTE]
                    ++ boundaryMixed ++ [DQUOTE]] in
    lines <-
      (if useBoth then
         boundaryAlt <- makeBoundary (js "alt") ;;
         alternative <- buildAlternativeLines boundaryAlt bodyText bodyHtml true ;;
         ret ([js "--" ++ boundaryMixed] ++ alternative)
       else if hasHtml || hasText then
         let partType := if hasHtml then js "text/html" else js "text/plain" in
         part <- buildTextPart (if hasHtml then bodyHtml else bodyText) partType ;;
         ret ([js "--" ++ boundaryMixed] ++ part)
       else
         part <- buildTextPart [] (js "text/plain") ;;
         ret ([js "--" ++ boundaryMixed] ++ part)) ;;
    let lines := fold_left (push_attachment boundaryMixed) attachments lines in
    let lines := lines ++ [js "--" ++ boundaryMixed ++ js "--"] in
    ret (join CRLF headers ++ CRLF ++ CRLF ++ join CRLF lines)
  else if useBoth then
    boundaryAlt <- makeBoundary (js "alt") ;;
    let headers :=
      headers ++ [js "Content-Type: multipart/alternative; boundary="
                    ++ [DQUOTE] ++ boundaryAlt ++ [DQUOTE]] in
    lines <- buildAlternativeLines boundaryAlt bodyText bodyHtml false ;;
    ret (join CRLF headers ++ CRLF ++ CRLF ++ join CRLF lines)
  else if hasHtml || hasText then
    let contentType := if hasHtml then js "text/html" else js "text/plain" in
    let headers :=
      headers ++ [js "Content-Type: " ++ contentType ++ js "; charset="
                    ++ [DQUOTE] ++ js "utf-8" ++ [DQUOTE]] in
    let headers := headers ++ [js "Content-Transfer-Encoding: base64"] in
    base64 <- base64EncodeUtf8 (if hasHtml then bodyHtml else bodyText) ;;
    let payload := wrapBase64 base64 in
    ret (join CRLF headers ++ CRLF ++ CRLF ++ payload)
  else
    let headers :=
      headers ++ [js "Content-Type: text/plain; charset=" ++ [DQUOTE]
                    ++ js "utf-8" ++ [DQUOTE]] in
    let headers := headers ++ [js "Content-Transfer-Encoding: base64"] in
    base64 <- base64EncodeUtf8 [] ;;
    ret (join CRLF headers ++ CRLF ++ CRLF ++ wrapBase64 base64).

(** The extension patterns [/\.eml$/i] and [/\.msg$/i]. *)
Definition dot_eml : list (N -> bool) := [N.eqb 46; ci 101; ci 109; ci 108].
Definition dot_msg : list (N -> bool) := [N.eqb 46; ci 109; ci 115; ci 103].

Definition deriveEmlFileName (message : option Message.t) : jsstring :=
  let original := trim (js_or (opt_chain message Message.fileName) []) in
  let fromOriginal :=
    if negb (is_empty original) then
      if suffix_matches dot_eml original
      then Some (sanitizeFilename (Some original))
      else if suffix_matches dot_msg original
      then Some (sanitizeFilename (Some (drop_last 4 original ++ js ".eml")))
      else None
    else None in
  match fromOriginal with
  | Some name => name
  | None =>
      let subject :=
        sanitizeFilename
          (Some (js_or (opt_chain message Message.subject) (js "message"))) in
      let stripped :=
        if suffix_matches dot_eml subject then drop_last 4 subject else subject in
      let base := js_or (Some (trim stripped)) (js "message") in
      base ++ js ".eml"
  end.

(** [fileType === 'eml'] *)
Definition is_eml (fileType : option jsstring) : bool :=
  match fileType with
  | Some t => str_eqb t (js "eml")
  | None => false
  end.

(** [new Uint8Array(buffer)] views the octets of the buffer. *)
Definition arrayBufferToBase64 (buffer : list Byte.byte) : M jsstring :=
  let bytes := List.map Byte.to_N buffer in
  base64EncodeBytes bytes.

Definition buildEmlDownload (message : option Message.t) : M (option Download) :=
  match message with
  | None => ret None
  | Some msg =>
      let fileName := deriveEmlFileName message in
      match (if is_eml (Message._fileType msg)
             then Message._rawBuffer msg else None) with
      | Some rawBuffer =>
          base64 <- arrayBufferToBase64 rawBuffer ;;
          ret (Some {| fileName := fileName;
                       dataUrl := js "data:message/rfc822;base64," ++ base64 |})
      | None =>
          emlContent <- buildEmlFromMessage message ;;
          base64 <- base64EncodeUtf8 emlContent ;;
          ret (Some {| fileName := fileName;
                       dataUrl := js "data:message/rfc822;base64," ++ base64 |})
      end
  end.

End WithHost.

End Eml.

(* ------------------------------------------------------------------ *)
(** ** Vocabulary of the properties *)

Module Props.
Import Utf8.

(** A Unicode scalar value: at most U+10FFFF and not a surrogate. *)
Definition is_scalar (cp : N) : bool :=
  (cp <=? 0x10FFFF) && negb (is_surrogate cp).

(** A code unit that is neither CR nor LF. *)
Definition not_newline (c : N) : bool := negb (is_cr_lf c).

(** No CR and no LF in the string. *)
Definition single_line (s : jsstring) : bool := forallb not_newline s.

(** A computation that returns [a] in every world, leaves the world as it
    found it and does not raise. *)
Definition pure_result {A : Type} (c : M A) (a : A) : Prop :=
  forall w, c w = Returns a w.


(** Not a [Content-Type] header. *)
Definition not_content_type (h : jsstring) : bool :=
  negb (startsWith h (js "Content-Type:")).

(** The attachment has content: its extracted base64 payload is not empty. *)
Definition has_payload (attachment : option Attachment.t) : bool :=
  negb (is_empty
          (Eml.extractBase64
             (js_or (opt_chain attachment Attachment.contentBase64) []))).

(** Every CR of the string is followed by LF and every LF follows a CR. *)
Fixpoint bare_newline_free (s : jsstring) : bool :=
  match s with
  | [] => true
  | c :: t =>
      if c =? CR then
        match t with
        | d :: t' => (d =? LF) && bare_newline_free t'
        | [] => false
        end
      else negb (c =? LF) && bare_newline_free t
  end.



(** The names of the header fields the first statements of the assembler
    emit. *)
Definition field_names : list jsstring :=
  [js "Subject: "; js "From: "; js "To: "; js "Cc: "; js "Date: ";
   js "MIME-Version: 1.0"].

(** A drive letter: an ASCII letter followed by a colon, at the start. *)
Definition drive_letter : list (N -> bool) := [is_ascii_letter; N.eqb 58].

(** Header-value sanitation as the specification words it: every run of
    control characters, CR and LF among them, becomes one space, and the
    result is trimmed. *)
Definition sanitizeHeaderValue_as_stated (value : option jsstring) : jsstring :=
  trim (replace_runs is_control [SPACE] (js_or value [])).

(** The content of an encoded word or of a payload: base64, then UTF-8. *)
Definition decode_base64_utf8 (s : jsstring) : option jsstring :=
  match Base64.decode s with
  | Some octets => Utf8.decode octets
  | None => None
  end.

End Props.

Module Examples.

Definition initial_world : World := {| random_draws := 0; clock_reads := 0 |}.

(** A host whose clock stands at 1700000000000 ms, whose random fractions
    are 0.3a7f (base sixteen), and whose dates are all the epoch. *)
Definition sample_host : Host :=
  {| Math_random := fun _ => [3; 10; 7; 15];
     Date_now := fun _ => 1700000000000;
     Date_parse := fun _ => Some 0%Z;
     Date_toUTCString := fun _ => js "Thu, 01 Jan 1970 00:00:00 GMT" |}.

Definition empty_message : Message.t :=
  {| Message.subject := None;
     Message.senderName := None;
     Message.senderEmail := None;
     Message.recipients := None;
     Message.bodyContent := None;
     Message.bodyContentHTML := None;
     Message.attachments := None;
     Message.messageDeliveryTime := None;
     Message.timestamp := None;
     Message.fileName := None;
     Message._fileType := None;
     Message._rawBuffer := None |}.

(** The message of the example scenario, its fields as it writes them. *)
Definition hello_with (recipient : Recipient.t) : Message.t :=
  {| Message.subject := Some (js "Hello");
     Message.senderName := None;
     Message.senderEmail := Some (js "a@x.com");
     Message.recipients := Some [Some recipient];
     Message.bodyContent := Some (js "Hi");
     Message.bodyContentHTML := None;
     Message.attachments := Some [];
     Message.messageDeliveryTime := None;
     Message.timestamp := None;
     Message.fileName := None;
     Message._fileType := None;
     Message._rawBuffer := None |}.

(** The recipient object of the scenario as the specification writes it:
    its role is stored under the property [role], which the exporter does
    not read. *)
Definition recipient_with_role : Recipient.t :=
  {| Recipient.recipType := None;
     Recipient.smtpAddress := None;
     Recipient.email := None;
     Recipient.address := Some (js "b@y.com");
     Recipient.name := None;
     Recipient.others := [("role"%string, js "to")] |}.

(** The same recipient with its role under [recipType], the property the
    exporter filters on. *)
Definition recipient_with_recipType : Recipient.t :=
  {| Recipient.recipType := Some (js "to");
     Recipient.smtpAddress := None;
     Recipient.email := None;
     Recipient.address := Some (js "b@y.com");
     Recipient.name := None;
     Recipient.others := [] |}.

Definition content_type_text_plain : jsstring :=
  js "Content-Type: text/plain; charset=" ++ [DQUOTE] ++ js "utf-8" ++ [DQUOTE].

(** A message with a plain-text and an HTML body, both in need of line
    ending normalization. *)
Definition both_bodies : Message.t :=
  {| Message.subject := Some (js "Both");
     Message.senderName := Some (js "Ann");
     Message.senderEmail := Some (js "a@x.com");
     Message.recipients := Some [Some recipient_with_recipType];
     Message.bodyContent := Some (js "Hi" ++ [LF] ++ js "there");
     Message.bodyContentHTML := Some (js "<b>Hi</b>" ++ [CR] ++ js "there");
     Message.attachments := Some [];
     Message.messageDeliveryTime := Some (DateString (js "2024-01-01"));
     Message.timestamp := None;
     Message.fileName := Some (js "both.msg");
     Message._fileType := Some (js "msg");
     Message._rawBuffer := None |}.

Definition logo : Attachment.t :=
  {| Attachment.attachMimeTag := Some (js "image/png");
     Attachment.fileName := Some (js "logo.png");
     Attachment.contentBase64 := Some (js "data:image/png;base64,QUJD");
     Attachment.contentId := None |}.

(** The message with both bodies, a bare LF in the one and a bare CR in the
    other, and one attachment. *)
Definition both_bodies_attached : Message.t :=
  {| Message.subject := Some (js "Both");
     Message.senderName := Some (js "Ann");
     Message.senderEmail := Some (js "a@x.com");
     Message.recipients := Some [Some recipient_with_recipType];
     Message.bodyContent := Some (js "Hi" ++ [LF] ++ js "there");
     Message.bodyContentHTML := Some (js "<b>Hi</b>" ++ [CR] ++ js "there");
     Message.attachments := Some [Some logo];
     Message.messageDeliveryTime := Some (DateString (js "2024-01-01"));
     Message.timestamp := None;
     Message.fileName := Some (js "both.msg");
     Message._fileType := Some (js "msg");
     Message._rawBuffer := None |}.

(** An attachment whose data URL carries nothing after the comma. *)
Definition hollow : Attachment.t :=
  {| Attachment.attachMimeTag := Some (js "text/plain");
     Attachment.fileName := Some (js "empty.txt");
     Attachment.contentBase64 := Some (js "data:text/plain;base64,");
     Attachment.contentId := None |}.

(** An attachment whose payload holds a bare LF. *)
Definition two_lines : Attachment.t :=
  {| Attachment.attachMimeTag := Some (js "text/plain");
     Attachment.fileName := Some (js "notes.txt");
     Attachment.contentBase64 := Some (js "QUJD" ++ [LF] ++ js "REVG");
     Attachment.contentId := None |}.

Definition with_attachments (attachments : list (option Attachment.t))
  : Message.t :=
  {| Message.subject := Some (js "Files");
     Message.senderName := None;
     Message.senderEmail := Some (js "a@x.com");
     Message.recipients := None;
     Message.bodyContent := Some (js "Hi");
     Message.bodyContentHTML := None;
     Message.attachments := Some attachments;
     Message.messageDeliveryTime := None;
     Message.timestamp := None;
     Message.fileName := None;
     Message._fileType := None;
     Message._rawBuffer := None |}.

End Examples.

Module Shapes.
Import Props Base64.

(** The wrapped base64 payload of a text body. *)
Definition payload_of (content : jsstring) : jsstring :=
  Eml.wrapBase64
    (Base64.encode
       (Utf8.TextEncoder_encode (Eml.normalizeLineEndings (Some content)))).

(** A part in base64: two content headers, a blank line and the payload. *)
Definition part_with (contentType payload : jsstring) : list jsstring :=
  [js "Content-Type: " ++ contentType ++ js "; charset=" ++ [DQUOTE]
     ++ js "utf-8" ++ [DQUOTE];
   js "Content-Transfer-Encoding: base64";
   [];
   payload].

(** The text part of a body. *)
Definition text_part (contentType content : jsstring) : list jsstring :=
  part_with contentType (payload_of content).

(** The lines of a wrapped payload: at most 76 code units each, base64
    text that decodes to the UTF-8 octets of the body with its line
    endings normalized. *)
Definition payload_lines (lines : list jsstring) (body : option jsstring)
  : Prop :=
  Forall (fun l => (List.length l <= 76)%nat) lines
  /\ forallb is_base64_char (List.concat lines) = true
  /\ Base64.decode (List.concat lines)
     = Some (Utf8.TextEncoder_encode (Eml.normalizeLineEndings body)).


(** An element of the array of lines that is itself one line or several
    lines joined by CR LF. *)
Definition is_block (element : jsstring) : Prop :=
  exists lines,
    lines <> [] /\ element = join Eml.CRLF lines
    /\ forallb single_line lines = true.

Definition delimiter (boundary : jsstring) : jsstring := js "--" ++ boundary.

Definition close_delimiter (boundary : jsstring) : jsstring :=
  js "--" ++ boundary ++ js "--".

(** The two alternatives between their delimiters. *)
Definition alternative_parts (boundary text html : jsstring) : list jsstring :=
  [delimiter boundary] ++ text_part (js "text/plain") text
  ++ [delimiter boundary] ++ text_part (js "text/html") html
  ++ [close_delimiter boundary].

Definition content_type_multipart (subtype boundary : jsstring) : jsstring :=
  js "Content-Type: multipart/" ++ subtype ++ js "; boundary=" ++ [DQUOTE]
  ++ boundary ++ [DQUOTE].

(** What one attachment adds to a mixed body: a delimiter and its part, or
    nothing when it has no content. *)
Definition attachment_block (boundary : jsstring)
  (attachment : option Attachment.t) : list jsstring :=
  match Eml.buildAttachmentPart attachment with
  | Some part => delimiter boundary :: part
  | None => []
  end.

(** The body part that opens a mixed body: one text part, or the two
    alternatives under a boundary of their own. *)
Definition is_body_part (first : list jsstring) : Prop :=
  (exists contentType content,
      In contentType [js "text/plain"; js "text/html"]
      /\ first = text_part contentType content)
  \/ (exists tail text html,
         single_line tail = true
         /\ first = [content_type_multipart (js "alternative") (js "alt-" ++ tail);
                     []]
                    ++ alternative_parts (js "alt-" ++ tail) text html).

(** The tests of the assembler on the two bodies. *)
Definition bodyText (message : option Message.t) : jsstring :=
  Eml.normalizeLineEndings
    (Some (js_or (opt_chain message Message.bodyContent) [])).

Definition bodyHtml (message : option Message.t) : jsstring :=
  Eml.normalizeLineEndings
    (Some (js_or (opt_chain message Message.bodyContentHTML) [])).

Definition hasText (message : option Message.t) : bool :=
  negb (is_empty (trim (bodyText message))).

Definition hasHtml (message : option Message.t) : bool :=
  negb (is_empty (trim (bodyHtml message))).





End Shapes.

Module LineEndings.

(** Line-ending normalization as one pass: CR LF, a lone CR and a lone LF
    each become CR LF. *)
Fixpoint crlf_normal (s : jsstring) : jsstring :=
  match s with
  | [] => []
  | c :: t =>
      if c =? CR then
        CR :: LF
        :: match t with
           | d :: t' => if d =? LF then crlf_normal t' else crlf_normal t
           | [] => []
           end
      else if c =? LF then CR :: LF :: crlf_normal t
      else c :: crlf_normal t
  end.

End LineEndings.

(* ------------------------------------------------------------------ *)
(** ** Vocabulary of the further properties *)

Module Addressing.

(** The address and the name [formatAddress] works with, both sanitized as
    header values. *)
Definition address_of (recipient : NameAddress) : jsstring :=
  Eml.sanitizeHeaderValue (Some (na_address recipient)).

Definition name_of (recipient : NameAddress) : jsstring :=
  Eml.sanitizeHeaderValue (Some (na_name recipient)).

(** The address between angle brackets. *)
Definition angle (address : jsstring) : jsstring :=
  js "<" ++ address ++ js ">".

(** The recipient has an address once it is normalized and sanitized. *)
Definition has_address (recipient : option Recipient.t) : bool :=
  negb (is_empty (address_of (Eml.normalizeRecipient recipient))).

(** Reference reader of a quoted string (RFC 5322): the text after the
    opening quote up to the closing one, which has to be the last code
    unit; a backslash makes the code unit that follows it literal. *)
Fixpoint unquote_body (s : jsstring) : option jsstring :=
  match s with
  | [] => None
  | c :: t =>
      if c =? DQUOTE then
        match t with
        | [] => Some []
        | _ :: _ => None
        end
      else if c =? BACKSLASH then
        match t with
        | d :: t' => option_map (cons d) (unquote_body t')
        | [] => None
        end
      else option_map (cons c) (unquote_body t)
  end.

Definition unquote (s : jsstring) : option jsstring :=
  match s with
  | c :: t => if c =? DQUOTE then unquote_body t else None
  | [] => None
  end.

(** The message with other recipients. *)
Definition with_recipients (message : Message.t)
  (recipients : option (list (option Recipient.t))) : Message.t :=
  {| Message.subject := Message.subject message;
     Message.senderName := Message.senderName message;
     Message.senderEmail := Message.senderEmail message;
     Message.recipients := recipients;
     Message.bodyContent := Message.bodyContent message;
     Message.bodyContentHTML := Message.bodyContentHTML message;
     Message.attachments := Message.attachments message;
     Message.messageDeliveryTime := Message.messageDeliveryTime message;
     Message.timestamp := Message.timestamp message;
     Message.fileName := Message.fileName message;
     Message._fileType := Message._fileType message;
     Message._rawBuffer := Message._rawBuffer message |}.

(** A recipient of the given type, known by one address only. *)
Definition recipient_of (type : jsstring) (address : jsstring) : Recipient.t :=
  {| Recipient.recipType := Some type;
     Recipient.smtpAddress := None;
     Recipient.email := None;
     Recipient.address := Some address;
     Recipient.name := None;
     Recipient.others := [] |}.

End Addressing.

Module Boundaries.

(** A decimal digit, a hexadecimal digit in lower case, or a hyphen. *)
Definition is_tail_char (c : N) : bool :=
  ((48 <=? c) && (c <=? 57)) || ((97 <=? c) && (c <=? 102)) || (c =? 45).

End Boundaries.

Module FileNames.

(** A code unit the file-name sanitizer keeps wherever it stands: not white
    space, not a control character, not one of the illegal characters and
    not a separator. *)
Definition is_kept (c : N) : bool :=
  negb (is_whitespace c) && negb (is_control c) && negb (Eml.is_illegal c)
  && negb (Eml.is_separator c).

(** The message reduced to the two properties its file name is derived
    from. *)
Definition named (fileName subject : option jsstring) : Message.t :=
  {| Message.subject := subject;
     Message.senderName := None;
     Message.senderEmail := None;
     Message.recipients := None;
     Message.bodyContent := None;
     Message.bodyContentHTML := None;
     Message.attachments := None;
     Message.messageDeliveryTime := None;
     Message.timestamp := None;
     Message.fileName := fileName;
     Message._fileType := None;
     Message._rawBuffer := None |}.

End FileNames.

Module Headers.

(** The name of a header field: what stands before its first colon. *)
Fixpoint field_name (h : jsstring) : jsstring :=
  match h with
  | [] => []
  | c :: t => if c =? 58 then [] else c :: field_name t
  end.

(** The fields of the header block, in the order the assembler emits
    them. *)
Definition header_order : list jsstring :=
  [js "Subject"; js "From"; js "To"; js "Cc"; js "Date"; js "MIME-Version"].

(** [a] is [b] with some of its elements left out. *)
Fixpoint subsequence (a b : list jsstring) : bool :=
  match b with
  | [] => is_empty_list a
  | y :: b' =>
      match a with
      | [] => true
      | x :: a' => if str_eqb x y then subsequence a' b' else subsequence a b'
      end
  end.

(** A header field with a value: a name of the header block, a colon, a
    space and a value that is not empty. *)
Definition has_value (h : jsstring) : Prop :=
  exists name value,
    h = name ++ js ": " ++ value /\ In name header_order /\ value <> [].

(** A message recorded with the given type that carries the given raw
    buffer. *)
Definition recorded (fileType : jsstring) (rawBuffer : list Byte.byte)
  : Message.t :=
  {| Message.subject := Some (js "Hello");
     Message.senderName := None;
     Message.senderEmail := None;
     Message.recipients := None;
     Message.bodyContent := Some (js "Hi");
     Message.bodyContentHTML := None;
     Message.attachments := None;
     Message.messageDeliveryTime := None;
     Message.timestamp := None;
     Message.fileName := Some (js "mail.eml");
     Message._fileType := Some fileType;
     Message._rawBuffer := Some rawBuffer |}.

(** A message with the given two bodies and nothing else. *)
Definition with_bodies (text html : option jsstring) : Message.t :=
  {| Message.subject := None;
     Message.senderName := None;
     Message.senderEmail := None;
     Message.recipients := None;
     Message.bodyContent := text;
     Message.bodyContentHTML := html;
     Message.attachments := None;
     Message.messageDeliveryTime := None;
     Message.timestamp := None;
     Message.fileName := None;
     Message._fileType := None;
     Message._rawBuffer := None |}.

End Headers.

(* ------------------------------------------------------------------ *)
(** ** The message handler (class [MessageHandler])

    The class keeps the list of loaded messages, the message on display
    and two [Set]s of message hashes, the pinned and the selected ones.  Its
    fields are the components of a [State]; a method takes the state and
    returns its result with the state it leaves, also when it raises.  A
    [Set] of strings is the list of its elements in insertion order.  Of
    the storage only the value kept under the key [pinnedMessages] is
    read and written.  The hash of a message is the MD5 digest of a
    template string over its sender, delivery time, subject and file name;
    the digest and the rendering of the template belong to the platform and
    are taken as one function. *)

Module Handler.

(** Parsed message data handed to [addMessage]: the properties the exporter
    reads and the three further date properties the handler tries. *)
Record MsgInfo : Type := mkMsgInfo {
  fields : Message.t;
  clientSubmitTime : option DateInput;
  creationTime : option DateInput;
  lastModificationTime : option DateInput
}.

(** A message of the list: the parsed data under its file name, with its
    hash and its timestamp, the time value of a valid [Date] or [null]. *)
Record Stored : Type := mkStored {
  msgInfo : MsgInfo;
  fileName : jsstring;
  messageHash : jsstring;
  timestamp : option Z
}.

(** The stored message as the exporter reads it. *)
Definition as_message (m : Stored) : Message.t :=
  let f := fields (msgInfo m) in
  {| Message.subject := Message.subject f;
     Message.senderName := Message.senderName f;
     Message.senderEmail := Message.senderEmail f;
     Message.recipients := Message.recipients f;
     Message.bodyContent := Message.bodyContent f;
     Message.bodyContentHTML := Message.bodyContentHTML f;
     Message.attachments := Message.attachments f;
     Message.messageDeliveryTime := Message.messageDeliveryTime f;
     Message.timestamp :=
       option_map (fun time => DateObject (Some time)) (timestamp m);
     Message.fileName := Some (fileName m);
     Message._fileType := Message._fileType f;
     Message._rawBuffer := Message._rawBuffer f |}.

(** *** [Set] of strings *)

Definition Set_has (s : list jsstring) (h : jsstring) : bool :=
  existsb (str_eqb h) s.

Definition Set_add (s : list jsstring) (h : jsstring) : list jsstring :=
  if Set_has s h then s else s ++ [h].

Definition Set_delete (s : list jsstring) (h : jsstring) : list jsstring :=
  filter (fun x => negb (str_eqb h x)) s.

(** [new Set(iterable)] *)
Definition new_Set (values : list jsstring) : list jsstring :=
  fold_left Set_add values [].

(** *** Array positions *)

(** A number used as an array position: an integer or [NaN], as [parseInt]
    returns them. *)
Inductive JsIndex : Type :=
| NaN
| Int (z : Z).

(** [array[index]]; [None] is [undefined]. *)
Definition element {A : Type} (l : list A) (index : JsIndex) : option A :=
  match index with
  | NaN => None
  | Int z =>
      if ((0 <=? z) && (z <? Z.of_nat (List.length l)))%Z
      then nth_error l (Z.to_nat z)
      else None
  end.

(** [array.splice(index, 1)]: the array that is left. *)
Definition splice_one {A : Type} (l : list A) (index : JsIndex) : list A :=
  let len := Z.of_nat (List.length l) in
  let relativeStart := match index with NaN => 0%Z | Int z => z end in
  let actualStart :=
    if (relativeStart <? 0)%Z then Z.max (len + relativeStart) 0
    else Z.min relativeStart len in
  let deleteCount := Z.min 1 (len - actualStart) in
  firstn (Z.to_nat actualStart) l
  ++ skipn (Z.to_nat (actualStart + deleteCount)) l.

(** *** State and outcomes *)

Record State : Type := mkState {
  messages : list Stored;
  currentMessage : option Stored;
  pinnedMessages : list jsstring;
  selectedMessages : list jsstring;
  (** what the storage holds under [pinnedMessages], if anything *)
  storage_pinnedMessages : option (list jsstring)
}.

Inductive HandlerError : Type :=
| TypeError.

Inductive Result (A : Type) : Type :=
| Done (a : A) (st : State)
| Raised (e : HandlerError) (st : State).
Arguments Done {A} a st.
Arguments Raised {A} e st.

(** [storage.get('pinnedMessages', [])] *)
Definition storage_get (stored : option (list jsstring)) : list jsstring :=
  match stored with
  | Some values => values
  | None => []
  end.

Definition constructor (stored : option (list jsstring)) : State :=
  {| messages := [];
     currentMessage := None;
     pinnedMessages := new_Set (storage_get stored);
     selectedMessages := new_Set [];
     storage_pinnedMessages := stored |}.

Section WithPlatform.

Variable host : Host.

(** [md5(hashInput)] for the template string of [addMessage]. *)
Variable md5_hashInput : MsgInfo -> jsstring -> jsstring.

(** [b.timestamp - a.timestamp] reads [null] as zero. *)
Definition time_of (m : Stored) : Z :=
  match timestamp m with
  | Some time => time
  | None => 0%Z
  end.

(** The loop over the date fields: the time value of the first one that is
    truthy and gives a valid [Date]. *)
Fixpoint first_valid_date (dateFields : list (option DateInput)) : option Z :=
  match dateFields with
  | [] => None
  | val :: rest =>
      match Eml.truthy_date val with
      | Some v =>
          match Eml.new_Date host v with
          | Some time => Some time
          | None => first_valid_date rest
          end
      | None => first_valid_date rest
      end
  end.

(** [Array.prototype.sort] is stable; with the comparator
    [(a, b) => b.timestamp - a.timestamp] an element moves behind those
    that follow it with a greater time and no further. *)
Fixpoint insert_by_time (m : Stored) (sorted : list Stored) : list Stored :=
  match sorted with
  | [] => [m]
  | x :: rest =>
      if (time_of m <? time_of x)%Z then x :: insert_by_time m rest
      else m :: sorted
  end.

Definition sort_by_time (l : list Stored) : list Stored :=
  fold_right insert_by_time [] l.

Definition sortMessages (st : State) : State :=
  {| messages := sort_by_time (messages st);
     currentMessage := currentMessage st;
     pinnedMessages := pinnedMessages st;
     selectedMessages := selectedMessages st;
     storage_pinnedMessages := storage_pinnedMessages st |}.

Definition addMessage (info : MsgInfo) (name : jsstring) (st : State)
  : Stored * State :=
  let hash := md5_hashInput info name in
  let dateFields :=
    [Message.messageDeliveryTime (fields info);
     clientSubmitTime info;
     creationTime info;
     lastModificationTime info] in
  let parsedDate := first_valid_date dateFields in
  let message :=
    {| msgInfo := info;
       fileName := name;
       messageHash := hash;
       timestamp := parsedDate |} in
  let st :=
    {| messages := message :: messages st;
       currentMessage := currentMessage st;
       pinnedMessages := pinnedMessages st;
       selectedMessages := selectedMessages st;
       storage_pinnedMessages := storage_pinnedMessages st |} in
  (message, sortMessages st).

Definition savePinnedMessages (st : State) : State :=
  {| messages := messages st;
     currentMessage := currentMessage st;
     pinnedMessages := pinnedMessages st;
     selectedMessages := selectedMessages st;
     storage_pinnedMessages := Some (pinnedMessages st) |}.

Definition isPinned (st : State) (m : Stored) : bool :=
  Set_has (pinnedMessages st) (messageHash m).

Definition isSelected (st : State) (m : Stored) : bool :=
  Set_has (selectedMessages st) (messageHash m).

(** [null] is returned when no message is left; reading the hash of a
    message that is not there raises, after the [splice]. *)
Definition deleteMessage (index : JsIndex) (st : State)
  : Result (option Stored) :=
  let found := element (messages st) index in
  let st :=
    {| messages := splice_one (messages st) index;
       currentMessage := currentMessage st;
       pinnedMessages := pinnedMessages st;
       selectedMessages := selectedMessages st;
       storage_pinnedMessages := storage_pinnedMessages st |} in
  match found with
  | None => Raised TypeError st
  | Some m =>
      let st :=
        savePinnedMessages
          {| messages := messages st;
             currentMessage := currentMessage st;
             pinnedMessages := Set_delete (pinnedMessages st) (messageHash m);
             selectedMessages := Set_delete (selectedMessages st) (messageHash m);
             storage_pinnedMessages := storage_pinnedMessages st |} in
      if is_empty_list (messages st) then Done None st
      else
        let nextIndex :=
          match index with
          | Int z => Int (Z.min z (Z.of_nat (List.length (messages st)) - 1))
          | NaN => NaN
          end in
        Done (element (messages st) nextIndex) st
  end.

Definition deleteMessagesByHash (hashes : list jsstring) (st : State)
  : nat * State :=
  let hashSet := new_Set hashes in
  if is_empty_list hashSet then (O, st)
  else
    let beforeCount := List.length (messages st) in
    let kept :=
      filter (fun m => negb (Set_has hashSet (messageHash m))) (messages st) in
    let st :=
      fold_left
        (fun st hash =>
           {| messages := messages st;
              currentMessage := currentMessage st;
              pinnedMessages := Set_delete (pinnedMessages st) hash;
              selectedMessages := Set_delete (selectedMessages st) hash;
              storage_pinnedMessages := storage_pinnedMessages st |})
        hashSet
        {| messages := kept;
           currentMessage := currentMessage st;
           pinnedMessages := pinnedMessages st;
           selectedMessages := selectedMessages st;
           storage_pinnedMessages := storage_pinnedMessages st |} in
    let st := savePinnedMessages st in
    ((beforeCount - List.length (messages st))%nat, st).

Definition togglePin (index : JsIndex) (st : State) : Result Stored :=
  match element (messages st) index with
  | None => Raised TypeError st
  | Some m =>
      let pinned :=
        if isPinned st m then Set_delete (pinnedMessages st) (messageHash m)
        else Set_add (pinnedMessages st) (messageHash m) in
      Done m
        (savePinnedMessages
           {| messages := messages st;
              currentMessage := currentMessage st;
              pinnedMessages := pinned;
              selectedMessages := selectedMessages st;
              storage_pinnedMessages := storage_pinnedMessages st |})
  end.

Definition setPinnedByHash (hashes : list jsstring) (pinned : bool)
  (st : State) : State :=
  let hashSet := new_Set hashes in
  savePinnedMessages
    (fold_left
       (fun st hash =>
          {| messages := messages st;
             currentMessage := currentMessage st;
             pinnedMessages :=
               if pinned then Set_add (pinnedMessages st) hash
               else Set_delete (pinnedMessages st) hash;
             selectedMessages := selectedMessages st;
             storage_pinnedMessages := storage_pinnedMessages st |})
       hashSet st).

(** [msgInfo] may be [null] or [undefined]; an empty hash is falsy. *)
Definition setSelected (m : option Stored) (selected : bool) (st : State)
  : State :=
  match opt_chain m (fun m => Some (messageHash m)) with
  | Some (c :: t) =>
      {| messages := messages st;
         currentMessage := currentMessage st;
         pinnedMessages := pinnedMessages st;
         selectedMessages :=
           if selected then Set_add (selectedMessages st) (c :: t)
           else Set_delete (selectedMessages st) (c :: t);
         storage_pinnedMessages := storage_pinnedMessages st |}
  | _ => st
  end.

Definition clearSelection (st : State) : State :=
  {| messages := messages st;
     currentMessage := currentMessage st;
     pinnedMessages := pinnedMessages st;
     selectedMessages := [];
     storage_pinnedMessages := storage_pinnedMessages st |}.

(** [array] is [None] when the argument is not an array. *)
Definition setSelectionForMessages (array : option (list (option Stored)))
  (selected : bool) (st : State) : State :=
  match array with
  | None => st
  | Some array => fold_left (fun st m => setSelected m selected st) array st
  end.

Definition getSelectedMessages (st : State) : list Stored :=
  filter (fun m => Set_has (selectedMessages st) (messageHash m)) (messages st).

Definition setCurrentMessage (m : option Stored) (st : State) : State :=
  {| messages := messages st;
     currentMessage := m;
     pinnedMessages := pinnedMessages st;
     selectedMessages := selectedMessages st;
     storage_pinnedMessages := storage_pinnedMessages st |}.

Definition getCurrentMessage (st : State) : option Stored := currentMessage st.

Definition getMessages (st : State) : list Stored := messages st.

End WithPlatform.

(** The list is in the order [sortMessages] gives: no message is followed
    by one with a greater time. *)
Fixpoint newest_first (l : list Stored) : bool :=
  match l with
  | [] => true
  | x :: rest =>
      forallb (fun y => (time_of y <=? time_of x)%Z) rest && newest_first rest
  end.

(** A stored message known by its hash and its time only, and a handler
    that holds the given messages and nothing else. *)
Definition stored_as (hash : jsstring) (time : option Z) : Stored :=
  {| msgInfo :=
       {| fields := Examples.empty_message;
          clientSubmitTime := None;
          creationTime := None;
          lastModificationTime := None |};
     fileName := js "mail.msg";
     messageHash := hash;
     timestamp := time |}.

Definition holding (l : list Stored) : State :=
  {| messages := l;
     currentMessage := None;
     pinnedMessages := [];
     selectedMessages := [];
     storage_pinnedMessages := None |}.

(** The hashes [setSelectionForMessages] acts upon: those of the elements
    that are messages with a hash that is not empty. *)
Definition selectable (array : list (option Stored)) : list jsstring :=
  flat_map
    (fun m =>
       match m with
       | Some m => if is_empty (messageHash m) then [] else [messageHash m]
       | None => []
       end)
    array.

(** What holds of a handler between two calls: the two sets hold no hash
    twice, the empty hash is not selected, the list is in order, and the
    storage holds the hashes of the pinned set. *)
Definition well_kept (st : State) : Prop :=
  NoDup (pinnedMessages st)
  /\ NoDup (selectedMessages st)
  /\ ~ In [] (selectedMessages st)
  /\ newest_first (messages st) = true
  /\ (forall h, In h (pinnedMessages st)
                <-> In h (storage_get (storage_pinnedMessages st))).

(** A call of a method that changes the state. *)
Inductive Call : Type :=
| call_addMessage (info : MsgInfo) (name : jsstring)
| call_sortMessages
| call_deleteMessage (index : JsIndex)
| call_deleteMessagesByHash (hashes : list jsstring)
| call_togglePin (index : JsIndex)
| call_setPinnedByHash (hashes : list jsstring) (pinned : bool)
| call_setSelected (m : option Stored) (selected : bool)
| call_clearSelection
| call_setSelectionForMessages (array : option (list (option Stored)))
    (selected : bool)
| call_setCurrentMessage (m : option Stored).

Definition state_of {A : Type} (r : Result A) : State :=
  match r with
  | Done _ st => st
  | Raised _ st => st
  end.

(** The state a call leaves, whether it returns or raises. *)
Definition after (host : Host) (md5_hashInput : MsgInfo -> jsstring -> jsstring)
  (st : State) (call : Call) : State :=
  match call with
  | call_addMessage info name => snd (addMessage host md5_hashInput info name st)
  | call_sortMessages => sortMessages st
  | call_deleteMessage index => state_of (deleteMessage index st)
  | call_deleteMessagesByHash hashes => snd (deleteMessagesByHash hashes st)
  | call_togglePin index => state_of (togglePin index st)
  | call_setPinnedByHash hashes pinned => setPinnedByHash hashes pinned st
  | call_setSelected m selected => setSelected m selected st
  | call_clearSelection => clearSelection st
  | call_setSelectionForMessages array selected =>
      setSelectionForMessages array selected st
  | call_setCurrentMessage m => setCurrentMessage m st
  end.

(** A handler after a sequence of calls on a new instance. *)
Definition run (host : Host) (md5_hashInput : MsgInfo -> jsstring -> jsstring)
  (stored : option (list jsstring)) (calls : list Call) : State :=
  fold_left (after host md5_hashInput) calls (constructor stored).

End Handler.

(* ================================================================== *)
(** * Properties *)

(** Linear arithmetic over [N] with division and remainder by constants. *)
Ltac nlia := zify; Z.to_euclidean_division_equations; lia.

(* ------------------------------------------------------------------ *)
(** ** Base64 *)

Module Base64Facts.
Import Base64.

Lemma list_ind3 {A : Type} (P : list A -> Prop) :
  P [] ->
  (forall a, P [a]) ->
  (forall a b, P [a; b]) ->
  (forall a b c l, P l -> P (a :: b :: c :: l)) ->
  forall l, P l.
Proof.
  intros H0 H1 H2 H3.
  fix IH 1.
  intros [|a [|b [|c l]]].
  - exact H0.
  - apply H1.
  - apply H2.
  - apply H3. apply IH.
Qed.

(** A boolean property checked on 0..63 holds below 64. *)
Lemma below_64 (P : N -> bool) :
  forallb P (List.map N.of_nat (seq 0 64)) = true ->
  forall v, v < 64 -> P v = true.
Proof.
  intros H v Hv.
  rewrite forallb_forall in H. apply H.
  rewrite <- (N2Nat.id v). apply in_map. apply in_seq. lia.
Qed.

Lemma value_of_char_of v : v < 64 -> value_of (char_of v) = Some v.
Proof.
  intros Hv.
  pose proof (below_64
    (fun v => match value_of (char_of v) with
              | Some u => u =? v
              | None => false
              end)) as H.
  specialize (H eq_refl v Hv). cbv beta in H.
  destruct (value_of (char_of v)) as [u|]; [|discriminate].
  apply N.eqb_eq in H. now subst.
Qed.

Lemma char_of_not_pad v : v < 64 -> (char_of v =? PAD) = false.
Proof.
  intros Hv.
  apply (below_64 (fun v => negb (char_of v =? PAD)) eq_refl) in Hv.
  now apply negb_true_iff in Hv.
Qed.

Lemma char_of_base64 v : is_base64_char (char_of v) = true.
Proof.
  destruct (N.lt_ge_cases v 64) as [Hv|Hv].
  - unfold is_base64_char. now rewrite value_of_char_of.
  - unfold char_of. rewrite nth_overflow; [reflexivity|].
    change (List.length alphabet) with 64%nat. lia.
Qed.

Lemma encode_base64_chars octets :
  Forall (fun c => is_base64_char c = true) (encode octets).
Proof.
  induction octets as [|a|a b|a b c l IH] using list_ind3; cbn [encode].
  - constructor.
  - repeat constructor; auto using char_of_base64.
  - repeat constructor; auto using char_of_base64.
  - repeat (constructor; [apply char_of_base64|]). exact IH.
Qed.

(** Decoding what [encode] produced gives the octets back. *)
Lemma decode_encode octets :
  Forall (fun b => b < 256) octets -> decode (encode octets) = Some octets.
Proof.
  induction octets as [|a|a b|a b c l IH] using list_ind3; intros Hb.
  - reflexivity.
  - inversion_clear Hb as [|? ? Ha _].
    cbn [encode decode].
    rewrite !value_of_char_of by nlia.
    rewrite N.eqb_refl. do 2 f_equal. nlia.
  - inversion_clear Hb as [|? ? Ha Hb']. inversion_clear Hb' as [|? ? Hb _].
    cbn [encode decode].
    rewrite !value_of_char_of by nlia.
    rewrite N.eqb_refl, char_of_not_pad by nlia.
    do 2 f_equal; [nlia|f_equal; nlia].
  - inversion_clear Hb as [|? ? Ha Hb']. inversion_clear Hb' as [|? ? Hb Hb''].
    inversion_clear Hb'' as [|? ? Hc Hl].
    cbn [encode decode].
    rewrite !value_of_char_of by nlia.
    rewrite char_of_not_pad by nlia.
    rewrite (IH Hl).
    f_equal. f_equal; [nlia|]. f_equal; [nlia|]. f_equal. nlia.
Qed.

End Base64Facts.

(* ------------------------------------------------------------------ *)
(** ** UTF-8 *)

Module Utf8Facts.
Import Utf8 Props.

Lemma uint8_bound v : uint8 v < 256.
Proof. unfold uint8. nlia. Qed.

Lemma encode_scalar_octets cp : Forall (fun b => b < 256) (encode_scalar cp).
Proof.
  unfold encode_scalar.
  destruct (cp <? 0x80); [|destruct (cp <? 0x800); [|destruct (cp <? 0x10000)]];
    repeat constructor; apply uint8_bound.
Qed.

(** [TextEncoder] produces octets. *)
Lemma TextEncoder_encode_octets text :
  Forall (fun b => b < 256) (TextEncoder_encode text).
Proof.
  unfold TextEncoder_encode.
  induction (scalar_values text) as [|cp l IH]; cbn [flat_map].
  - constructor.
  - apply Forall_app. split; [apply encode_scalar_octets|exact IH].
Qed.

Ltac settle_test :=
  match goal with
  | |- context [if ?c then _ else _] =>
      first [ replace c with true by (symmetry; nlia)
            | replace c with false by (symmetry; nlia) ]
  end.

Lemma decode_encode_scalar cp rest :
  is_scalar cp = true ->
  decode_scalars (encode_scalar cp ++ rest)
  = option_map (cons cp) (decode_scalars rest).
Proof.
  unfold is_scalar, is_surrogate. intros Hcp.
  unfold encode_scalar, uint8.
  destruct (N.ltb_spec cp 0x80) as [H1|H1];
    [|destruct (N.ltb_spec cp 0x800) as [H2|H2];
      [|destruct (N.ltb_spec cp 0x10000) as [H3|H3]]].
  - rewrite N.mod_small by lia.
    cbn [app decode_scalars]. now settle_test.
  - replace ((0xC0 + cp / 64) mod 256) with (0xC0 + cp / 64) by nlia.
    replace ((0x80 + cp mod 64) mod 256) with (0x80 + cp mod 64) by nlia.
    cbn [app decode_scalars]. unfold is_continuation.
    do 3 settle_test. do 2 f_equal. nlia.
  - replace ((0xE0 + cp / 4096) mod 256) with (0xE0 + cp / 4096) by nlia.
    replace ((0x80 + (cp / 64) mod 64) mod 256) with (0x80 + (cp / 64) mod 64)
      by nlia.
    replace ((0x80 + cp mod 64) mod 256) with (0x80 + cp mod 64) by nlia.
    cbn [app decode_scalars]. unfold is_continuation, is_surrogate.
    do 4 settle_test. do 2 f_equal. nlia.
  - replace ((0xF0 + cp / 262144) mod 256) with (0xF0 + cp / 262144) by nlia.
    replace ((0x80 + (cp / 4096) mod 64) mod 256)
      with (0x80 + (cp / 4096) mod 64) by nlia.
    replace ((0x80 + (cp / 64) mod 64) mod 256) with (0x80 + (cp / 64) mod 64)
      by nlia.
    replace ((0x80 + cp mod 64) mod 256) with (0x80 + cp mod 64) by nlia.
    cbn [app decode_scalars]. unfold is_continuation.
    do 5 settle_test. do 2 f_equal. nlia.
Qed.

Lemma decode_scalars_encode cps :
  forallb is_scalar cps = true ->
  decode_scalars (flat_map encode_scalar cps) = Some cps.
Proof.
  induction cps as [|cp l IH]; cbn [flat_map forallb]; intros H.
  - reflexivity.
  - apply andb_true_iff in H as [Hcp Hl].
    rewrite decode_encode_scalar by exact Hcp.
    now rewrite (IH Hl).
Qed.

Lemma scalar_values_well_formed n : forall s,
  (List.length s <= n)%nat ->
  well_formed s = true ->
  forallb is_scalar (scalar_values s) = true
  /\ flat_map utf16_units (scalar_values s) = s.
Proof.
  induction n as [|n IH]; intros s Hlen Hwf.
  - destruct s; [now split|cbn in Hlen; lia].
  - destruct s as [|c t]; [now split|].
    cbn [well_formed scalar_values] in *.
    destruct (is_high_surrogate c) eqn:Hhi.
    + destruct t as [|d t']; [discriminate|].
      apply andb_true_iff in Hwf as [Hlo Hwf].
      rewrite Hlo.
      destruct (IH t') as [Hs Hr]; [cbn in Hlen; lia|exact Hwf|].
      unfold is_high_surrogate, is_low_surrogate in Hhi, Hlo.
      cbn [forallb flat_map]. rewrite Hs, Hr. split.
      * unfold is_scalar, is_surrogate. nlia.
      * unfold utf16_units.
        replace (_ <? 0x10000) with false by (symmetry; nlia).
        cbn [app]. f_equal; [nlia|f_equal; nlia].
    + apply andb_true_iff in Hwf as [Hwf Ht].
      apply andb_true_iff in Hwf as [Hc Hlo].
      apply negb_true_iff in Hlo. rewrite Hlo.
      destruct (IH t) as [Hs Hr]; [cbn in Hlen; lia|exact Ht|].
      unfold is_high_surrogate, is_low_surrogate in Hhi, Hlo.
      cbn [forallb flat_map]. rewrite Hs, Hr. split.
      * unfold is_scalar, is_surrogate. nlia.
      * unfold utf16_units. rewrite Hc. reflexivity.
Qed.

(** Decoding what [TextEncoder] produced gives a well-formed string back. *)
Lemma decode_TextEncoder s :
  well_formed s = true -> Utf8.decode (TextEncoder_encode s) = Some s.
Proof.
  intros Hwf.
  destruct (scalar_values_well_formed (List.length s) s (le_n _) Hwf) as [Hs Hr].
  unfold Utf8.decode, TextEncoder_encode.
  rewrite decode_scalars_encode by exact Hs.
  cbn [option_map]. now rewrite Hr.
Qed.

End Utf8Facts.

(* ------------------------------------------------------------------ *)
(** ** Strings *)

Module StringFacts.

Lemma is_empty_true s : is_empty s = true <-> s = [].
Proof. destruct s; split; intros H; try reflexivity; discriminate. Qed.

Lemma is_empty_false s : is_empty s = false <-> s <> [].
Proof. destruct s; split; intros H; try reflexivity; try discriminate; congruence. Qed.

Lemma test_class_false p s :
  test_class p s = false <-> (forall c, In c s -> p c = false).
Proof.
  unfold test_class. induction s as [|x s IH]; cbn [existsb].
  - split; [intros _ c []|reflexivity].
  - rewrite orb_false_iff, IH. split.
    + intros [Hx Hs] c [<-|Hc]; auto.
    + intros H. split; [|intros c Hc]; apply H; cbn; auto.
Qed.

(** *** [trim] *)

Lemma trimStart_in c s : In c (trimStart s) -> In c s.
Proof.
  induction s as [|x s IH]; cbn [trimStart]; [auto|].
  destruct (is_whitespace x); [right; auto|auto].
Qed.

Lemma trim_in c s : In c (trim s) -> In c s.
Proof.
  unfold trim, trimEnd. intros H.
  apply in_rev in H. apply trimStart_in in H. apply in_rev in H.
  now apply trimStart_in.
Qed.

Lemma trimStart_all_white s :
  trimStart s = [] <-> forallb is_whitespace s = true.
Proof.
  induction s as [|x s IH]; cbn [trimStart forallb]; [now split|].
  destruct (is_whitespace x); cbn [andb]; [exact IH|].
  split; discriminate.
Qed.

Lemma trimStart_head c t s :
  trimStart s = c :: t -> is_whitespace c = false.
Proof.
  induction s as [|x s IH]; cbn [trimStart]; [discriminate|].
  destruct (is_whitespace x) eqn:Hx; [exact IH|].
  intros H. injection H as -> _. exact Hx.
Qed.

Lemma forallb_rev_true (p : N -> bool) s :
  forallb p (rev s) = forallb p s.
Proof.
  induction s as [|x s IH]; [reflexivity|].
  cbn [rev forallb]. rewrite forallb_app, IH. cbn [forallb].
  rewrite andb_true_r. apply andb_comm.
Qed.

(** A string trims to nothing exactly when it is all white space. *)
Lemma trim_empty s : trim s = [] <-> forallb is_whitespace s = true.
Proof.
  unfold trim, trimEnd. split.
  - intros H.
    assert (Hr : trimStart (rev (trimStart s)) = []).
    { destruct (trimStart (rev (trimStart s))); [reflexivity|].
      cbn [rev] in H. now apply app_eq_nil in H as [_ H]. }
    apply trimStart_all_white in Hr. rewrite forallb_rev_true in Hr.
    destruct (trimStart s) as [|c t] eqn:Hs.
    + now apply trimStart_all_white.
    + apply trimStart_head in Hs. cbn [forallb] in Hr. now rewrite Hs in Hr.
  - intros H. apply trimStart_all_white in H. now rewrite H.
Qed.

Lemma trimStart_idempotent s : trimStart (trimStart s) = trimStart s.
Proof.
  destruct (trimStart s) as [|c t] eqn:H; [reflexivity|].
  apply trimStart_head in H. cbn [trimStart]. now rewrite H.
Qed.

Lemma trimStart_app pre c t :
  is_whitespace c = false ->
  trimStart (pre ++ c :: t) = trimStart pre ++ c :: t.
Proof.
  intros Hc. induction pre as [|x pre IH]; cbn [app trimStart].
  - now rewrite Hc.
  - now destruct (is_whitespace x).
Qed.

Lemma trimEnd_last s c :
  is_whitespace c = false -> trimEnd (s ++ [c]) = s ++ [c].
Proof.
  intros Hc. unfold trimEnd. rewrite rev_app_distr. cbn [rev app trimStart].
  rewrite Hc. cbn [rev]. now rewrite rev_involutive.
Qed.

(** Trimming what is trimmed changes nothing. *)
Lemma trim_idempotent s : trim (trim s) = trim s.
Proof.
  unfold trim at 2 3. unfold trimEnd.
  destruct (trimStart s) as [|c t] eqn:Hs; [reflexivity|].
  apply trimStart_head in Hs. cbn [rev].
  rewrite (trimStart_app (rev t) c []) by exact Hs.
  rewrite rev_app_distr. cbn [rev app].
  unfold trim, trimEnd. cbn [trimStart]. rewrite Hs.
  change (c :: rev (trimStart (rev t))) with ([c] ++ rev (trimStart (rev t))).
  rewrite rev_app_distr, rev_involutive. cbn [rev app].
  rewrite (trimStart_app (trimStart (rev t)) c []) by exact Hs.
  rewrite trimStart_idempotent, rev_app_distr. reflexivity.
Qed.

(** *** Replacements *)

Lemma replace_class_in p r s c :
  In c (replace_class p r s) -> In c r \/ (In c s /\ p c = false).
Proof.
  unfold replace_class. induction s as [|x s IH]; cbn [flat_map]; [intros []|].
  intros H. apply in_app_or in H as [H|H].
  - destruct (p x) eqn:Hx; [now left|].
    destruct H as [<-|[]]. right. split; [now left|exact Hx].
  - destruct (IH H) as [Hr|[Hs Hp]]; [now left|right; split; [now right|exact Hp]].
Qed.

Lemma replace_runs_from_in b p r s c :
  In c (replace_runs_from b p r s) -> In c r \/ (In c s /\ p c = false).
Proof.
  revert b. induction s as [|x s IH]; intros b; cbn [replace_runs_from];
    [intros []|].
  destruct (p x) eqn:Hx; intros H.
  - apply in_app_or in H as [H|H].
    + destruct b; [destruct H|now left].
    + destruct (IH _ H) as [Hr|[Hs Hp]]; [now left|right; split; [now right|exact Hp]].
  - destruct H as [<-|H]; [right; split; [now left|exact Hx]|].
    destruct (IH _ H) as [Hr|[Hs Hp]]; [now left|right; split; [now right|exact Hp]].
Qed.

(** A run replacement finds nothing to do where the class does not occur. *)
Lemma replace_runs_from_none b p r s :
  (forall c, In c s -> p c = false) -> replace_runs_from b p r s = s.
Proof.
  revert b. induction s as [|x s IH]; intros b H; cbn [replace_runs_from];
    [reflexivity|].
  rewrite (H x) by now left. f_equal. apply IH. intros c Hc. apply H. now right.
Qed.

Lemma replace_class_map (p : N -> bool) (r : N) s :
  replace_class p [r] s = List.map (fun c => if p c then r else c) s.
Proof.
  unfold replace_class. induction s as [|x s IH]; cbn [flat_map List.map];
    [reflexivity|].
  rewrite IH. now destruct (p x).
Qed.

(** *** Prefixes and substrings *)

Lemma startsWith_in s : forall pat c,
  startsWith s pat = true -> In c pat -> In c s.
Proof.
  induction s as [|x s IH]; intros [|y pat] c H Hc; try (now destruct Hc);
    cbn [startsWith] in H; try discriminate.
  apply andb_true_iff in H as [Hx Hs]. apply N.eqb_eq in Hx. subst y.
  destruct Hc as [<-|Hc]; [now left|right; eauto].
Qed.

Lemma contains_in pat s c :
  contains pat s = true -> In c pat -> In c s.
Proof.
  induction s as [|x s IH]; cbn [contains].
  - intros H Hc. apply is_empty_true in H. subst. destruct Hc.
  - intros H Hc. apply orb_true_iff in H as [H|H].
    + eapply startsWith_in; eauto.
    + right. auto.
Qed.

(** *** [join] *)

Lemma join_cons sep p rest :
  rest <> [] -> join sep (p :: rest) = p ++ sep ++ join sep rest.
Proof. destruct rest; [congruence|reflexivity]. Qed.


Lemma join_in sep parts c :
  In c (join sep parts) -> In c sep \/ exists p, In p parts /\ In c p.
Proof.
  induction parts as [|p rest IH]; [intros []|].
  destruct rest as [|q rest].
  - cbn [join]. intros H. right. exists p. split; [now left|exact H].
  - rewrite join_cons by discriminate. intros H.
    apply in_app_or in H as [H|H]; [right; exists p; split; [now left|exact H]|].
    apply in_app_or in H as [H|H]; [now left|].
    destruct (IH H) as [Hs|[p' [Hp Hc]]]; [now left|].
    right. exists p'. split; [now right|exact Hc].
Qed.

(** *** [slices] *)

Lemma slices_concat fuel width : forall s,
  (0 < width)%nat -> (List.length s <= fuel)%nat ->
  List.concat (slices fuel width s) = s.
Proof.
  induction fuel as [|fuel IH]; intros s Hw Hlen.
  - destruct s; [reflexivity|cbn in Hlen; lia].
  - destruct s as [|c t]; [reflexivity|].
    cbn [slices List.concat]. rewrite IH; [apply firstn_skipn|exact Hw|].
    rewrite length_skipn. cbn [List.length] in *. lia.
Qed.

Lemma slices_width fuel width : forall s,
  Forall (fun l => (List.length l <= width)%nat) (slices fuel width s).
Proof.
  induction fuel as [|fuel IH]; intros s; cbn [slices]; [constructor|].
  destruct s as [|c t]; [constructor|].
  constructor; [|apply IH]. rewrite length_firstn. lia.
Qed.

Lemma slices_in fuel width : forall s l c,
  In l (slices fuel width s) -> In c l -> In c s.
Proof.
  induction fuel as [|fuel IH]; intros s l c; cbn [slices]; [intros []|].
  destruct s as [|x t]; [intros []|].
  intros [<-|Hl] Hc.
  - rewrite <- (firstn_skipn width (x :: t)). apply in_or_app. now left.
  - rewrite <- (firstn_skipn width (x :: t)). apply in_or_app. right. eauto.
Qed.

End StringFacts.

(* ------------------------------------------------------------------ *)
(** ** Sanitizers *)

Module SanitizerFacts.
Import Eml Props StringFacts.

Lemma in_singleton (c r : N) : In c [r] -> c = r.
Proof. intros [H|[]]; now symmetry. Qed.

Lemma sanitizeFilename_chain_chars filename c :
  In c (sanitizeFilename_chain filename) ->
  is_control c = false /\ is_illegal c = false /\ is_separator c = false.
Proof.
  unfold sanitizeFilename_chain. intros H.
  apply trim_in in H.
  apply replace_class_in in H as [H|[H Hsep]];
    [apply in_singleton in H; now subst|].
  apply replace_class_in in H as [H|[H Hill]];
    [apply in_singleton in H; now subst|].
  apply replace_class_in in H as [[]|[_ Hctl]].
  auto.
Qed.

Lemma sanitizeFilename_cases filename :
  (sanitizeFilename_chain filename <> []
   /\ sanitizeFilename filename = sanitizeFilename_chain filename)
  \/ (sanitizeFilename_chain filename = []
      /\ sanitizeFilename filename = js "message.eml").
Proof.
  unfold sanitizeFilename.
  destruct (sanitizeFilename_chain filename) as [|c t]; [now right|left].
  split; [discriminate|reflexivity].
Qed.

Lemma sanitizeFilename_chars filename c :
  In c (sanitizeFilename filename) ->
  is_control c = false /\ is_illegal c = false /\ is_separator c = false.
Proof.
  destruct (sanitizeFilename_cases filename) as [[_ ->]|[_ ->]].
  - apply sanitizeFilename_chain_chars.
  - intros H.
    assert (Hall : forallb
              (fun c => negb (is_control c) && negb (is_illegal c)
                        && negb (is_separator c)) (js "message.eml") = true)
      by reflexivity.
    rewrite forallb_forall in Hall. specialize (Hall c H).
    apply andb_true_iff in Hall as [Hall H3].
    apply andb_true_iff in Hall as [H1 H2].
    now rewrite negb_true_iff in H1, H2, H3.
Qed.

Lemma sanitizeFilename_not_nil filename : sanitizeFilename filename <> [].
Proof.
  destruct (sanitizeFilename_cases filename) as [[H ->]|[_ ->]];
    [exact H|discriminate].
Qed.

Lemma drive_letter_colon s :
  prefix_matches drive_letter s = true -> In 58 s.
Proof.
  unfold drive_letter.
  destruct s as [|a [|b t]]; cbn [prefix_matches]; try discriminate.
  - now rewrite andb_false_r.
  - rewrite andb_true_r. intros H. apply andb_true_iff in H as [_ H].
    apply N.eqb_eq in H. subst b. right. now left.
Qed.

(** C6.  The result of the filename sanitizer holds no [../] and no
    dot-dot-backslash sequence, no drive-letter prefix, no control
    character (U+0000 to U+001F, U+007F), none of the characters the
    sanitizer treats as illegal and no slash or backslash; it is never
    empty, and it is [message.eml] whenever the chain of replacements
    leaves nothing, as it does for an absent input. *)
Theorem sanitizeFilename_safe (filename : option jsstring) :
  let name := sanitizeFilename filename in
  contains (js "../") name = false
  /\ contains (js "..\") name = false
  /\ prefix_matches drive_letter name = false
  /\ test_class is_control name = false
  /\ test_class is_illegal name = false
  /\ test_class is_separator name = false
  /\ name <> []
  /\ ((sanitizeFilename_chain filename <> []
       /\ name = sanitizeFilename_chain filename)
      \/ (sanitizeFilename_chain filename = [] /\ name = js "message.eml"))
  /\ sanitizeFilename None = js "message.eml"
  /\ sanitizeFilename (Some []) = js "message.eml".
Proof.
  intros name.
  pose proof (sanitizeFilename_chars filename) as Hc. fold name in Hc.
  repeat split.
  - destruct (contains (js "../") name) eqn:H; [|reflexivity].
    apply (contains_in _ _ SLASH) in H; [|cbn; auto].
    now apply Hc in H as (_ & _ & H).
  - destruct (contains (js "..\") name) eqn:H; [|reflexivity].
    apply (contains_in _ _ BACKSLASH) in H; [|cbn; auto].
    now apply Hc in H as (_ & _ & H).
  - destruct (prefix_matches drive_letter name) eqn:H; [|reflexivity].
    apply drive_letter_colon in H. now apply Hc in H as (_ & H & _).
  - apply test_class_false. intros c H. now apply Hc in H.
  - apply test_class_false. intros c H. now apply Hc in H.
  - apply test_class_false. intros c H. now apply Hc in H.
  - apply sanitizeFilename_not_nil.
  - apply sanitizeFilename_cases.
Qed.

Lemma sanitizeHeaderValue_chars value c :
  In c (sanitizeHeaderValue value) -> is_control c = false.
Proof.
  unfold sanitizeHeaderValue. intros H. apply trim_in in H.
  apply replace_runs_from_in in H as [H|[H _]];
    [apply in_singleton in H; now subst|].
  apply replace_class_in in H as [H|[_ H]];
    [apply in_singleton in H; now subst|exact H].
Qed.

Lemma control_free_single_line s :
  test_class is_control s = false -> single_line s = true.
Proof.
  rewrite test_class_false. intros H. apply forallb_forall. intros c Hc.
  apply H in Hc. unfold not_newline, is_cr_lf, is_control, CR, LF in *. lia.
Qed.

Lemma sanitizeHeaderValue_single_line value :
  single_line (sanitizeHeaderValue value) = true.
Proof.
  apply control_free_single_line. apply test_class_false.
  apply sanitizeHeaderValue_chars.
Qed.

(** The first replacement leaves no CR and no LF for the second one, which
    never matches: each control character, CR and LF among them, becomes
    one space of its own. *)
Lemma sanitizeHeaderValue_each_control (value : option jsstring) :
  sanitizeHeaderValue value
  = trim (List.map (fun c => if is_control c then SPACE else c)
            (js_or value [])).
Proof.
  unfold sanitizeHeaderValue, replace_runs.
  rewrite replace_runs_from_none; [now rewrite replace_class_map|].
  intros c H. apply replace_class_in in H as [H|[_ H]].
  - apply in_singleton in H. now subst.
  - unfold is_cr_lf, is_control, CR, LF in *. lia.
Qed.

(** C8, as the code has it.  For every input, the sanitized header value
    is the input with a space in the place of each control character
    (U+0000 to U+001F, U+007F), CR and LF among them, one space for each
    character, and then trimmed: it is a trimmed text that holds no CR, no
    LF and no other control character, and so one line. *)
Theorem sanitizeHeaderValue_spaces (value : option jsstring) :
  sanitizeHeaderValue value
  = trim (List.map (fun c => if is_control c then SPACE else c)
            (js_or value []))
  /\ trim (sanitizeHeaderValue value) = sanitizeHeaderValue value
  /\ test_class is_control (sanitizeHeaderValue value) = false
  /\ test_class is_cr_lf (sanitizeHeaderValue value) = false
  /\ single_line (sanitizeHeaderValue value) = true.
Proof.
  split; [apply sanitizeHeaderValue_each_control|].
  split; [unfold sanitizeHeaderValue; apply trim_idempotent|].
  split; [apply test_class_false, sanitizeHeaderValue_chars|].
  split; [|apply sanitizeHeaderValue_single_line].
  apply test_class_false. intros c Hc.
  apply sanitizeHeaderValue_chars in Hc.
  unfold is_cr_lf, is_control, CR, LF in *. lia.
Qed.

(** C8, counterexample.  The run of the two control characters U+0001 and
    U+0002 between [a] and [b] becomes two spaces, not the single space the
    claim promises for a run. *)
Lemma sanitizeHeaderValue_run_two_spaces :
  sanitizeHeaderValue (Some (js "a" ++ [1; 2] ++ js "b")) = js "a  b"
  /\ sanitizeHeaderValue_as_stated (Some (js "a" ++ [1; 2] ++ js "b"))
     = js "a b"
  /\ sanitizeHeaderValue (Some (js "a" ++ [1; 2] ++ js "b"))
     <> sanitizeHeaderValue_as_stated (Some (js "a" ++ [1; 2] ++ js "b")).
Proof. repeat split. discriminate. Qed.

(** C10.  An attachment with content whose [contentId] is present but
    sanitizes to the empty string is emitted with exactly three header
    lines, [Content-Type], [Content-Transfer-Encoding] and
    [Content-Disposition: inline]: none of them is a [Content-ID] header. *)
Theorem buildAttachmentPart_inline_without_content_id
  (attachment : Attachment.t) (cid : jsstring) :
  Attachment.contentId attachment = Some cid ->
  cid <> [] ->
  replace_class is_angle [] (sanitizeHeaderValue (Some cid)) = [] ->
  extractBase64 (js_or (Attachment.contentBase64 attachment) []) <> [] ->
  let mimeType :=
    js_or (Attachment.attachMimeTag attachment) (js "application/octet-stream") in
  let name :=
    sanitizeFilename
      (Some (js_or (Attachment.fileName attachment) (js "attachment"))) in
  let headers :=
    [js "Content-Type: " ++ mimeType ++ js "; name=" ++ [DQUOTE] ++ name
       ++ [DQUOTE];
     js "Content-Transfer-Encoding: base64";
     js "Content-Disposition: inline; filename=" ++ [DQUOTE] ++ name
       ++ [DQUOTE]] in
  buildAttachmentPart (Some attachment)
  = Some (headers
            ++ [[];
                wrapBase64
                  (extractBase64
                     (js_or (Attachment.contentBase64 attachment) []))])
  /\ forallb (fun h => negb (startsWith h (js "Content-ID:"))) headers = true.
Proof.
  intros Hcid Hne Hclean Hpayload mimeType name headers.
  split; [|reflexivity].
  unfold buildAttachmentPart. cbn [opt_chain].
  apply is_empty_false in Hpayload. rewrite Hpayload.
  rewrite Hcid.
  destruct cid as [|c t]; [congruence|]. cbn [js_or is_empty negb].
  rewrite Hclean. reflexivity.
Qed.

(** C10, witness: a content id made of angle brackets only. *)
Lemma buildAttachmentPart_inline_without_content_id_witness :
  buildAttachmentPart
    (Some {| Attachment.attachMimeTag := Some (js "image/png");
             Attachment.fileName := Some (js "logo.png");
             Attachment.contentBase64 := Some (js "QUJD");
             Attachment.contentId := Some (js "<>") |})
  = Some [js "Content-Type: image/png; name=" ++ [DQUOTE] ++ js "logo.png"
            ++ [DQUOTE];
          js "Content-Transfer-Encoding: base64";
          js "Content-Disposition: inline; filename=" ++ [DQUOTE]
            ++ js "logo.png" ++ [DQUOTE];
          [];
          js "QUJD"].
Proof.
  refine (proj1
    (buildAttachmentPart_inline_without_content_id
       {| Attachment.attachMimeTag := Some (js "image/png");
          Attachment.fileName := Some (js "logo.png");
          Attachment.contentBase64 := Some (js "QUJD");
          Attachment.contentId := Some (js "<>") |}
       (js "<>") _ _ _ _)).
  - reflexivity.
  - discriminate.
  - reflexivity.
  - discriminate.
Defined.

End SanitizerFacts.

(* ------------------------------------------------------------------ *)
(** ** The codec of the exporter *)

Module CodecFacts.
Import Eml Props StringFacts Base64 Utf8 Base64Facts Utf8Facts.

Lemma fold_left_append {A : Type} (f : A -> jsstring) (l : list A) :
  forall init,
    fold_left (fun acc x => acc ++ f x) l init
    = init ++ List.concat (List.map f l).
Proof.
  induction l as [|x l IH]; intros init; cbn [fold_left List.map List.concat].
  - now rewrite app_nil_r.
  - rewrite IH. now rewrite app_assoc.
Qed.

Lemma fromCharCode_octets codes :
  (forall c, In c codes -> c < 256) -> fromCharCode codes = codes.
Proof.
  intros H. unfold fromCharCode.
  rewrite <- (map_id codes) at 2. apply map_ext_in.
  intros c Hc. apply H in Hc. apply N.mod_small. lia.
Qed.

Lemma chunkSize_positive : (0 < chunkSize)%nat.
Proof. unfold chunkSize. lia. Qed.

(** The chunked loop of [base64EncodeBytes] rebuilds the octets, one code
    unit for each. *)
Lemma binary_of_octets bytes :
  Forall (fun b => b < 256) bytes ->
  fold_left (fun acc chunk => acc ++ fromCharCode chunk)
    (slices (List.length bytes) chunkSize bytes) []
  = bytes.
Proof.
  intros Hb. rewrite Forall_forall in Hb.
  rewrite fold_left_append. cbn [app].
  rewrite (map_ext_in _ (fun chunk => chunk)).
  - rewrite map_id. apply slices_concat; [apply chunkSize_positive|lia].
  - intros chunk Hchunk. apply fromCharCode_octets.
    intros c Hc. apply Hb. eapply slices_in; eauto.
Qed.

(** On octets [base64EncodeBytes] returns their base64 text and does not
    raise. *)
Lemma base64EncodeBytes_returns bytes w :
  Forall (fun b => b < 256) bytes ->
  base64EncodeBytes bytes w = Returns (Base64.encode bytes) w.
Proof.
  intros Hb. unfold base64EncodeBytes. rewrite (binary_of_octets _ Hb).
  unfold btoa.
  replace (forallb (fun c => c <=? 255) bytes) with true; [reflexivity|].
  symmetry. apply forallb_forall. intros c Hc.
  rewrite Forall_forall in Hb. apply Hb in Hc. lia.
Qed.

Lemma base64EncodeUtf8_returns text w :
  base64EncodeUtf8 text w
  = Returns (Base64.encode (TextEncoder_encode text)) w.
Proof.
  unfold base64EncodeUtf8. apply base64EncodeBytes_returns.
  apply TextEncoder_encode_octets.
Qed.

Lemma byte_octets (buffer : list Byte.byte) :
  Forall (fun b => b < 256) (List.map Byte.to_N buffer).
Proof.
  apply Forall_forall. intros b Hb. apply in_map_iff in Hb as [x [<- _]].
  pose proof (Byte.to_N_bounded x). lia.
Qed.

Lemma arrayBufferToBase64_returns buffer w :
  arrayBufferToBase64 buffer w
  = Returns (Base64.encode (List.map Byte.to_N buffer)) w.
Proof.
  unfold arrayBufferToBase64. apply base64EncodeBytes_returns, byte_octets.
Qed.

(** A base64-encoded UTF-8 text decodes to the text it was made from. *)
Lemma decode_base64_utf8_encode text :
  well_formed text = true ->
  decode_base64_utf8 (Base64.encode (TextEncoder_encode text)) = Some text.
Proof.
  intros Hwf. unfold decode_base64_utf8.
  rewrite decode_encode by apply TextEncoder_encode_octets.
  now apply decode_TextEncoder.
Qed.

End CodecFacts.

(* ------------------------------------------------------------------ *)
(** ** Header values *)

Module HeaderFacts.
Import Eml Props StringFacts Base64 Utf8 Base64Facts Utf8Facts CodecFacts
  SanitizerFacts.

Lemma bind_pure {A B : Type} (c : M A) (k : A -> M B) a w :
  pure_result c a -> bind c k w = k a w.
Proof. intros H. unfold bind. now rewrite H. Qed.

Lemma pure_ret {A : Type} (a : A) : pure_result (ret a) a.
Proof. intros w. reflexivity. Qed.

Lemma base64EncodeUtf8_pure text :
  pure_result (base64EncodeUtf8 text) (Base64.encode (TextEncoder_encode text)).
Proof. intros w. apply base64EncodeUtf8_returns. Qed.

Lemma single_line_app a b :
  single_line (a ++ b) = true <-> single_line a = true /\ single_line b = true.
Proof. unfold single_line. rewrite forallb_app. apply andb_true_iff. Qed.

Lemma single_line_in s :
  single_line s = true <-> (forall c, In c s -> not_newline c = true).
Proof. apply forallb_forall. Qed.

Lemma base64_char_not_newline c : is_base64_char c = true -> not_newline c = true.
Proof.
  unfold not_newline, is_cr_lf, CR, LF. intros H.
  destruct (c =? 13) eqn:H13; [apply N.eqb_eq in H13; now subst|].
  destruct (c =? 10) eqn:H10; [apply N.eqb_eq in H10; now subst|].
  reflexivity.
Qed.

Lemma base64_single_line octets : single_line (Base64.encode octets) = true.
Proof.
  apply single_line_in. intros c Hc. apply base64_char_not_newline.
  pose proof (encode_base64_chars octets) as H.
  rewrite Forall_forall in H. now apply H.
Qed.

Ltac single_line_parts :=
  repeat (apply single_line_app; split);
  try reflexivity;
  try apply sanitizeHeaderValue_single_line;
  try apply base64_single_line.

(** [encodeHeaderWord] does not raise and returns one line. *)
Lemma encodeHeaderWord_pure value :
  exists word,
    pure_result (encodeHeaderWord value) word /\ single_line word = true.
Proof.
  unfold encodeHeaderWord.
  destruct (is_empty (sanitizeHeaderValue value)).
  - exists []. split; [apply pure_ret|reflexivity].
  - destruct (test_class is_non_ascii (sanitizeHeaderValue value));
      cbn [negb].
    + eexists. split.
      * intros w. rewrite (bind_pure _ _ _ _ (base64EncodeUtf8_pure _)).
        reflexivity.
      * single_line_parts.
    + eexists. split; [apply pure_ret|single_line_parts].
Qed.

Lemma single_line_quoted s :
  single_line s = true ->
  single_line (replace_class (N.eqb DQUOTE) [BACKSLASH; DQUOTE] s) = true.
Proof.
  rewrite !single_line_in. intros H c Hc.
  apply replace_class_in in Hc as [Hc|[Hc _]]; [|now apply H].
  destruct Hc as [<-|[<-|[]]]; reflexivity.
Qed.

(** [formatAddress] does not raise and returns one line. *)
Lemma formatAddress_pure recipient :
  exists text,
    pure_result (formatAddress recipient) text /\ single_line text = true.
Proof.
  unfold formatAddress.
  set (address := sanitizeHeaderValue (Some (js_or (Some (na_address recipient)) []))).
  set (rawName := sanitizeHeaderValue (Some (js_or (Some (na_name recipient)) []))).
  assert (Ha : single_line address = true) by apply sanitizeHeaderValue_single_line.
  assert (Hn : single_line rawName = true) by apply sanitizeHeaderValue_single_line.
  destruct (is_empty address); [exists []; split; [apply pure_ret|reflexivity]|].
  destruct (is_empty rawName || str_eqb rawName address).
  { eexists. split; [apply pure_ret|]. single_line_parts; assumption. }
  assert (Henc : exists encodedName,
             pure_result (if test_class is_non_ascii rawName
                          then encodeHeaderWord (Some rawName)
                          else ret rawName) encodedName
             /\ single_line encodedName = true).
  { destruct (test_class is_non_ascii rawName).
    - apply encodeHeaderWord_pure.
    - exists rawName. split; [apply pure_ret|exact Hn]. }
  destruct Henc as [encodedName [Hpure Hline]].
  destruct (startsWith encodedName (js "=?UTF-8?B?")) eqn:Hstart.
  - eexists. split.
    + intros w. rewrite (bind_pure _ _ _ _ Hpure). cbv beta.
      rewrite Hstart. reflexivity.
    + single_line_parts; assumption.
  - eexists. split.
    + intros w. rewrite (bind_pure _ _ _ _ Hpure). cbv beta.
      rewrite Hstart. reflexivity.
    + destruct (test_class needs_quoting encodedName); single_line_parts;
        try assumption.
      now apply single_line_quoted.
Qed.

Lemma mapM_pure {A B : Type} (f : A -> M B) (P : B -> Prop) (l : list A) :
  (forall x, exists y, pure_result (f x) y /\ P y) ->
  exists ys, pure_result (mapM f l) ys /\ Forall P ys.
Proof.
  intros Hf. induction l as [|x l [ys [Hys HP]]].
  - exists []. split; [apply pure_ret|constructor].
  - destruct (Hf x) as [y [Hy HPy]].
    exists (y :: ys). split; [|now constructor].
    intros w. cbn [mapM].
    rewrite (bind_pure _ _ _ _ Hy), (bind_pure _ _ _ _ Hys). reflexivity.
Qed.

(** [formatAddressList] does not raise and returns one line. *)
Lemma formatAddressList_pure recipients type :
  exists text,
    pure_result (formatAddressList recipients type) text
    /\ single_line text = true.
Proof.
  unfold formatAddressList.
  destruct recipients as [recipients|];
    [|exists []; split; [apply pure_ret|reflexivity]].
  destruct (mapM_pure
              (fun recipient => formatAddress (normalizeRecipient recipient))
              (fun text => single_line text = true)
              (filter (has_type type) recipients)) as [formatted [Hpure Hall]].
  { intros x. apply formatAddress_pure. }
  eexists. split.
  - intros w. rewrite (bind_pure _ _ _ _ Hpure). reflexivity.
  - apply single_line_in. intros c Hc.
    apply join_in in Hc as [Hc|[p [Hp Hc]]].
    + destruct Hc as [<-|[<-|[]]]; reflexivity.
    + apply filter_In in Hp as [Hp _].
      rewrite Forall_forall in Hall. apply Hall in Hp.
      rewrite single_line_in in Hp. now apply Hp.
Qed.

End HeaderFacts.

(* ------------------------------------------------------------------ *)
(** ** The parts of the assembler *)

Module AssemblerFacts.
Import Eml Props StringFacts Base64 Utf8 Base64Facts Utf8Facts CodecFacts
  SanitizerFacts HeaderFacts.

Lemma js_or_some s : js_or (Some s) [] = s.
Proof. now destruct s. Qed.

Lemma push_header_in headers name value h :
  In h (push_header headers name value) ->
  In h headers \/ (h = name ++ value /\ value <> []).
Proof.
  unfold push_header. destruct value as [|c t]; cbn [is_empty]; [now left|].
  intros H. apply in_app_or in H as [H|[<-|[]]]; [now left|right].
  split; [reflexivity|discriminate].
Qed.

(** The header block is built without raising; every header is a field
    name followed by its value, and every value is one line, but for what
    the host prints as the date. *)
Lemma buildEmlFromMessage_headers_pure host message :
  exists headers,
    pure_result (buildEmlFromMessage_headers host message) headers
    /\ headers <> []
    /\ forall h, In h headers ->
         exists name value,
           h = name ++ value /\ In name field_names
           /\ (single_line value = true
               \/ value = getMessageDate host message).
Proof.
  unfold buildEmlFromMessage_headers.
  destruct (encodeHeaderWord_pure
              (Some (js_or (opt_chain message Message.subject) [])))
    as [subject [Hsubject Lsubject]].
  destruct (formatAddress_pure
              {| na_name := js_or (opt_chain message Message.senderName) [];
                 na_address := js_or (opt_chain message Message.senderEmail) [] |})
    as [fromAddress [Hfrom Lfrom]].
  destruct (formatAddressList_pure (opt_chain message Message.recipients) (js "to"))
    as [toList [Hto Lto]].
  destruct (formatAddressList_pure (opt_chain message Message.recipients) (js "cc"))
    as [ccList [Hcc Lcc]].
  eexists. split; [|split].
  - intros w.
    rewrite (bind_pure _ _ _ _ Hsubject), (bind_pure _ _ _ _ Hfrom),
      (bind_pure _ _ _ _ Hto), (bind_pure _ _ _ _ Hcc).
    reflexivity.
  - intros H. now apply app_eq_nil in H as [_ H].
  - intros h Hin. unfold field_names.
    apply in_app_or in Hin as [Hin|[<-|[]]].
    2:{ exists (js "MIME-Version: 1.0"), []. rewrite app_nil_r.
        split; [reflexivity|]. split; [cbn; tauto|now left]. }
    apply push_header_in in Hin as [Hin|[-> _]].
    2:{ exists (js "Date: "), (getMessageDate host message).
        split; [reflexivity|]. split; [cbn; tauto|now right]. }
    apply push_header_in in Hin as [Hin|[-> _]].
    2:{ exists (js "Cc: "), ccList.
        split; [reflexivity|]. split; [cbn; tauto|now left]. }
    apply push_header_in in Hin as [Hin|[-> _]].
    2:{ exists (js "To: "), toList.
        split; [reflexivity|]. split; [cbn; tauto|now left]. }
    apply push_header_in in Hin as [Hin|[-> _]].
    2:{ exists (js "From: "), fromAddress.
        split; [reflexivity|]. split; [cbn; tauto|now left]. }
    apply push_header_in in Hin as [[]|[-> _]].
    exists (js "Subject: "), subject.
    split; [reflexivity|]. split; [cbn; tauto|now left].
Qed.

Lemma field_name_facts name value :
  In name field_names ->
  name ++ value <> []
  /\ not_content_type (name ++ value) = true
  /\ single_line name = true.
Proof.
  unfold field_names. intros H.
  repeat (destruct H as [<-|H]; [repeat split; discriminate|]).
  destruct H.
Qed.

(** *** Boundaries *)

Lemma uint_digits_single_line u : single_line (uint_digits u) = true.
Proof. induction u; cbn [uint_digits]; auto. Qed.

Lemma hex_digit_not_newline d : not_newline (hex_digit d) = true.
Proof.
  unfold hex_digit.
  destruct (nth_in_or_default (N.to_nat (d mod 16)) (js "0123456789abcdef") 48)
    as [H | ->]; [|reflexivity].
  assert (Hall : single_line (js "0123456789abcdef") = true) by reflexivity.
  rewrite single_line_in in Hall. now apply Hall.
Qed.

Lemma random_suffix_single_line digits :
  single_line
    (slice_from 2
       (match digits with
        | [] => js "0"
        | _ :: _ => js "0." ++ List.map hex_digit digits
        end)) = true.
Proof.
  destruct digits as [|d digits]; [reflexivity|].
  change (slice_from 2 (js "0." ++ List.map hex_digit (d :: digits)))
    with (List.map hex_digit (d :: digits)).
  apply single_line_in. intros c Hc.
  apply in_map_iff in Hc as [x [<- _]]. apply hex_digit_not_newline.
Qed.

(** [makeBoundary] does not raise, reads the random source and the clock
    once each, and returns the prefix followed by one line of text. *)
Lemma makeBoundary_returns host prefix w :
  exists tail,
    makeBoundary host prefix w
    = Returns (prefix ++ js "-" ++ tail)
        {| random_draws := S (random_draws w);
           clock_reads := S (clock_reads w) |}
    /\ single_line tail = true.
Proof.
  unfold makeBoundary, bind, Math_random_toString16, Date_now_string, ret.
  cbn [random_draws clock_reads].
  eexists. split; [reflexivity|].
  apply single_line_app. split; [apply uint_digits_single_line|].
  apply single_line_app. split; [reflexivity|].
  apply random_suffix_single_line.
Qed.

(** *** Text parts *)

Lemma buildTextPart_pure content contentType :
  pure_result (buildTextPart content contentType)
    [js "Content-Type: " ++ contentType ++ js "; charset=" ++ [DQUOTE]
       ++ js "utf-8" ++ [DQUOTE];
     js "Content-Transfer-Encoding: base64";
     [];
     wrapBase64
       (Base64.encode (TextEncoder_encode (normalizeLineEndings (Some content))))].
Proof.
  intros w. unfold buildTextPart.
  rewrite (bind_pure _ _ _ _ (base64EncodeUtf8_pure _)).
  now rewrite js_or_some.
Qed.

Lemma buildAlternativeLines_pure boundaryAlt text html includeHeader :
  pure_result (buildAlternativeLines boundaryAlt text html includeHeader)
    ((if includeHeader
      then [js "Content-Type: multipart/alternative; boundary=" ++ [DQUOTE]
              ++ boundaryAlt ++ [DQUOTE];
            []]
      else [])
     ++ [js "--" ++ boundaryAlt;
         js "Content-Type: text/plain; charset=" ++ [DQUOTE] ++ js "utf-8"
           ++ [DQUOTE];
         js "Content-Transfer-Encoding: base64";
         [];
         wrapBase64
           (Base64.encode (TextEncoder_encode (normalizeLineEndings (Some text))));
         js "--" ++ boundaryAlt;
         js "Content-Type: text/html; charset=" ++ [DQUOTE] ++ js "utf-8"
           ++ [DQUOTE];
         js "Content-Transfer-Encoding: base64";
         [];
         wrapBase64
           (Base64.encode (TextEncoder_encode (normalizeLineEndings (Some html))));
         js "--" ++ boundaryAlt ++ js "--"]).
Proof.
  intros w. unfold buildAlternativeLines.
  rewrite (bind_pure _ _ _ _ (buildTextPart_pure _ _)).
  rewrite (bind_pure _ _ _ _ (buildTextPart_pure _ _)).
  unfold ret. f_equal. rewrite <- !app_assoc. reflexivity.
Qed.

(** *** Wrapped payloads *)

(** A wrapped payload is its text cut into lines of at most 76 code
    units. *)
Lemma wrapBase64_lines base64 :
  exists lines,
    wrapBase64 base64 = join CRLF lines
    /\ List.concat lines = base64
    /\ Forall (fun l => (List.length l <= BASE64_LINE_LENGTH)%nat) lines
    /\ (forall l c, In l lines -> In c l -> In c base64)
    /\ (base64 <> [] -> exists first rest, lines = first :: rest /\ first <> []).
Proof.
  unfold wrapBase64. destruct base64 as [|c t] eqn:Hb.
  - exists []. split; [reflexivity|]. split; [reflexivity|].
    split; [constructor|]. split; [intros l c []|congruence].
  - rewrite <- Hb. cbn [is_empty].
    replace (is_empty base64) with false by (now subst).
    exists (slices (List.length base64) BASE64_LINE_LENGTH base64).
    split; [reflexivity|]. split; [|split; [|split]].
    + apply slices_concat; [unfold BASE64_LINE_LENGTH; lia|lia].
    + apply slices_width.
    + intros l x. apply slices_in.
    + intros _. subst base64. cbn [List.length slices].
      eexists. eexists. split; [reflexivity|].
      unfold BASE64_LINE_LENGTH. discriminate.
Qed.

End AssemblerFacts.

(* ------------------------------------------------------------------ *)
(** ** The four body structures of [buildEmlFromMessage] *)

Module BranchFacts.
Import Eml Props Shapes StringFacts Base64 Utf8 Base64Facts Utf8Facts
  CodecFacts SanitizerFacts HeaderFacts AssemblerFacts.

Lemma bind_returns {A B : Type} (c : M A) (k : A -> M B) a w w' :
  c w = Returns a w' -> bind c k w = k a w'.
Proof. intros H. unfold bind. now rewrite H. Qed.

Lemma buildTextPart_text_part content contentType :
  pure_result (buildTextPart content contentType) (text_part contentType content).
Proof. apply buildTextPart_pure. Qed.

Lemma buildAlternativeLines_parts boundary text html includeHeader :
  pure_result (buildAlternativeLines boundary text html includeHeader)
    ((if includeHeader
      then [content_type_multipart (js "alternative") boundary; []]
      else [])
     ++ alternative_parts boundary text html).
Proof. apply buildAlternativeLines_pure. Qed.

Lemma fold_push_attachment boundary attachments : forall lines,
  fold_left (push_attachment boundary) attachments lines
  = lines ++ flat_map (attachment_block boundary) attachments.
Proof.
  induction attachments as [|a l IH]; intros lines; cbn [fold_left flat_map].
  - now rewrite app_nil_r.
  - rewrite IH. unfold push_attachment, attachment_block.
    destruct (buildAttachmentPart a) as [part|].
    + unfold delimiter. now rewrite <- !app_assoc.
    + reflexivity.
Qed.

Lemma bind_assoc {A B C : Type} (c : M A) (k1 : A -> M B) (k2 : B -> M C) w :
  bind (bind c k1) k2 w = bind c (fun a => bind (k1 a) k2) w.
Proof. unfold bind. now destruct (c w). Qed.

Lemma bind_ret {A B : Type} (a : A) (k : A -> M B) w :
  bind (ret a) k w = k a w.
Proof. reflexivity. Qed.

(** One step of a computation: the equation [H] of its first call. *)
Ltac bind_step H :=
  cbv beta; repeat rewrite bind_assoc;
  first [ rewrite (bind_returns _ _ _ _ _ H)
        | rewrite (bind_pure _ _ _ _ H) ];
  cbv beta; repeat rewrite bind_ret; cbv beta.

(** With attachments: a mixed body opened by the body part, one block for
    each attachment, and the closing delimiter. *)
Lemma mixed_branch host message w headers :
  pure_result (buildEmlFromMessage_headers host message) headers ->
  message_attachments message <> [] ->
  exists tail first w',
    buildEmlFromMessage host message w
    = Returns
        (join CRLF
           (headers ++ [content_type_multipart (js "mixed") (js "mixed-" ++ tail)])
         ++ CRLF ++ CRLF
         ++ join CRLF
              ([delimiter (js "mixed-" ++ tail)] ++ first
               ++ flat_map (attachment_block (js "mixed-" ++ tail))
                    (message_attachments message)
               ++ [close_delimiter (js "mixed-" ++ tail)])) w'
    /\ single_line tail = true
    /\ is_body_part first.
Proof.
  intros Hheaders Hatt.
  unfold buildEmlFromMessage.
  bind_step Hheaders. cbv zeta.
  destruct (message_attachments message) as [|a atts] eqn:Ha; [congruence|].
  cbn [is_empty_list negb].
  destruct (makeBoundary_returns host (js "mixed") w) as [tail [Hmixed Htail]].
  bind_step Hmixed.
  fold (bodyText message) (bodyHtml message).
  fold (hasText message) (hasHtml message).
  exists tail.
  destruct (hasText message && hasHtml message) eqn:Hboth.
  - destruct (makeBoundary_returns host (js "alt")
                {| random_draws := S (random_draws w);
                   clock_reads := S (clock_reads w) |})
      as [tail' [Halt Htail']].
    exists ([content_type_multipart (js "alternative") (js "alt-" ++ tail'); []]
            ++ alternative_parts (js "alt-" ++ tail')
                 (bodyText message) (bodyHtml message)).
    eexists. split; [|split; [exact Htail|]].
    + bind_step Halt.
      bind_step (buildAlternativeLines_parts (js "alt" ++ js "-" ++ tail')
                   (bodyText message) (bodyHtml message) true).
      unfold ret. rewrite fold_push_attachment.
      rewrite <- !app_assoc. reflexivity.
    + right. exists tail', (bodyText message), (bodyHtml message).
      split; [exact Htail'|reflexivity].
  - destruct (hasHtml message || hasText message).
    + exists (text_part
                (if hasHtml message then js "text/html" else js "text/plain")
                (if hasHtml message then bodyHtml message
                 else bodyText message)).
      eexists. split; [|split; [exact Htail|]].
      * bind_step (buildTextPart_text_part
                     (if hasHtml message then bodyHtml message
                      else bodyText message)
                     (if hasHtml message then js "text/html"
                      else js "text/plain")).
        unfold ret. rewrite fold_push_attachment.
        rewrite <- !app_assoc. reflexivity.
      * left. eexists. eexists. split; [|reflexivity].
        destruct (hasHtml message); cbn [In]; auto.
    + exists (text_part (js "text/plain") []).
      eexists. split; [|split; [exact Htail|]].
      * bind_step (buildTextPart_text_part [] (js "text/plain")).
        unfold ret. rewrite fold_push_attachment.
        rewrite <- !app_assoc. reflexivity.
      * left. eexists. eexists. split; [|reflexivity]. cbn [In]; auto.
Qed.


(** Without attachments, with both bodies: the two alternatives. *)
Lemma alternative_branch host message w headers :
  pure_result (buildEmlFromMessage_headers host message) headers ->
  message_attachments message = [] ->
  hasText message && hasHtml message = true ->
  exists tail,
    buildEmlFromMessage host message w
    = Returns
        (join CRLF
           (headers
            ++ [content_type_multipart (js "alternative") (js "alt-" ++ tail)])
         ++ CRLF ++ CRLF
         ++ join CRLF
              (alternative_parts (js "alt-" ++ tail)
                 (bodyText message) (bodyHtml message)))
        {| random_draws := S (random_draws w);
           clock_reads := S (clock_reads w) |}
    /\ single_line tail = true.
Proof.
  intros Hheaders Hatt Hboth.
  unfold buildEmlFromMessage.
  bind_step Hheaders. cbv zeta.
  rewrite Hatt. cbn [is_empty_list negb].
  fold (bodyText message) (bodyHtml message).
  fold (hasText message) (hasHtml message).
  rewrite Hboth.
  destruct (makeBoundary_returns host (js "alt") w) as [tail [Halt Htail]].
  exists tail. split; [|exact Htail].
  bind_step Halt.
  bind_step (buildAlternativeLines_parts (js "alt" ++ js "-" ++ tail)
               (bodyText message) (bodyHtml message) false).
  reflexivity.
Qed.

(** Without attachments, with one body: its content headers close the
    header block and the body is its payload. *)
Lemma single_branch host message w headers :
  pure_result (buildEmlFromMessage_headers host message) headers ->
  message_attachments message = [] ->
  hasText message && hasHtml message = false ->
  hasHtml message || hasText message = true ->
  buildEmlFromMessage host message w
  = Returns
      (join CRLF
         (headers
          ++ [js "Content-Type: "
                ++ (if hasHtml message then js "text/html" else js "text/plain")
                ++ js "; charset=" ++ [DQUOTE] ++ js "utf-8" ++ [DQUOTE];
              js "Content-Transfer-Encoding: base64"])
       ++ CRLF ++ CRLF
       ++ wrapBase64
            (Base64.encode
               (TextEncoder_encode
                  (if hasHtml message then bodyHtml message
                   else bodyText message)))) w.
Proof.
  intros Hheaders Hatt Hboth Hone.
  unfold buildEmlFromMessage.
  bind_step Hheaders. cbv zeta.
  rewrite Hatt. cbn [is_empty_list negb].
  fold (bodyText message) (bodyHtml message).
  fold (hasText message) (hasHtml message).
  rewrite Hboth, Hone.
  bind_step (base64EncodeUtf8_pure
               (if hasHtml message then bodyHtml message else bodyText message)).
  unfold ret. rewrite <- !app_assoc. reflexivity.
Qed.

(** Without attachments and without a body: an empty plain text. *)
Lemma empty_branch host message w headers :
  pure_result (buildEmlFromMessage_headers host message) headers ->
  message_attachments message = [] ->
  hasText message = false ->
  hasHtml message = false ->
  buildEmlFromMessage host message w
  = Returns
      (join CRLF
         (headers
          ++ [js "Content-Type: text/plain; charset=" ++ [DQUOTE] ++ js "utf-8"
                ++ [DQUOTE];
              js "Content-Transfer-Encoding: base64"])
       ++ CRLF ++ CRLF) w.
Proof.
  intros Hheaders Hatt Htext Hhtml.
  unfold buildEmlFromMessage.
  bind_step Hheaders. cbv zeta.
  rewrite Hatt. cbn [is_empty_list negb].
  fold (bodyText message) (bodyHtml message).
  fold (hasText message) (hasHtml message).
  rewrite Htext, Hhtml. cbn [andb orb].
  bind_step (base64EncodeUtf8_pure []).
  unfold ret. rewrite <- !app_assoc.
  change (wrapBase64 (Base64.encode (TextEncoder_encode []))) with (@nil N).
  now rewrite !app_nil_r.
Qed.

(** The assembler returns for every message. *)
Lemma buildEmlFromMessage_returns host message w :
  exists eml w', buildEmlFromMessage host message w = Returns eml w'.
Proof.
  destruct (buildEmlFromMessage_headers_pure host message)
    as [headers [Hheaders _]].
  destruct (message_attachments message) as [|a atts] eqn:Hatt.
  - destruct (hasText message) eqn:Htext; destruct (hasHtml message) eqn:Hhtml.
    + destruct (alternative_branch host message w headers Hheaders Hatt)
        as [tail [H _]]; [now rewrite Htext, Hhtml|].
      rewrite H. eauto.
    + rewrite (single_branch host message w headers Hheaders Hatt);
        [eauto|now rewrite Htext, Hhtml..].
    + rewrite (single_branch host message w headers Hheaders Hatt);
        [eauto|now rewrite Htext, Hhtml..].
    + rewrite (empty_branch host message w headers Hheaders Hatt Htext Hhtml).
      eauto.
  - destruct (mixed_branch host message w headers Hheaders)
      as [tail [first [w' [H _]]]]; [rewrite Hatt; discriminate|].
    rewrite H. eauto.
Qed.

End BranchFacts.

(* ------------------------------------------------------------------ *)
(** ** The download *)

Module DownloadFacts.
Import Eml Props Shapes Examples StringFacts Base64 Utf8 Base64Facts Utf8Facts
  CodecFacts SanitizerFacts HeaderFacts AssemblerFacts BranchFacts.

Lemma deriveEmlFileName_not_nil message : deriveEmlFileName message <> [].
Proof.
  unfold deriveEmlFileName.
  destruct (negb (is_empty (trim (js_or (opt_chain message Message.fileName) [])))).
  - destruct (suffix_matches dot_eml _); [apply sanitizeFilename_not_nil|].
    destruct (suffix_matches dot_msg _); [apply sanitizeFilename_not_nil|].
    intros H. now apply app_eq_nil in H as [_ H].
  - intros H. now apply app_eq_nil in H as [_ H].
Qed.

(** C4.  A message recorded as [eml] that carries its raw buffer is not
    serialized again: no boundary is drawn, the payload is the base64 text
    of the octets of the buffer, whatever the other fields hold, it decodes
    to these octets, and the media type is [message/rfc822]. *)
Theorem buildEmlDownload_passthrough (host : Host) (message : Message.t)
  (rawBuffer : list Byte.byte) (w : World) :
  Message._fileType message = Some (js "eml") ->
  Message._rawBuffer message = Some rawBuffer ->
  buildEmlDownload host (Some message) w
  = Returns
      (Some {| fileName := deriveEmlFileName (Some message);
               dataUrl := js "data:message/rfc822;base64,"
                          ++ Base64.encode (List.map Byte.to_N rawBuffer) |})
      w
  /\ Base64.decode (Base64.encode (List.map Byte.to_N rawBuffer))
     = Some (List.map Byte.to_N rawBuffer).
Proof.
  intros Htype Hraw. split.
  - unfold buildEmlDownload. rewrite Htype, Hraw.
    change (is_eml (Some (js "eml"))) with true. cbv iota.
    bind_step (arrayBufferToBase64_returns rawBuffer w).
    reflexivity.
  - apply decode_encode, byte_octets.
Qed.

(** C4, witness: three octets under a subject and a body that are not
    looked at. *)
Lemma buildEmlDownload_passthrough_witness :
  buildEmlDownload sample_host
    (Some {| Message.subject := Some (js "Hello");
             Message.senderName := None;
             Message.senderEmail := None;
             Message.recipients := None;
             Message.bodyContent := Some (js "ignored");
             Message.bodyContentHTML := None;
             Message.attachments := None;
             Message.messageDeliveryTime := None;
             Message.timestamp := None;
             Message.fileName := Some (js "mail.eml");
             Message._fileType := Some (js "eml");
             Message._rawBuffer := Some [Byte.x00; Byte.xff; Byte.x0a] |})
    initial_world
  = Returns
      (Some {| fileName := js "mail.eml";
               dataUrl := js "data:message/rfc822;base64,AP8K" |})
      initial_world
  /\ Base64.decode (js "AP8K") = Some [0; 255; 10].
Proof.
  exact (buildEmlDownload_passthrough sample_host
           {| Message.subject := Some (js "Hello");
              Message.senderName := None;
              Message.senderEmail := None;
              Message.recipients := None;
              Message.bodyContent := Some (js "ignored");
              Message.bodyContentHTML := None;
              Message.attachments := None;
              Message.messageDeliveryTime := None;
              Message.timestamp := None;
              Message.fileName := Some (js "mail.eml");
              Message._fileType := Some (js "eml");
              Message._rawBuffer := Some [Byte.x00; Byte.xff; Byte.x0a] |}
           [Byte.x00; Byte.xff; Byte.x0a] initial_world eq_refl eq_refl).
Defined.

(** C5.  [buildEmlDownload] returns [null] for an absent message and for
    no other; for every message it returns, without raising, a download
    whose file name is not empty and whose data URL is the [message/rfc822]
    prefix followed by base64 text. *)
Theorem buildEmlDownload_total (host : Host) (message : option Message.t)
  (w : World) :
  (message = None /\ buildEmlDownload host message w = Returns None w)
  \/ (message <> None
      /\ exists download payload w',
           buildEmlDownload host message w = Returns (Some download) w'
           /\ fileName download <> []
           /\ dataUrl download = js "data:message/rfc822;base64," ++ payload
           /\ forallb is_base64_char payload = true).
Proof.
  destruct message as [msg|]; [right|now left].
  split; [discriminate|].
  unfold buildEmlDownload.
  destruct (if is_eml (Message._fileType msg) then Message._rawBuffer msg
            else None) as [rawBuffer|].
  - eexists. eexists. exists w. split; [|split; [|split]].
    + bind_step (arrayBufferToBase64_returns rawBuffer w). reflexivity.
    + apply deriveEmlFileName_not_nil.
    + reflexivity.
    + apply forallb_forall. apply Forall_forall. apply encode_base64_chars.
  - destruct (buildEmlFromMessage_returns host (Some msg) w)
      as [eml [w' Heml]].
    eexists. eexists. exists w'. split; [|split; [|split]].
    + bind_step Heml. bind_step (base64EncodeUtf8_returns eml w').
      reflexivity.
    + apply deriveEmlFileName_not_nil.
    + reflexivity.
    + apply forallb_forall. apply Forall_forall. apply encode_base64_chars.
Qed.

(** The message with every optional field missing. *)
Lemma empty_message_download (host : Host) (w : World) :
  exists payload,
    buildEmlDownload host (Some empty_message) w
    = Returns
        (Some {| fileName := js "message.eml";
                 dataUrl := js "data:message/rfc822;base64," ++ payload |}) w
    /\ decode_base64_utf8 payload
       = Some (join CRLF
                 [js "MIME-Version: 1.0";
                  content_type_text_plain;
                  js "Content-Transfer-Encoding: base64";
                  [];
                  []]).
Proof.
  exists (Base64.encode
            (TextEncoder_encode
               (join CRLF
                  [js "MIME-Version: 1.0";
                   content_type_text_plain;
                   js "Content-Transfer-Encoding: base64";
                   [];
                   []]))).
  split; vm_compute; reflexivity.
Qed.

End DownloadFacts.

(* ------------------------------------------------------------------ *)
(** ** Encoded words and the example scenario *)

Module EncoderFacts.
Import Eml Props Shapes Examples StringFacts Base64 Utf8 Base64Facts Utf8Facts
  CodecFacts SanitizerFacts HeaderFacts AssemblerFacts BranchFacts.

(** C7, as the code has it.  A header text whose sanitized form is pure
    ASCII is returned sanitized and otherwise unchanged.  A header text
    whose sanitized form holds a non-ASCII code unit is returned as an
    encoded word [=?UTF-8?B?...?=] whose content is base64 text, whether
    or not its surrogates are paired; when the sanitized form is
    well-formed UTF-16 (every surrogate paired), this content, decoded as
    UTF-8, gives the sanitized text back. *)
Theorem encodeHeaderWord_encoded_word (value : option jsstring) (w : World) :
  let clean := sanitizeHeaderValue value in
  if test_class is_non_ascii clean
  then exists content,
         encodeHeaderWord value w
         = Returns (js "=?UTF-8?B?" ++ content ++ js "?=") w
         /\ content = Base64.encode (TextEncoder_encode clean)
         /\ forallb is_base64_char content = true
         /\ (well_formed clean = true ->
             decode_base64_utf8 content = Some clean)
  else encodeHeaderWord value w = Returns clean w.
Proof.
  intros clean.
  unfold encodeHeaderWord. fold clean.
  destruct (test_class is_non_ascii clean) eqn:Hascii.
  - destruct (is_empty clean) eqn:Hempty.
    { apply is_empty_true in Hempty. rewrite Hempty in Hascii. discriminate. }
    cbn [negb].
    exists (Base64.encode (TextEncoder_encode clean)).
    split; [|split; [reflexivity|split]].
    + bind_step (base64EncodeUtf8_returns clean w). reflexivity.
    + apply forallb_forall. apply Forall_forall. apply encode_base64_chars.
    + apply decode_base64_utf8_encode.
  - destruct (is_empty clean) eqn:Hempty; [|reflexivity].
    apply is_empty_true in Hempty. now rewrite Hempty.
Qed.

(** C7, witness: the subject [Zoe] with a diaeresis on its last letter,
    U+00EB. *)
Lemma encodeHeaderWord_encoded_word_witness :
  exists content,
    encodeHeaderWord (Some [90; 111; 0xEB]) initial_world
    = Returns (js "=?UTF-8?B?" ++ content ++ js "?=") initial_world
    /\ content = js "Wm/Dqw=="
    /\ forallb is_base64_char content = true
    /\ (well_formed [90; 111; 0xEB] = true ->
        decode_base64_utf8 content = Some [90; 111; 0xEB]).
Proof.
  exact (encodeHeaderWord_encoded_word (Some [90; 111; 0xEB]) initial_world).
Defined.

(** C7, counterexample.  A header text that is one unpaired surrogate is
    non-ASCII after sanitation, and its encoded word decodes to U+FFFD, not
    to the sanitized text. *)
Lemma encodeHeaderWord_unpaired_surrogate :
  sanitizeHeaderValue (Some [0xD800]) = [0xD800]
  /\ test_class is_non_ascii [0xD800] = true
  /\ encodeHeaderWord (Some [0xD800]) initial_world
     = Returns (js "=?UTF-8?B?" ++ js "77+9" ++ js "?=") initial_world
  /\ decode_base64_utf8 (js "77+9") = Some [0xFFFD]
  /\ decode_base64_utf8 (js "77+9") <> Some (sanitizeHeaderValue (Some [0xD800])).
Proof. repeat split. discriminate. Qed.

(** C1, as the code has it.  For the message of the scenario, the role of
    its recipient stored under [recipType], the download is named
    [Hello.eml] and its payload decodes to the headers [Subject: Hello],
    [From: <a@x.com>], [To: <b@y.com>], [MIME-Version: 1.0], the
    [text/plain] content type in UTF-8 and the base64 transfer encoding, a
    blank line, and a body that decodes to [Hi]. *)
Theorem hello_example (host : Host) (w : World) :
  exists payload body,
    buildEmlDownload host (Some (hello_with recipient_with_recipType)) w
    = Returns
        (Some {| fileName := js "Hello.eml";
                 dataUrl := js "data:message/rfc822;base64," ++ payload |}) w
    /\ decode_base64_utf8 payload
       = Some (join CRLF
                 [js "Subject: Hello";
                  js "From: <a@x.com>";
                  js "To: <b@y.com>";
                  js "MIME-Version: 1.0";
                  content_type_text_plain;
                  js "Content-Transfer-Encoding: base64";
                  [];
                  body])
    /\ decode_base64_utf8 body = Some (js "Hi").
Proof.
  exists (Base64.encode
            (TextEncoder_encode
               (join CRLF
                  [js "Subject: Hello";
                   js "From: <a@x.com>";
                   js "To: <b@y.com>";
                   js "MIME-Version: 1.0";
                   content_type_text_plain;
                   js "Content-Transfer-Encoding: base64";
                   [];
                   js "SGk="]))).
  exists (js "SGk=").
  split; [|split]; vm_compute; reflexivity.
Qed.

(** C1, counterexample.  With the recipient as the scenario writes it, its
    role under [role], the recipient is filtered out and the output has no
    [To] header. *)
Lemma hello_example_role_without_to :
  exists payload eml,
    buildEmlDownload sample_host (Some (hello_with recipient_with_role))
      initial_world
    = Returns
        (Some {| fileName := js "Hello.eml";
                 dataUrl := js "data:message/rfc822;base64," ++ payload |})
        initial_world
    /\ decode_base64_utf8 payload = Some eml
    /\ eml = join CRLF
               [js "Subject: Hello";
                js "From: <a@x.com>";
                js "MIME-Version: 1.0";
                content_type_text_plain;
                js "Content-Transfer-Encoding: base64";
                [];
                js "SGk="]
    /\ contains (js "To:") eml = false.
Proof.
  exists (Base64.encode
            (TextEncoder_encode
               (join CRLF
                  [js "Subject: Hello";
                   js "From: <a@x.com>";
                   js "MIME-Version: 1.0";
                   content_type_text_plain;
                   js "Content-Transfer-Encoding: base64";
                   [];
                   js "SGk="]))).
  eexists.
  split; [|split; [|split; [reflexivity|]]]; vm_compute; reflexivity.
Qed.

End EncoderFacts.

(* ------------------------------------------------------------------ *)
(** ** Line endings *)

Module LineEndingFacts.
Import Eml Props LineEndings StringFacts.

Lemma replace_class_cons p r c s :
  replace_class p r (c :: s) = (if p c then r else [c]) ++ replace_class p r s.
Proof. reflexivity. Qed.

(** What the second and the third replacement do to the first code unit. *)
Lemma last_passes_cons c s :
  replace_class (N.eqb LF) CRLF (replace_class (N.eqb CR) [LF] (c :: s))
  = (if (c =? CR) || (c =? LF) then CRLF else [c])
    ++ replace_class (N.eqb LF) CRLF (replace_class (N.eqb CR) [LF] s).
Proof.
  rewrite replace_class_cons. rewrite (N.eqb_sym CR c).
  destruct (N.eqb_spec c CR) as [->|Hc]; cbn [orb app].
  - now rewrite replace_class_cons.
  - rewrite replace_class_cons. rewrite (N.eqb_sym LF c).
    now destruct (c =? LF).
Qed.

Lemma replace_pair_two a b r x y t :
  replace_pair a b r (x :: y :: t)
  = if (x =? a) && (y =? b) then r ++ replace_pair a b r t
    else x :: replace_pair a b r (y :: t).
Proof. reflexivity. Qed.

Lemma crlf_normal_two x y t :
  crlf_normal (x :: y :: t)
  = if x =? CR
    then CR :: LF :: (if y =? LF then crlf_normal t else crlf_normal (y :: t))
    else if x =? LF then CR :: LF :: crlf_normal (y :: t)
         else x :: crlf_normal (y :: t).
Proof. reflexivity. Qed.

(** The three replacements of [normalizeLineEndings] amount to one pass. *)
Lemma three_passes n : forall s,
  (List.length s <= n)%nat ->
  replace_class (N.eqb LF) CRLF
    (replace_class (N.eqb CR) [LF] (replace_pair CR LF [LF] s))
  = crlf_normal s.
Proof.
  induction n as [|n IH]; intros s Hlen.
  - destruct s; [reflexivity|cbn in Hlen; lia].
  - destruct s as [|x [|y t]]; [reflexivity| |].
    + cbn [replace_pair crlf_normal]. rewrite last_passes_cons.
      destruct (x =? CR); [reflexivity|].
      destruct (x =? LF); reflexivity.
    + rewrite replace_pair_two, crlf_normal_two.
      assert (Ht : (List.length t <= n)%nat) by (cbn [List.length] in Hlen; lia).
      assert (Hyt : (List.length (y :: t) <= n)%nat)
        by (cbn [List.length] in Hlen |- *; lia).
      destruct (N.eqb_spec x CR) as [->|Hx].
      * destruct (N.eqb_spec y LF) as [->|Hy]; cbn [andb app].
        -- rewrite last_passes_cons.
           change ((LF =? CR) || (LF =? LF)) with true.
           unfold CRLF at 1. cbn [app]. do 2 f_equal. now apply IH.
        -- rewrite last_passes_cons.
           change ((CR =? CR) || (CR =? LF)) with true.
           unfold CRLF at 1. cbn [app]. do 2 f_equal. now apply IH.
      * cbn [andb]. rewrite last_passes_cons.
        apply N.eqb_neq in Hx. rewrite Hx. cbn [orb].
        rewrite (IH _ Hyt).
        destruct (x =? LF); reflexivity.
Qed.

Lemma normalizeLineEndings_crlf_normal text :
  normalizeLineEndings text = crlf_normal (js_or text []).
Proof. unfold normalizeLineEndings. now apply (three_passes _ _ (le_n _)). Qed.

Lemma crlf_normal_facts n : forall s,
  (List.length s <= n)%nat ->
  crlf_normal (crlf_normal s) = crlf_normal s
  /\ bare_newline_free (crlf_normal s) = true
  /\ forallb is_whitespace (crlf_normal s) = forallb is_whitespace s.
Proof.
  induction n as [|n IH]; intros s Hlen.
  - destruct s; [now repeat split|cbn in Hlen; lia].
  - assert (Hstep : forall u,
              (List.length u <= n)%nat ->
              crlf_normal (CR :: LF :: crlf_normal u) = CR :: LF :: crlf_normal u
              /\ bare_newline_free (CR :: LF :: crlf_normal u) = true
              /\ forallb is_whitespace (CR :: LF :: crlf_normal u)
                 = forallb is_whitespace u).
    { intros u Hu. destruct (IH u Hu) as (H1 & H2 & H3).
      split; [|split].
      - rewrite crlf_normal_two.
        change (CR =? CR) with true. change (LF =? LF) with true.
        cbv iota. now rewrite H1.
      - cbn [bare_newline_free].
        change (CR =? CR) with true. change (LF =? LF) with true.
        cbv iota. now rewrite H2.
      - change (forallb is_whitespace (CR :: LF :: crlf_normal u))
          with (forallb is_whitespace (crlf_normal u)).
        exact H3. }
    destruct s as [|x [|y t]]; [now repeat split| |].
    + cbn [crlf_normal].
      destruct (N.eqb_spec x CR) as [->|Hx]; [now repeat split|].
      destruct (N.eqb_spec x LF) as [->|Hl]; [now repeat split|].
      apply N.eqb_neq in Hx, Hl.
      cbn [crlf_normal bare_newline_free]. rewrite Hx, Hl. now repeat split.
    + assert (Ht : (List.length t <= n)%nat) by (cbn [List.length] in Hlen; lia).
      assert (Hyt : (List.length (y :: t) <= n)%nat)
        by (cbn [List.length] in Hlen |- *; lia).
      rewrite crlf_normal_two.
      destruct (N.eqb_spec x CR) as [->|Hx].
      * destruct (N.eqb_spec y LF) as [->|Hy].
        -- destruct (Hstep t Ht) as (H1 & H2 & H3).
           split; [exact H1|split; [exact H2|]].
           rewrite H3. reflexivity.
        -- destruct (Hstep (y :: t) Hyt) as (H1 & H2 & H3).
           split; [exact H1|split; [exact H2|]].
           rewrite H3. reflexivity.
      * destruct (N.eqb_spec x LF) as [->|Hl].
        -- destruct (Hstep (y :: t) Hyt) as (H1 & H2 & H3).
           split; [exact H1|split; [exact H2|]].
           rewrite H3. reflexivity.
        -- destruct (IH (y :: t) Hyt) as (H1 & H2 & H3).
           apply N.eqb_neq in Hx, Hl.
           remember (crlf_normal (y :: t)) as v eqn:Hv.
           split; [|split].
           ++ destruct v as [|a v'].
              ** cbn [crlf_normal]. now rewrite Hx, Hl.
              ** rewrite crlf_normal_two, Hx, Hl. now rewrite H1.
           ++ cbn [bare_newline_free]. now rewrite Hx, Hl, H2.
           ++ cbn [forallb]. now rewrite H3.
Qed.

(** Normalizing twice is normalizing once. *)
Lemma normalizeLineEndings_idempotent text :
  normalizeLineEndings (Some (normalizeLineEndings text))
  = normalizeLineEndings text.
Proof.
  rewrite !normalizeLineEndings_crlf_normal.
  destruct (crlf_normal (js_or text [])) eqn:H; [reflexivity|].
  cbn [js_or]. rewrite <- H.
  now apply (crlf_normal_facts _ _ (le_n _)).
Qed.

(** Whatever the line endings of the text, its normal form has CR LF only. *)
Lemma normalizeLineEndings_crlf_only text :
  bare_newline_free (normalizeLineEndings text) = true.
Proof.
  rewrite normalizeLineEndings_crlf_normal.
  now apply (crlf_normal_facts _ _ (le_n _)).
Qed.

(** A body is blank after normalization exactly when it is blank before. *)
Lemma trim_normalizeLineEndings text :
  trim (normalizeLineEndings text) = [] <-> trim (js_or text []) = [].
Proof.
  rewrite !trim_empty, normalizeLineEndings_crlf_normal.
  destruct (crlf_normal_facts _ (js_or text []) (le_n _)) as (_ & _ & H).
  now rewrite H.
Qed.

End LineEndingFacts.

(* ------------------------------------------------------------------ *)
(** ** Multipart structures *)

Module StructureFacts.
Import Eml Props Shapes Examples StringFacts Base64 Utf8 Base64Facts
  Utf8Facts CodecFacts SanitizerFacts HeaderFacts AssemblerFacts BranchFacts
  LineEndingFacts.

Lemma headers_not_content_type host message headers :
  pure_result (buildEmlFromMessage_headers host message) headers ->
  forallb not_content_type headers = true.
Proof.
  intros Hheaders.
  destruct (buildEmlFromMessage_headers_pure host message)
    as [headers' [Hpure [_ Hall]]].
  assert (headers' = headers) as ->.
  { specialize (Hheaders Examples.initial_world).
    specialize (Hpure Examples.initial_world). congruence. }
  apply forallb_forall. intros h Hh.
  destruct (Hall h Hh) as [name [value [-> [Hname _]]]].
  now apply field_name_facts.
Qed.

(** The payload of a body in lines. *)
Lemma payload_of_lines content :
  exists lines,
    payload_of content = join CRLF lines
    /\ payload_lines lines (Some content).
Proof.
  unfold payload_of.
  destruct (wrapBase64_lines
              (Base64.encode
                 (TextEncoder_encode (normalizeLineEndings (Some content)))))
    as [lines (Hjoin & Hconcat & Hwidth & _)].
  exists lines. split; [exact Hjoin|]. unfold payload_lines.
  rewrite Hconcat. split; [exact Hwidth|]. split.
  - apply forallb_forall. apply Forall_forall. apply encode_base64_chars.
  - apply decode_encode, TextEncoder_encode_octets.
Qed.

Lemma normalize_body (body : option jsstring) :
  normalizeLineEndings (Some (normalizeLineEndings (Some (js_or body []))))
  = normalizeLineEndings body.
Proof.
  rewrite normalizeLineEndings_idempotent.
  rewrite !normalizeLineEndings_crlf_normal. now rewrite js_or_some.
Qed.

Lemma hasText_trim message :
  trim (js_or (opt_chain message Message.bodyContent) []) <> [] ->
  hasText message = true.
Proof.
  intros H. unfold hasText, bodyText.
  apply negb_true_iff, is_empty_false. intros Hn.
  apply trim_normalizeLineEndings in Hn. now rewrite js_or_some in Hn.
Qed.

Lemma hasHtml_trim message :
  trim (js_or (opt_chain message Message.bodyContentHTML) []) <> [] ->
  hasHtml message = true.
Proof.
  intros H. unfold hasHtml, bodyHtml.
  apply negb_true_iff, is_empty_false. intros Hn.
  apply trim_normalizeLineEndings in Hn. now rewrite js_or_some in Hn.
Qed.

(** C3.  A message whose plain-text body and whose HTML body are both
    non-empty after trimming, and that has no attachment, is assembled
    with [multipart/alternative] as its one [Content-Type] header, and its
    body is exactly two parts between the delimiters of one boundary: a
    [text/plain] part and a [text/html] part, each in base64 with lines of
    at most 76 characters that decode to the UTF-8 octets of the body. *)
Theorem multipart_alternative (host : Host) (message : option Message.t)
  (w : World) :
  trim (js_or (opt_chain message Message.bodyContent) []) <> [] ->
  trim (js_or (opt_chain message Message.bodyContentHTML) []) <> [] ->
  message_attachments message = [] ->
  exists headers tail plain html w',
    buildEmlFromMessage host message w
    = Returns
        (join CRLF
           (headers
            ++ [content_type_multipart (js "alternative") (js "alt-" ++ tail)])
         ++ CRLF ++ CRLF
         ++ join CRLF
              ([delimiter (js "alt-" ++ tail)]
               ++ part_with (js "text/plain") (join CRLF plain)
               ++ [delimiter (js "alt-" ++ tail)]
               ++ part_with (js "text/html") (join CRLF html)
               ++ [close_delimiter (js "alt-" ++ tail)])) w'
    /\ forallb not_content_type headers = true
    /\ payload_lines plain (opt_chain message Message.bodyContent)
    /\ payload_lines html (opt_chain message Message.bodyContentHTML).
Proof.
  intros Htext Hhtml Hatt.
  apply hasText_trim in Htext. apply hasHtml_trim in Hhtml.
  destruct (buildEmlFromMessage_headers_pure host message)
    as [headers [Hheaders _]].
  destruct (alternative_branch host message w headers Hheaders Hatt)
    as [tail [Hrun _]]; [now rewrite Htext, Hhtml|].
  destruct (payload_of_lines (bodyText message)) as [plain [Hplain Lplain]].
  destruct (payload_of_lines (bodyHtml message)) as [html [Hhtml' Lhtml]].
  exists headers, tail, plain, html. eexists.
  split; [|split; [|split]].
  - rewrite Hrun. unfold alternative_parts, text_part.
    now rewrite Hplain, Hhtml'.
  - now apply (headers_not_content_type host message).
  - unfold payload_lines in *. unfold bodyText in Lplain.
    now rewrite normalize_body in Lplain.
  - unfold payload_lines in *. unfold bodyHtml in Lhtml.
    now rewrite normalize_body in Lhtml.
Qed.

(** C3, witness: the message with both bodies. *)
Lemma multipart_alternative_witness :
  exists headers tail plain html w',
    buildEmlFromMessage sample_host (Some both_bodies) initial_world
    = Returns
        (join CRLF
           (headers
            ++ [content_type_multipart (js "alternative") (js "alt-" ++ tail)])
         ++ CRLF ++ CRLF
         ++ join CRLF
              ([delimiter (js "alt-" ++ tail)]
               ++ part_with (js "text/plain") (join CRLF plain)
               ++ [delimiter (js "alt-" ++ tail)]
               ++ part_with (js "text/html") (join CRLF html)
               ++ [close_delimiter (js "alt-" ++ tail)])) w'
    /\ forallb not_content_type headers = true
    /\ payload_lines plain (Message.bodyContent both_bodies)
    /\ payload_lines html (Message.bodyContentHTML both_bodies).
Proof.
  apply (multipart_alternative sample_host (Some both_bodies) initial_world).
  - vm_compute. discriminate.
  - vm_compute. discriminate.
  - reflexivity.
Defined.

Lemma buildAttachmentPart_has_payload attachment :
  if has_payload attachment
  then exists part, buildAttachmentPart attachment = Some part
  else buildAttachmentPart attachment = None.
Proof.
  unfold has_payload, buildAttachmentPart.
  destruct (is_empty
              (extractBase64
                 (js_or (opt_chain attachment Attachment.contentBase64) [])));
    cbn [negb]; [reflexivity|eauto].
Qed.

(** The blocks of the attachments are the parts of those that have
    content, each after a delimiter. *)
Lemma attachment_blocks boundary attachments :
  exists parts,
    flat_map (attachment_block boundary) attachments
    = flat_map (fun part => delimiter boundary :: part) parts
    /\ Forall2 (fun attachment part => buildAttachmentPart attachment = Some part)
         (filter has_payload attachments) parts.
Proof.
  induction attachments as [|a l [parts [Hflat Hparts]]].
  - exists []. split; [reflexivity|constructor].
  - cbn [flat_map filter]. unfold attachment_block at 1.
    pose proof (buildAttachmentPart_has_payload a) as Ha.
    destruct (has_payload a).
    + destruct Ha as [part Ha]. rewrite Ha.
      exists (part :: parts). split.
      * cbn [flat_map]. now rewrite Hflat.
      * now constructor.
    + rewrite Ha. exists parts. now split.
Qed.

(** C2.  A message with at least one attachment is assembled with
    [multipart/mixed] as its one [Content-Type] header; its body is the
    body part followed by one part, after a delimiter, for each attachment
    whose extracted payload is not empty, in order, and the closing
    delimiter; an attachment without payload adds nothing and nothing is
    raised. *)
Theorem multipart_mixed (host : Host) (message : option Message.t) (w : World) :
  message_attachments message <> [] ->
  exists headers tail first parts w',
    buildEmlFromMessage host message w
    = Returns
        (join CRLF
           (headers ++ [content_type_multipart (js "mixed") (js "mixed-" ++ tail)])
         ++ CRLF ++ CRLF
         ++ join CRLF
              ([delimiter (js "mixed-" ++ tail)] ++ first
               ++ flat_map (fun part => delimiter (js "mixed-" ++ tail) :: part)
                    parts
               ++ [close_delimiter (js "mixed-" ++ tail)])) w'
    /\ forallb not_content_type headers = true
    /\ is_body_part first
    /\ Forall2 (fun attachment part => buildAttachmentPart attachment = Some part)
         (filter has_payload (message_attachments message)) parts
    /\ List.length parts
       = List.length (filter has_payload (message_attachments message)).
Proof.
  intros Hatt.
  destruct (buildEmlFromMessage_headers_pure host message)
    as [headers [Hheaders _]].
  destruct (mixed_branch host message w headers Hheaders Hatt)
    as [tail [first [w' [Hrun [_ Hfirst]]]]].
  destruct (attachment_blocks (js "mixed-" ++ tail) (message_attachments message))
    as [parts [Hflat Hparts]].
  exists headers, tail, first, parts, w'.
  split; [|split; [|split; [|split]]].
  - rewrite Hrun. now rewrite Hflat.
  - now apply (headers_not_content_type host message).
  - exact Hfirst.
  - exact Hparts.
  - symmetry. eapply Forall2_length. exact Hparts.
Qed.

(** C2, witness: two attachments, one of them without payload. *)
Lemma multipart_mixed_witness :
  exists headers tail first parts w',
    buildEmlFromMessage sample_host
      (Some (with_attachments [Some logo; Some hollow])) initial_world
    = Returns
        (join CRLF
           (headers ++ [content_type_multipart (js "mixed") (js "mixed-" ++ tail)])
         ++ CRLF ++ CRLF
         ++ join CRLF
              ([delimiter (js "mixed-" ++ tail)] ++ first
               ++ flat_map (fun part => delimiter (js "mixed-" ++ tail) :: part)
                    parts
               ++ [close_delimiter (js "mixed-" ++ tail)])) w'
    /\ forallb not_content_type headers = true
    /\ is_body_part first
    /\ Forall2 (fun attachment part => buildAttachmentPart attachment = Some part)
         [Some logo] parts
    /\ List.length parts = 1%nat.
Proof.
  apply (multipart_mixed sample_host
           (Some (with_attachments [Some logo; Some hollow])) initial_world).
  discriminate.
Defined.

End StructureFacts.

(* ------------------------------------------------------------------ *)
(** ** Lines of the output *)

Module LineFacts.
Import Eml Props Shapes Examples StringFacts Base64 Utf8 Base64Facts
  Utf8Facts CodecFacts SanitizerFacts HeaderFacts AssemblerFacts BranchFacts
  LineEndingFacts StructureFacts.





Lemma single_line_block e : single_line e = true -> is_block e.
Proof.
  intros H. exists [e]. split; [discriminate|]. split; [reflexivity|].
  cbn [forallb]. now rewrite H.
Qed.

(** A wrapped payload free of CR and LF is a block. *)
Lemma wrapBase64_block base64 :
  single_line base64 = true -> is_block (wrapBase64 base64).
Proof.
  intros H.
  destruct (wrapBase64_lines base64) as [lines (Hjoin & _ & _ & Hin & Hfirst)].
  destruct base64 as [|c t] eqn:Hb.
  - exists [[]]. split; [discriminate|]. now split.
  - rewrite <- Hb in *. exists lines. split; [|split; [exact Hjoin|]].
    + destruct Hfirst as [first [rest [-> _]]]; [now subst|discriminate].
    + apply forallb_forall. intros l Hl. apply single_line_in. intros x Hx.
      rewrite single_line_in in H. apply H. eapply Hin; eauto.
Qed.

Lemma payload_of_block content : is_block (payload_of content).
Proof. apply wrapBase64_block, base64_single_line. Qed.

Ltac each_element := repeat first [apply Forall_nil | apply Forall_cons].

Ltac one_line :=
  solve [ apply single_line_block;
          repeat (apply single_line_app; split);
          first [reflexivity | assumption] ].

Lemma text_part_blocks contentType content :
  single_line contentType = true ->
  Forall is_block (text_part contentType content).
Proof.
  intros H. unfold text_part, part_with.
  each_element; try one_line. apply payload_of_block.
Qed.

Lemma alternative_parts_blocks boundary text html :
  single_line boundary = true ->
  Forall is_block (alternative_parts boundary text html).
Proof.
  intros H. unfold alternative_parts, delimiter, close_delimiter.
  repeat (apply Forall_app; split);
    try (apply text_part_blocks; reflexivity);
    each_element; one_line.
Qed.

Lemma body_part_blocks first : is_body_part first -> Forall is_block first.
Proof.
  intros [[contentType [content [Hin ->]]]|[tail [text [html [Htail ->]]]]].
  - apply text_part_blocks. destruct Hin as [<-|[<-|[]]]; reflexivity.
  - apply Forall_app. split.
    + unfold content_type_multipart. each_element; one_line.
    + apply alternative_parts_blocks.
      apply single_line_app. now split.
Qed.








Lemma join_first_line lines c t :
  join CRLF lines = c :: t -> not_newline c = true ->
  exists first rest, lines = first :: rest /\ first <> [].
Proof.
  intros Hjoin Hc. destruct lines as [|first rest]; [discriminate|].
  exists first, rest. split; [reflexivity|]. intros ->.
  destruct rest as [|l rest]; [discriminate|].
  rewrite join_cons in Hjoin by discriminate.
  cbn [app CRLF] in Hjoin. injection Hjoin as <- _. discriminate.
Qed.

Lemma join_head sep c p rest :
  exists t, join sep ((c :: p) :: rest) = c :: t.
Proof. destruct rest; cbn [join app]; eauto. Qed.





















(** The same message, exported: the payload of each body is the base64
    text of the body with CR LF in the place of its LF or CR. *)
Lemma both_bodies_attached_exported :
  exists eml w',
    buildEmlFromMessage sample_host (Some both_bodies_attached) initial_world
    = Returns eml w'
    /\ eml
       = join CRLF
           [js "Subject: Both";
            js "From: Ann <a@x.com>";
            js "To: <b@y.com>";
            js "Date: Thu, 01 Jan 1970 00:00:00 GMT";
            js "MIME-Version: 1.0";
            content_type_multipart (js "mixed") (js "mixed-1700000000000-3a7f");
            [];
            js "--mixed-1700000000000-3a7f";
            content_type_multipart (js "alternative")
              (js "alt-1700000000000-3a7f");
            [];
            js "--alt-1700000000000-3a7f";
            content_type_text_plain;
            js "Content-Transfer-Encoding: base64";
            [];
            js "SGkNCnRoZXJl";
            js "--alt-1700000000000-3a7f";
            js "Content-Type: text/html; charset=" ++ [DQUOTE] ++ js "utf-8"
              ++ [DQUOTE];
            js "Content-Transfer-Encoding: base64";
            [];
            js "PGI+SGk8L2I+DQp0aGVyZQ==";
            js "--alt-1700000000000-3a7f--";
            js "--mixed-1700000000000-3a7f";
            js "Content-Type: image/png; name=" ++ [DQUOTE] ++ js "logo.png"
              ++ [DQUOTE];
            js "Content-Transfer-Encoding: base64";
            js "Content-Disposition: attachment; filename=" ++ [DQUOTE]
              ++ js "logo.png" ++ [DQUOTE];
            [];
            js "QUJD";
            js "--mixed-1700000000000-3a7f--"]
    /\ Base64.decode (js "SGkNCnRoZXJl")
       = Some (TextEncoder_encode (js "Hi" ++ CRLF ++ js "there"))
    /\ Base64.decode (js "PGI+SGk8L2I+DQp0aGVyZQ==")
       = Some (TextEncoder_encode (js "<b>Hi</b>" ++ CRLF ++ js "there")).
Proof.
  eexists. eexists.
  split; [vm_compute; reflexivity|].
  split; [vm_compute; reflexivity|].
  split; vm_compute; reflexivity.
Qed.


(** The media type and the payload of an attachment are copied as they
    are: a bare LF in the payload is a bare LF in the output. *)
Lemma attachment_payload_copied :
  exists eml w',
    buildEmlFromMessage sample_host
      (Some (with_attachments [Some two_lines])) initial_world
    = Returns eml w'
    /\ bare_newline_free eml = false
    /\ eml
       = join CRLF
           [js "Subject: Files";
            js "From: <a@x.com>";
            js "MIME-Version: 1.0";
            content_type_multipart (js "mixed") (js "mixed-1700000000000-3a7f");
            [];
            js "--mixed-1700000000000-3a7f";
            content_type_text_plain;
            js "Content-Transfer-Encoding: base64";
            [];
            js "SGk=";
            js "--mixed-1700000000000-3a7f";
            js "Content-Type: text/plain; name=" ++ [DQUOTE] ++ js "notes.txt"
              ++ [DQUOTE];
            js "Content-Transfer-Encoding: base64";
            js "Content-Disposition: attachment; filename=" ++ [DQUOTE]
              ++ js "notes.txt" ++ [DQUOTE];
            [];
            js "QUJD" ++ [LF] ++ js "REVG";
            js "--mixed-1700000000000-3a7f--"].
Proof.
  eexists. eexists.
  split; [vm_compute; reflexivity|].
  split; vm_compute; reflexivity.
Qed.

End LineFacts.

(* ------------------------------------------------------------------ *)
(** ** Fixed points of the sanitizers *)

Module FixedPointFacts.
Import Eml Props LineEndings StringFacts SanitizerFacts AssemblerFacts
  LineEndingFacts.

(** *** [trim] once more *)

(** What follows the leading white space survives [trim] when it starts
    and ends with something else. *)
Lemma trim_app pre c t d :
  is_whitespace c = false -> is_whitespace d = false ->
  trim (pre ++ (c :: t) ++ [d]) = trimStart pre ++ (c :: t) ++ [d].
Proof.
  intros Hc Hd. unfold trim. cbn [app]. rewrite trimStart_app by exact Hc.
  change (trimStart pre ++ c :: t ++ [d])
    with (trimStart pre ++ (c :: t) ++ [d]).
  rewrite app_assoc. now apply trimEnd_last.
Qed.

(** *** Replacements that find nothing to replace *)

Lemma replace_class_none p r s :
  (forall c, In c s -> p c = false) -> replace_class p r s = s.
Proof.
  unfold replace_class. induction s as [|x s IH]; intros H; cbn [flat_map];
    [reflexivity|].
  rewrite (H x) by now left. cbn [app]. f_equal. apply IH.
  intros c Hc. apply H. now right.
Qed.

Lemma remove_triples_none a b c s :
  ~ In c s -> remove_triples a b c s = s.
Proof.
  induction s as [|x t1 IH]; intros H; [reflexivity|].
  assert (Ht : remove_triples a b c t1 = t1)
    by (apply IH; intros Hc; apply H; now right).
  destruct t1 as [|y [|z t3]]; cbn [remove_triples] in *; try now rewrite ?Ht.
  replace (z =? c) with false.
  - rewrite andb_false_r. now rewrite Ht.
  - symmetry. apply N.eqb_neq. intros ->. apply H. right. right. now left.
Qed.

Lemma drop_leading_none c s :
  ~ In c s -> drop_leading c s = s.
Proof.
  destruct s as [|x t]; [reflexivity|]. intros H. cbn [drop_leading].
  replace (x =? c) with false; [reflexivity|].
  symmetry. apply N.eqb_neq. intros ->. apply H. now left.
Qed.

Lemma remove_drive_prefix_none s :
  ~ In 58 s -> remove_drive_prefix s = s.
Proof.
  intros H. unfold remove_drive_prefix.
  destruct (prefix_matches drive_prefix s) eqn:Hp; [|reflexivity].
  exfalso. apply H. unfold drive_prefix in Hp.
  destruct s as [|x [|y t]]; cbn [prefix_matches] in Hp; try discriminate;
    [now rewrite andb_false_r in Hp|].
  apply andb_true_iff in Hp as [_ Hp]. apply andb_true_iff in Hp as [Hy _].
  apply N.eqb_eq in Hy. subst y. right. now left.
Qed.

(** A name made of safe characters that is already trimmed passes the
    chain of replacements unchanged. *)
Lemma sanitizeFilename_chain_fixed s :
  (forall c, In c s ->
     is_control c = false /\ is_illegal c = false /\ is_separator c = false) ->
  trim s = s ->
  sanitizeFilename_chain (Some s) = s.
Proof.
  intros H Ht. unfold sanitizeFilename_chain. rewrite js_or_some.
  assert (Hsep : forall c, In c s -> is_separator c = false)
    by (intros c Hc; now apply H).
  assert (Hno : forall c, is_separator c = true -> ~ In c s)
    by (intros c Hc Hin; apply Hsep in Hin; congruence).
  rewrite (remove_triples_none _ _ SLASH) by (apply Hno; reflexivity).
  rewrite (remove_triples_none _ _ BACKSLASH) by (apply Hno; reflexivity).
  rewrite drop_leading_none by (apply Hno; reflexivity).
  rewrite remove_drive_prefix_none
    by (intros Hin; apply H in Hin as (_ & Hi & _); discriminate).
  rewrite (replace_class_none is_control) by (intros c Hc; now apply H).
  rewrite (replace_class_none is_illegal) by (intros c Hc; now apply H).
  rewrite (replace_class_none is_separator) by (intros c Hc; now apply H).
  exact Ht.
Qed.

Lemma sanitizeHeaderValue_fixed s :
  test_class is_control s = false -> trim s = s ->
  sanitizeHeaderValue (Some s) = s.
Proof.
  intros H Ht. unfold sanitizeHeaderValue. rewrite js_or_some.
  rewrite replace_class_none by now apply test_class_false.
  unfold replace_runs. rewrite replace_runs_from_none; [exact Ht|].
  intros c Hc. apply (proj1 (test_class_false _ _) H) in Hc.
  unfold is_control in Hc. apply orb_false_iff in Hc as [Hc _].
  unfold is_cr_lf, CR, LF. nlia.
Qed.

Lemma sanitizeHeaderValue_twice value :
  sanitizeHeaderValue (Some (sanitizeHeaderValue value))
  = sanitizeHeaderValue value.
Proof.
  apply sanitizeHeaderValue_fixed.
  - apply test_class_false. intros c. apply sanitizeHeaderValue_chars.
  - unfold sanitizeHeaderValue. apply trim_idempotent.
Qed.

(** X1 (sanitizeHeaderValue).  Header-value sanitation is idempotent: a
    sanitized value is free of control characters and trimmed, so that a
    second pass, as [encodeHeaderWord] makes on a name [formatAddress] has
    already sanitized, returns it unchanged. *)
Theorem sanitizeHeaderValue_idempotent (value : option jsstring) :
  let clean := sanitizeHeaderValue value in
  sanitizeHeaderValue (Some clean) = clean
  /\ trim clean = clean
  /\ test_class is_control clean = false.
Proof.
  cbn zeta. split; [apply sanitizeHeaderValue_twice|split].
  - unfold sanitizeHeaderValue. apply trim_idempotent.
  - apply test_class_false. intros c. apply sanitizeHeaderValue_chars.
Qed.

Lemma sanitizeFilename_twice filename :
  sanitizeFilename (Some (sanitizeFilename filename))
  = sanitizeFilename filename.
Proof.
  destruct (sanitizeFilename_cases filename) as [[Hne ->]|[_ ->]];
    [|reflexivity].
  unfold sanitizeFilename at 1.
  rewrite sanitizeFilename_chain_fixed.
  - destruct (sanitizeFilename_chain filename); [congruence|reflexivity].
  - intros c. apply sanitizeFilename_chain_chars.
  - unfold sanitizeFilename_chain. apply trim_idempotent.
Qed.

(** X2 (sanitizeFilename).  File-name sanitation is idempotent: the name
    it returns, the fallback name included, is one it leaves unchanged.
    More generally it leaves alone every name that is not empty, is
    trimmed, and holds no control character, no illegal character and no
    separator. *)
Theorem sanitizeFilename_idempotent (filename : option jsstring) :
  sanitizeFilename (Some (sanitizeFilename filename))
  = sanitizeFilename filename
  /\ (forall name,
        name <> [] -> trim name = name ->
        test_class is_control name = false ->
        test_class is_illegal name = false ->
        test_class is_separator name = false ->
        sanitizeFilename (Some name) = name).
Proof.
  split; [apply sanitizeFilename_twice|].
  intros name Hne Htrim Hc Hi Hs. unfold sanitizeFilename.
  rewrite sanitizeFilename_chain_fixed; [|intros c Hin|exact Htrim].
  - destruct name; [congruence|reflexivity].
  - rewrite test_class_false in Hc, Hi, Hs. auto.
Qed.

(** *** Line endings *)

Lemma crlf_normal_fixed n : forall s,
  (List.length s <= n)%nat ->
  bare_newline_free s = true -> crlf_normal s = s.
Proof.
  induction n as [|n IH]; intros s Hlen H.
  - destruct s; [reflexivity|cbn in Hlen; lia].
  - destruct s as [|c t]; [reflexivity|].
    cbn [bare_newline_free] in H. cbn [crlf_normal].
    destruct (c =? CR) eqn:Hc.
    + destruct t as [|d t']; [discriminate|].
      apply andb_true_iff in H as [Hd H]. rewrite Hd.
      apply N.eqb_eq in Hc, Hd. subst c d.
      rewrite IH; [reflexivity| |exact H]. cbn [List.length] in Hlen. lia.
    + apply andb_true_iff in H as [Hl H]. apply negb_true_iff in Hl.
      rewrite Hl. rewrite IH; [reflexivity| |exact H].
      cbn [List.length] in Hlen. lia.
Qed.

(** X3 (normalizeLineEndings).  Line-ending normalization is idempotent,
    its result holds no CR without LF and no LF without CR, and the texts it
    leaves unchanged are exactly those in which every line ending is
    already CR LF. *)
Theorem normalizeLineEndings_fixed_points (text : option jsstring) :
  normalizeLineEndings (Some (normalizeLineEndings text))
  = normalizeLineEndings text
  /\ bare_newline_free (normalizeLineEndings text) = true
  /\ (normalizeLineEndings text = js_or text []
      <-> bare_newline_free (js_or text []) = true).
Proof.
  split; [apply normalizeLineEndings_idempotent|].
  split; [apply normalizeLineEndings_crlf_only|].
  split.
  - intros <-. apply normalizeLineEndings_crlf_only.
  - intros H. rewrite normalizeLineEndings_crlf_normal.
    now apply (crlf_normal_fixed (List.length (js_or text []))).
Qed.

End FixedPointFacts.

(* ------------------------------------------------------------------ *)
(** ** Payloads: wrapping, extraction and the two encoders *)

Module PayloadFacts.
Import Eml Props StringFacts Base64 Utf8 Base64Facts Utf8Facts CodecFacts.

Lemma slices_nil fuel width : slices fuel width [] = [].
Proof. now destruct fuel. Qed.

(** The loop cuts full lines and leaves the remainder as the last one. *)
Lemma slices_full_lines fuel width : forall s,
  (0 < width)%nat -> (List.length s <= fuel)%nat -> s <> [] ->
  exists full last,
    slices fuel width s = full ++ [last]
    /\ List.concat full ++ last = s
    /\ Forall (fun l => List.length l = width) full
    /\ (1 <= List.length last <= width)%nat.
Proof.
  induction fuel as [|fuel IH]; intros s Hw Hlen Hs.
  - destruct s; [congruence|cbn in Hlen; lia].
  - destruct s as [|c t]; [congruence|]. cbn [slices].
    destruct (skipn width (c :: t)) as [|d u] eqn:Hskip.
    + exists [], (firstn width (c :: t)). rewrite slices_nil.
      assert (Hall : firstn width (c :: t) = c :: t).
      { rewrite <- (firstn_skipn width (c :: t)) at 2.
        rewrite Hskip. now rewrite app_nil_r. }
      rewrite Hall. repeat split; [constructor|cbn [List.length]; lia|].
      rewrite <- Hall. rewrite length_firstn. lia.
    + destruct (IH (d :: u) Hw) as (full & last & Hsl & Hcat & Hfull & Hlast);
        [|discriminate|].
      { rewrite <- Hskip, length_skipn. cbn [List.length] in *. lia. }
      exists (firstn width (c :: t) :: full), last. rewrite Hsl.
      repeat split; try apply Hlast.
      * cbn [List.concat]. rewrite <- app_assoc, Hcat, <- Hskip.
        apply firstn_skipn.
      * constructor; [|exact Hfull]. rewrite length_firstn.
        assert (List.length (skipn width (c :: t)) <> 0)%nat
          by (rewrite Hskip; discriminate).
        rewrite length_skipn in H. lia.
Qed.

(** X4 (wrapBase64).  Wrapping cuts a non-empty text into lines of exactly
    76 code units followed by a last line of 1 to 76, joined by CR LF and
    without a CR LF at the end; the lines put together again are the text.
    A text of at most 76 code units is returned as it is, and the empty text
    gives the empty string. *)
Theorem wrapBase64_full_lines (base64 : jsstring) :
  base64 <> [] ->
  exists full last,
    wrapBase64 base64 = join CRLF (full ++ [last])
    /\ List.concat full ++ last = base64
    /\ Forall (fun l => List.length l = 76%nat) full
    /\ (1 <= List.length last <= 76)%nat
    /\ ((List.length base64 <= 76)%nat -> wrapBase64 base64 = base64)
    /\ wrapBase64 [] = [].
Proof.
  intros Hne.
  destruct (slices_full_lines (List.length base64) BASE64_LINE_LENGTH base64)
    as (full & last & Hsl & Hcat & Hfull & Hlast);
    [unfold BASE64_LINE_LENGTH; lia|lia|exact Hne|].
  exists full, last. unfold wrapBase64.
  destruct base64 as [|c t]; [congruence|]. cbn [is_empty]. rewrite Hsl.
  repeat split; try assumption; try apply Hlast.
  intros Hshort. destruct full as [|l full].
  - cbn [app join]. now rewrite <- Hcat.
  - exfalso. inversion Hfull as [|? ? Hl _]. subst.
    rewrite <- Hcat in Hshort. cbn [List.concat] in Hshort.
    rewrite !length_app, Hl in Hshort.
    unfold BASE64_LINE_LENGTH in *. lia.
Qed.

(** X4, witness: a text of four characters. *)
Lemma wrapBase64_full_lines_witness :
  exists full last,
    wrapBase64 (js "QUJD") = join CRLF (full ++ [last])
    /\ List.concat full ++ last = js "QUJD"
    /\ Forall (fun l => List.length l = 76%nat) full
    /\ (1 <= List.length last <= 76)%nat
    /\ ((List.length (js "QUJD") <= 76)%nat -> wrapBase64 (js "QUJD") = js "QUJD")
    /\ wrapBase64 [] = [].
Proof. apply (wrapBase64_full_lines (js "QUJD")). discriminate. Defined.

(** *** [extractBase64] *)

Lemma indexOf_none c s : test_class (N.eqb c) s = false -> indexOf c s = None.
Proof.
  unfold test_class. induction s as [|x s IH]; cbn [existsb indexOf];
    [reflexivity|].
  intros H. apply orb_false_iff in H as [Hx Hs].
  rewrite N.eqb_sym in Hx. rewrite Hx, (IH Hs). reflexivity.
Qed.

Lemma indexOf_first c prefix rest :
  test_class (N.eqb c) prefix = false ->
  indexOf c (prefix ++ c :: rest) = Some (List.length prefix).
Proof.
  unfold test_class. induction prefix as [|x s IH]; cbn [existsb indexOf app].
  - intros _. now rewrite N.eqb_refl.
  - intros H. apply orb_false_iff in H as [Hx Hs].
    rewrite N.eqb_sym in Hx. rewrite Hx, (IH Hs). reflexivity.
Qed.

Lemma skipn_past {A : Type} (prefix : list A) c rest :
  skipn (S (List.length prefix)) (prefix ++ c :: rest) = rest.
Proof. induction prefix as [|x s IH]; [reflexivity|exact IH]. Qed.

(** X5 (extractBase64).  The payload of a data URL is what follows its
    first comma, later commas included; a string without a comma is taken
    to be the payload itself. *)
Theorem extractBase64_first_comma (prefix payload : jsstring) :
  test_class (N.eqb 44) prefix = false ->
  extractBase64 (prefix ++ js "," ++ payload) = payload
  /\ extractBase64 prefix = prefix.
Proof.
  intros H. unfold extractBase64. split.
  - change (js ",") with [44]. cbn [app].
    rewrite (indexOf_first 44 prefix payload H).
    replace (is_empty (prefix ++ 44 :: payload)) with false
      by now destruct prefix.
    unfold slice_from. rewrite Nat.add_1_r. apply skipn_past.
  - rewrite (indexOf_none 44 prefix H). now destruct prefix.
Qed.

(** X5, witness: a data URL whose payload holds a comma of its own. *)
Lemma extractBase64_first_comma_witness :
  extractBase64 (js "data:image/png;base64" ++ js "," ++ js "QUJD,REVG")
  = js "QUJD,REVG"
  /\ extractBase64 (js "data:image/png;base64") = js "data:image/png;base64".
Proof.
  apply (extractBase64_first_comma (js "data:image/png;base64") (js "QUJD,REVG")).
  reflexivity.
Defined.

(** *** The two encoders *)

Lemma encode_length octets :
  List.length (Base64.encode octets)
  = (4 * ((List.length octets + 2) / 3))%nat.
Proof.
  induction octets as [| | |a b c l IH] using list_ind3; try reflexivity.
  cbn [Base64.encode List.length]. rewrite IH.
  replace (S (S (S (List.length l))) + 2)%nat
    with (List.length l + 2 + 1 * 3)%nat by lia.
  rewrite Nat.div_add by discriminate. lia.
Qed.

(** X6 (base64EncodeBytes).  The chunks of 0x8000 octets in which the
    array is turned into a binary string do not show in the result: for
    an array of octets of any length it is the base64 text of the whole
    array, four characters for every three octets begun, and decodes to the
    array. *)
Theorem base64EncodeBytes_whole_array (bytes : list N) (w : World) :
  Forall (fun b => b < 256) bytes ->
  base64EncodeBytes bytes w = Returns (Base64.encode bytes) w
  /\ List.length (Base64.encode bytes)
     = (4 * ((List.length bytes + 2) / 3))%nat
  /\ forallb is_base64_char (Base64.encode bytes) = true
  /\ Base64.decode (Base64.encode bytes) = Some bytes.
Proof.
  intros H. split; [now apply base64EncodeBytes_returns|].
  split; [apply encode_length|]. split; [|now apply decode_encode].
  apply forallb_forall. apply Forall_forall. apply encode_base64_chars.
Qed.

(** X6, witness: four octets. *)
Lemma base64EncodeBytes_whole_array_witness :
  base64EncodeBytes [0; 255; 10; 65] Examples.initial_world
  = Returns (js "AP8KQQ==") Examples.initial_world
  /\ List.length (js "AP8KQQ==") = 8%nat
  /\ forallb is_base64_char (js "AP8KQQ==") = true
  /\ Base64.decode (js "AP8KQQ==") = Some [0; 255; 10; 65].
Proof.
  apply (base64EncodeBytes_whole_array [0; 255; 10; 65] Examples.initial_world).
  repeat constructor.
Defined.

(** The scalar values of a string of sixteen-bit code units. *)
Lemma scalar_values_scalars n : forall s,
  (List.length s <= n)%nat ->
  Forall (fun c => c < 65536) s ->
  forallb is_scalar (scalar_values s) = true.
Proof.
  induction n as [|n IH]; intros s Hlen H.
  - destruct s; [reflexivity|cbn in Hlen; lia].
  - destruct s as [|c t]; [reflexivity|].
    inversion H as [|? ? Hc Ht]; subst. cbn [List.length] in Hlen.
    cbn [scalar_values].
    destruct (is_high_surrogate c) eqn:Hh.
    + destruct t as [|d t']; [reflexivity|].
      inversion Ht as [|? ? Hd Ht']; subst. cbn [List.length] in Hlen.
      destruct (is_low_surrogate d) eqn:Hl; cbn [forallb].
      * rewrite IH by (assumption || lia). rewrite andb_true_r.
        unfold is_scalar, is_surrogate, is_high_surrogate, is_low_surrogate in *.
        nlia.
      * rewrite IH by (assumption || (cbn [List.length]; lia)). reflexivity.
    + destruct (is_low_surrogate c) eqn:Hl; cbn [forallb].
      * rewrite IH by (assumption || lia). reflexivity.
      * rewrite IH by (assumption || lia). rewrite andb_true_r.
        unfold is_scalar, is_surrogate, is_high_surrogate, is_low_surrogate in *.
        nlia.
Qed.

(** X7 (base64EncodeUtf8).  The base64 text of a string decodes, as base64
    and then as UTF-8, to the string in which every unpaired surrogate is
    replaced by U+FFFD; it decodes to the string itself when the string is
    well-formed UTF-16.  The encoder does not raise and leaves the world
    untouched. *)
Theorem base64EncodeUtf8_round_trip (text : jsstring) (w : World) :
  Forall (fun c => c < 65536) text ->
  exists base64,
    base64EncodeUtf8 text w = Returns base64 w
    /\ forallb is_base64_char base64 = true
    /\ decode_base64_utf8 base64
       = Some (flat_map utf16_units (scalar_values text))
    /\ (well_formed text = true -> decode_base64_utf8 base64 = Some text).
Proof.
  intros H. exists (Base64.encode (TextEncoder_encode text)).
  split; [apply base64EncodeUtf8_returns|].
  split; [apply forallb_forall, Forall_forall, encode_base64_chars|].
  split; [|apply decode_base64_utf8_encode].
  unfold decode_base64_utf8.
  rewrite decode_encode by apply TextEncoder_encode_octets.
  unfold Utf8.decode, TextEncoder_encode.
  rewrite decode_scalars_encode; [reflexivity|].
  now apply (scalar_values_scalars (List.length text)).
Qed.

(** X7, witness: a string with an unpaired high surrogate. *)
Lemma base64EncodeUtf8_round_trip_witness :
  exists base64,
    base64EncodeUtf8 [72; 0xD800; 105] Examples.initial_world
    = Returns base64 Examples.initial_world
    /\ forallb is_base64_char base64 = true
    /\ decode_base64_utf8 base64 = Some [72; 0xFFFD; 105]
    /\ (well_formed [72; 0xD800; 105] = true ->
        decode_base64_utf8 base64 = Some [72; 0xD800; 105]).
Proof.
  apply (base64EncodeUtf8_round_trip [72; 0xD800; 105] Examples.initial_world).
  repeat constructor.
Defined.

End PayloadFacts.

(* ------------------------------------------------------------------ *)
(** ** Addresses *)

Module AddressFacts.
Import Eml Props Addressing Examples StringFacts Base64 Utf8 Base64Facts
  Utf8Facts CodecFacts SanitizerFacts HeaderFacts AssemblerFacts BranchFacts
  FixedPointFacts.

Lemma str_eqb_eq a : forall b, str_eqb a b = true <-> a = b.
Proof.
  induction a as [|x a IH]; intros [|y b]; cbn [str_eqb];
    try (split; [discriminate|congruence]); [now split|].
  rewrite andb_true_iff, N.eqb_eq, IH. split; [intros [-> ->]|intros H];
    [reflexivity|now injection H].
Qed.

Lemma startsWith_app prefix rest : startsWith (prefix ++ rest) prefix = true.
Proof.
  induction prefix as [|p prefix IH]; [now destruct rest|].
  cbn [app startsWith]. now rewrite N.eqb_refl, IH.
Qed.

(** The text [formatAddress] returns, by cases on the sanitized address and
    name. *)
Lemma formatAddress_cases recipient :
  let address := address_of recipient in
  let name := name_of recipient in
  pure_result (formatAddress recipient)
    (if is_empty address then []
     else if is_empty name || str_eqb name address then angle address
     else if test_class is_non_ascii name
     then (js "=?UTF-8?B?" ++ Base64.encode (TextEncoder_encode name) ++ js "?=")
          ++ js " <" ++ address ++ js ">"
     else if startsWith name (js "=?UTF-8?B?")
     then name ++ js " <" ++ address ++ js ">"
     else (if test_class needs_quoting name
           then [DQUOTE]
                ++ replace_class (N.eqb DQUOTE) [BACKSLASH; DQUOTE] name
                ++ [DQUOTE]
           else name)
          ++ js " <" ++ address ++ js ">").
Proof.
  cbn zeta. unfold formatAddress, address_of, name_of. rewrite !js_or_some.
  set (address := sanitizeHeaderValue (Some (na_address recipient))).
  set (name := sanitizeHeaderValue (Some (na_name recipient))).
  intros w.
  destruct (is_empty address); [reflexivity|].
  destruct (is_empty name || str_eqb name address) eqn:Hname; [reflexivity|].
  apply orb_false_iff in Hname as [Hne _].
  destruct (test_class is_non_ascii name) eqn:Hascii.
  - unfold encodeHeaderWord. subst name.
    rewrite sanitizeHeaderValue_twice, Hne, Hascii. cbn [negb].
    rewrite bind_assoc.
    rewrite (bind_pure _ _ _ _ (base64EncodeUtf8_pure _)).
    rewrite bind_ret. cbv beta. now rewrite startsWith_app.
  - rewrite bind_ret. cbv beta.
    destruct (startsWith name (js "=?UTF-8?B?")); reflexivity.
Qed.

(** [formatAddress] returns the empty string for a recipient without an
    address, and for no other. *)
Lemma formatAddress_nil_iff recipient :
  exists text,
    pure_result (formatAddress recipient) text
    /\ (text = [] <-> address_of recipient = []).
Proof.
  eexists. split; [apply formatAddress_cases|]. cbn zeta.
  destruct (address_of recipient) as [|a address']; cbn [is_empty];
    [now split|].
  split; [|discriminate]. intros H. exfalso.
  destruct (is_empty (name_of recipient)
            || str_eqb (name_of recipient) (a :: address'));
    [discriminate|].
  destruct (test_class is_non_ascii (name_of recipient)); [discriminate|].
  destruct (startsWith (name_of recipient) (js "=?UTF-8?B?"));
    [apply app_eq_nil in H as [_ H]; discriminate|].
  apply app_eq_nil in H as [_ H]. discriminate.
Qed.

(** X8 (formatAddress).  A mailbox is written if and only if the recipient
    has an address once it is sanitized: without one the result is the
    empty string, whatever the name; with one the result ends with the
    address between angle brackets, preceded by nothing when the name is
    empty or equal to the address, and by a display name and one space
    otherwise.  The result is one line and the function does not raise. *)
Theorem formatAddress_angle_address (recipient : NameAddress) :
  let address := address_of recipient in
  let name := name_of recipient in
  exists text,
    pure_result (formatAddress recipient) text
    /\ single_line text = true
    /\ (text = [] <-> address = [])
    /\ (address <> [] ->
        exists display,
          text = display ++ angle address
          /\ (display = [] <-> name = [] \/ name = address)
          /\ (display <> [] ->
              exists shown, shown <> [] /\ display = shown ++ js " ")).
Proof.
  cbn zeta. pose proof (formatAddress_cases recipient) as Hcases.
  cbn zeta in Hcases.
  destruct (formatAddress_pure recipient) as (text & Hpure & Hline).
  assert (Htext : text = _)
    by (specialize (Hpure Examples.initial_world);
        rewrite Hcases in Hpure; injection Hpure as Htext; symmetry;
        exact Htext).
  exists text. split; [exact Hpure|]. split; [exact Hline|].
  clear Hpure Hline Hcases.
  set (address := address_of recipient) in *.
  set (name := name_of recipient) in *.
  destruct address as [|a address'] eqn:Ha; cbn [is_empty] in Htext.
  { split; [now split|congruence]. }
  rewrite <- Ha in *.
  assert (Hshape : exists display,
             text = display ++ angle address
             /\ (display = [] <-> name = [] \/ name = address)
             /\ (display <> [] ->
                 exists shown, shown <> [] /\ display = shown ++ js " ")).
  { destruct (is_empty name || str_eqb name address) eqn:Hname.
    - exists []. split; [exact Htext|]. split; [|congruence].
      split; [intros _|reflexivity].
      apply orb_true_iff in Hname as [H|H];
        [left; now apply is_empty_true|right; now apply str_eqb_eq].
    - apply orb_false_iff in Hname as [Hne Hneq].
      apply is_empty_false in Hne.
      assert (Hnot : ~ (name = [] \/ name = address)).
      { intros [H|H]; [congruence|].
        apply str_eqb_eq in H. congruence. }
      assert (Hshown : forall shown,
                 shown <> [] ->
                 text = shown ++ js " <" ++ address ++ js ">" ->
                 exists display,
                   text = display ++ angle address
                   /\ (display = [] <-> name = [] \/ name = address)
                   /\ (display <> [] ->
                       exists shown, shown <> [] /\ display = shown ++ js " ")).
      { intros shown Hs ->. exists (shown ++ js " ").
        split; [unfold angle; now rewrite <- !app_assoc|].
        split; [|intros _; now exists shown].
        split; [|intros H; now destruct Hnot].
        intros H. now apply app_eq_nil in H as [_ H]. }
      destruct (test_class is_non_ascii name).
      { apply (Hshown (js "=?UTF-8?B?"
                       ++ Base64.encode (TextEncoder_encode name) ++ js "?="));
          [discriminate|exact Htext]. }
      destruct (startsWith name (js "=?UTF-8?B?"));
        [apply (Hshown _ Hne Htext)|].
      destruct (test_class needs_quoting name); [|apply (Hshown _ Hne Htext)].
      apply (Hshown ([DQUOTE]
                     ++ replace_class (N.eqb DQUOTE) [BACKSLASH; DQUOTE] name
                     ++ [DQUOTE]));
        [discriminate|exact Htext]. }
  split; [|intros _; exact Hshape].
  split; [|congruence]. intros ->. exfalso.
  destruct Hshape as (display & Hd & _). unfold angle in Hd.
  now destruct display.
Qed.

(** *** Quoted names *)

Lemma unquote_body_escaped name :
  test_class (N.eqb BACKSLASH) name = false ->
  unquote_body
    (replace_class (N.eqb DQUOTE) [BACKSLASH; DQUOTE] name ++ [DQUOTE])
  = Some name.
Proof.
  unfold test_class, replace_class.
  induction name as [|c t IH]; cbn [existsb flat_map]; [reflexivity|].
  intros H. apply orb_false_iff in H as [Hc Ht]. specialize (IH Ht).
  destruct (DQUOTE =? c) eqn:Hq.
  - apply N.eqb_eq in Hq. subst c. cbn [app unquote_body].
    change (BACKSLASH =? DQUOTE) with false.
    rewrite N.eqb_refl. cbn match. now rewrite IH.
  - cbn [app unquote_body]. rewrite N.eqb_sym in Hq, Hc. rewrite Hq, Hc.
    now rewrite IH.
Qed.

(** With a backslash in the name, the quoted form is not read back as the
    name: what is read is shorter, if it can be read at all. *)
Lemma unquote_body_backslash n : forall name read,
  (List.length name <= n)%nat ->
  unquote_body
    (replace_class (N.eqb DQUOTE) [BACKSLASH; DQUOTE] name ++ [DQUOTE])
  = Some read ->
  (List.length read <= List.length name)%nat
  /\ (In BACKSLASH name -> (List.length read < List.length name)%nat).
Proof.
  unfold replace_class.
  induction n as [|n IH]; intros name read Hlen.
  - destruct name; [|cbn in Hlen; lia].
    cbn. intros H. injection H as <-. split; [reflexivity|intros []].
  - destruct name as [|c t].
    { cbn. intros H. injection H as <-. split; [reflexivity|intros []]. }
    cbn [List.length] in Hlen. cbn [flat_map].
    destruct (DQUOTE =? c) eqn:Hq.
    + apply N.eqb_eq in Hq. subst c. cbn [app unquote_body].
      change (BACKSLASH =? DQUOTE) with false. rewrite N.eqb_refl. cbn match.
      destruct (unquote_body _) as [read'|] eqn:Hr; [|discriminate].
      cbn [option_map]. intros H. injection H as <-.
      destruct (IH t read' ltac:(lia) Hr) as [Hle Hlt].
      cbn [List.length]. split; [lia|].
      intros [H|H]; [discriminate|]. apply Hlt in H. lia.
    + cbn [app unquote_body]. rewrite N.eqb_sym in Hq. rewrite Hq.
      destruct (c =? BACKSLASH) eqn:Hb.
      * destruct t as [|e u]; [cbn; discriminate|].
        cbn [flat_map]. destruct (DQUOTE =? e) eqn:He.
        { cbn [app unquote_body]. rewrite N.eqb_refl.
          destruct (flat_map _ u ++ [DQUOTE]) eqn:Hu;
            [now destruct (flat_map _ u)|].
          cbn. discriminate. }
        cbn [app].
        destruct (unquote_body _) as [read'|] eqn:Hr; [|discriminate].
        cbn [option_map]. intros H. injection H as <-.
        cbn [List.length] in Hlen.
        destruct (IH u read' ltac:(lia) Hr) as [Hle _].
        cbn [List.length]. split; [lia|intros _; lia].
      * destruct (unquote_body _) as [read'|] eqn:Hr; [|discriminate].
        cbn [option_map]. intros H. injection H as <-.
        destruct (IH t read' ltac:(lia) Hr) as [Hle Hlt].
        cbn [List.length]. split; [lia|].
        intros [H|H]; [apply N.eqb_neq in Hb; congruence|].
        apply Hlt in H. lia.
Qed.

(** X9 (formatAddress).  An ASCII display name that does not begin like
    an encoded word and holds none of double quote, comma, angle brackets
    and at sign is written as it is; one that holds any of them is written
    between double quotes, with a backslash put before every double quote
    in it and every other code unit, backslashes included, copied as it
    is.  Backslashes being not escaped, the quoted form reads back as the
    name exactly when the name holds no backslash. *)
Theorem formatAddress_quoted_name (recipient : NameAddress) (w : World) :
  let address := address_of recipient in
  let name := name_of recipient in
  address <> [] -> name <> [] -> name <> address ->
  test_class is_non_ascii name = false ->
  startsWith name (js "=?UTF-8?B?") = false ->
  if test_class needs_quoting name
  then let quoted :=
         [DQUOTE]
         ++ replace_class (N.eqb DQUOTE) [BACKSLASH; DQUOTE] name
         ++ [DQUOTE] in
       formatAddress recipient w
       = Returns (quoted ++ js " <" ++ address ++ js ">") w
       /\ (unquote quoted = Some name
           <-> test_class (N.eqb BACKSLASH) name = false)
  else formatAddress recipient w
       = Returns (name ++ js " <" ++ address ++ js ">") w.
Proof.
  cbn zeta. intros Ha Hn Hneq Hascii Hstart.
  rewrite (formatAddress_cases recipient w). cbn zeta.
  apply is_empty_false in Ha, Hn. rewrite Ha, Hn, Hascii, Hstart.
  replace (str_eqb (name_of recipient) (address_of recipient)) with false
    by (symmetry; apply not_true_is_false; intros H; now apply str_eqb_eq in H).
  cbn [orb].
  destruct (test_class needs_quoting (name_of recipient)); [|reflexivity].
  cbv zeta. split; [reflexivity|].
  cbn [app unquote]. rewrite N.eqb_refl. split.
  - intros H.
    destruct (test_class (N.eqb BACKSLASH) (name_of recipient)) eqn:Hb;
      [|reflexivity].
    exfalso.
    destruct (unquote_body_backslash _ _ _ (Nat.le_refl _) H) as [_ Hlt].
    assert (Hin : In BACKSLASH (name_of recipient)).
    { unfold test_class in Hb. apply existsb_exists in Hb as (c & Hc & Heq).
      apply N.eqb_eq in Heq. now subst c. }
    apply Hlt in Hin. lia.
  - apply unquote_body_escaped.
Qed.

(** X9, witness: a name with a comma. *)
Lemma formatAddress_quoted_name_witness :
  formatAddress {| na_name := js "Doe, John"; na_address := js "j@x.com" |}
    initial_world
  = Returns (([DQUOTE] ++ js "Doe, John" ++ [DQUOTE])
             ++ js " <" ++ js "j@x.com" ++ js ">") initial_world
  /\ (unquote ([DQUOTE] ++ js "Doe, John" ++ [DQUOTE]) = Some (js "Doe, John")
      <-> test_class (N.eqb BACKSLASH) (js "Doe, John") = false).
Proof.
  apply (formatAddress_quoted_name
           {| na_name := js "Doe, John"; na_address := js "j@x.com" |}
           initial_world); (discriminate || reflexivity).
Defined.

(** X10 (formatAddress).  A display name with a code unit above 127 is
    written as one encoded word, [=?UTF-8?B?] base64 [?=], followed by a
    space and the address between angle brackets; the word is ASCII and its
    base64 content decodes to the sanitized name when that is well-formed
    UTF-16.  Such a name is never quoted. *)
Theorem formatAddress_encoded_name (recipient : NameAddress) (w : World) :
  let address := address_of recipient in
  let name := name_of recipient in
  address <> [] -> name <> address ->
  test_class is_non_ascii name = true ->
  exists content,
    formatAddress recipient w
    = Returns ((js "=?UTF-8?B?" ++ content ++ js "?=")
               ++ js " <" ++ address ++ js ">") w
    /\ forallb is_base64_char content = true
    /\ test_class is_non_ascii (js "=?UTF-8?B?" ++ content ++ js "?=") = false
    /\ (well_formed name = true -> decode_base64_utf8 content = Some name).
Proof.
  cbn zeta. intros Ha Hneq Hascii.
  rewrite (formatAddress_cases recipient w). cbn zeta.
  apply is_empty_false in Ha. rewrite Ha, Hascii.
  replace (str_eqb (name_of recipient) (address_of recipient)) with false
    by (symmetry; apply not_true_is_false; intros H; now apply str_eqb_eq in H).
  replace (is_empty (name_of recipient)) with false
    by (destruct (name_of recipient); [discriminate|reflexivity]).
  cbn [orb]. eexists. split; [reflexivity|].
  assert (Hchars : forallb is_base64_char
                     (Base64.encode (TextEncoder_encode (name_of recipient)))
                   = true)
    by apply forallb_forall, Forall_forall, encode_base64_chars.
  split; [exact Hchars|]. split; [|apply decode_base64_utf8_encode].
  apply test_class_false. intros c Hc.
  apply in_app_or in Hc as [Hc|Hc];
    [exact (proj1 (test_class_false is_non_ascii (js "=?UTF-8?B?"))
              eq_refl c Hc)|].
  apply in_app_or in Hc as [Hc|Hc];
    [|exact (proj1 (test_class_false is_non_ascii (js "?=")) eq_refl c Hc)].
  rewrite forallb_forall in Hchars. apply Hchars in Hc.
  unfold is_base64_char, value_of, PAD, is_non_ascii in *.
  destruct ((65 <=? c) && (c <=? 90)) eqn:H1; [nlia|].
  destruct ((97 <=? c) && (c <=? 122)) eqn:H2; [nlia|].
  destruct ((48 <=? c) && (c <=? 57)) eqn:H3; [nlia|].
  destruct (c =? 43) eqn:H4; [nlia|].
  destruct (c =? 47) eqn:H5; [nlia|]. nlia.
Qed.

(** X10, witness: the name [Zoe] with a diaeresis on its last letter. *)
Lemma formatAddress_encoded_name_witness :
  exists content,
    formatAddress {| na_name := [90; 111; 0xEB]; na_address := js "z@x.com" |}
      initial_world
    = Returns ((js "=?UTF-8?B?" ++ content ++ js "?=")
               ++ js " <" ++ js "z@x.com" ++ js ">") initial_world
    /\ forallb is_base64_char content = true
    /\ test_class is_non_ascii (js "=?UTF-8?B?" ++ content ++ js "?=") = false
    /\ (well_formed [90; 111; 0xEB] = true ->
        decode_base64_utf8 content = Some [90; 111; 0xEB]).
Proof.
  apply (formatAddress_encoded_name
           {| na_name := [90; 111; 0xEB]; na_address := js "z@x.com" |}
           initial_world); (discriminate || reflexivity).
Defined.

End AddressFacts.

(* ------------------------------------------------------------------ *)
(** ** Recipient lists *)

Module RecipientFacts.
Import Eml Props Addressing Examples StringFacts Base64 Utf8 Base64Facts
  Utf8Facts CodecFacts SanitizerFacts HeaderFacts AssemblerFacts BranchFacts
  FixedPointFacts AddressFacts.

Lemma str_eqb_refl a : str_eqb a a = true.
Proof. now apply str_eqb_eq. Qed.

(** X11 (normalizeRecipient, formatAddress).  A recipient is known by its
    [smtpAddress], or else by its [email], or else by its [address]; when
    it has no name, its address stands for the name, and the mailbox is
    written as the bare address between angle brackets, never as the
    address twice.  A recipient without any address gives the empty
    string, whatever its name. *)
Theorem normalizeRecipient_without_name (recipient : Recipient.t) :
  let address :=
    sanitizeHeaderValue
      (Some (js_or (Recipient.smtpAddress recipient)
               (js_or (Recipient.email recipient)
                  (js_or (Recipient.address recipient) [])))) in
  address_of (normalizeRecipient (Some recipient)) = address
  /\ (address = [] ->
      pure_result (formatAddress (normalizeRecipient (Some recipient))) [])
  /\ (js_or (Recipient.name recipient) [] = [] -> address <> [] ->
      pure_result (formatAddress (normalizeRecipient (Some recipient)))
        (angle address)).
Proof.
  cbn zeta.
  assert (Haddr : na_address (normalizeRecipient (Some recipient))
                  = js_or (Recipient.smtpAddress recipient)
                      (js_or (Recipient.email recipient)
                         (js_or (Recipient.address recipient) []))).
  { unfold normalizeRecipient, opt_chain. cbn [na_address].
    destruct (Recipient.smtpAddress recipient) as [[|? ?]|];
      destruct (Recipient.email recipient) as [[|? ?]|];
      destruct (Recipient.address recipient) as [[|? ?]|]; reflexivity. }
  assert (Ha : address_of (normalizeRecipient (Some recipient))
               = sanitizeHeaderValue
                   (Some (js_or (Recipient.smtpAddress recipient)
                            (js_or (Recipient.email recipient)
                               (js_or (Recipient.address recipient) [])))))
    by (unfold address_of; now rewrite Haddr).
  split; [exact Ha|]. rewrite <- Ha. split.
  - intros Hnone w. rewrite (formatAddress_cases _ w). cbn zeta.
    now rewrite Hnone.
  - intros Hname Hsome w. rewrite (formatAddress_cases _ w). cbn zeta.
    apply is_empty_false in Hsome. rewrite Hsome.
    assert (Hn : name_of (normalizeRecipient (Some recipient))
                 = address_of (normalizeRecipient (Some recipient))).
    { unfold name_of, address_of, normalizeRecipient, opt_chain.
      cbn [na_name na_address].
      destruct (Recipient.name recipient) as [[|? ?]|];
        try discriminate; reflexivity. }
    rewrite Hn, str_eqb_refl, orb_true_r. reflexivity.
Qed.

(** *** Lists *)

Lemma mapM_related {A B : Type} (f : A -> M B) (R : A -> B -> Prop)
  (l : list A) :
  (forall x, exists y, pure_result (f x) y /\ R x y) ->
  exists ys, pure_result (mapM f l) ys /\ Forall2 R l ys.
Proof.
  intros Hf. induction l as [|x l [ys [Hys HR]]].
  - exists []. split; [apply pure_ret|constructor].
  - destruct (Hf x) as [y [Hy HRy]].
    exists (y :: ys). split; [|now constructor].
    intros w. cbn [mapM].
    rewrite (bind_pure _ _ _ _ Hy), (bind_pure _ _ _ _ Hys). reflexivity.
Qed.

Lemma Forall2_filter {A B : Type} (R : A -> B -> Prop) (p : A -> bool)
  (q : B -> bool) l ys :
  Forall2 (fun x y => R x y /\ p x = q y) l ys ->
  Forall2 R (filter p l) (filter q ys).
Proof.
  induction 1 as [|x y l ys [HR Hpq] _ IH]; cbn [filter]; [constructor|].
  rewrite Hpq. destruct (q y); [now constructor|exact IH].
Qed.

Lemma join_nil_iff sep parts :
  Forall (fun p => p <> []) parts -> (join sep parts = [] <-> parts = []).
Proof.
  intros H. split; [|now intros ->].
  destruct parts as [|p rest]; [reflexivity|].
  inversion H as [|? ? Hp _]; subst. intros Hj. exfalso.
  destruct rest; cbn [join] in Hj; [congruence|].
  now apply app_eq_nil in Hj as [Hj _].
Qed.

(** X12 (formatAddressList).  The list holds one mailbox for each
    recipient of the requested type that has an address, in the order of
    the array and separated by a comma and a space; recipients of another
    type and recipients without an address add nothing.  The list is
    empty exactly when no recipient of the type has an address; what is
    not an array gives the empty list. *)
Theorem formatAddressList_entries
  (recipients : list (option Recipient.t)) (type : jsstring) :
  exists entries,
    pure_result (formatAddressList (Some recipients) type)
      (join (js ", ") entries)
    /\ Forall2
         (fun recipient entry =>
            pure_result (formatAddress (normalizeRecipient recipient)) entry
            /\ entry <> [])
         (filter has_address (filter (has_type type) recipients)) entries
    /\ (join (js ", ") entries = []
        <-> filter has_address (filter (has_type type) recipients) = [])
    /\ pure_result (formatAddressList None type) [].
Proof.
  destruct (mapM_related
              (fun recipient => formatAddress (normalizeRecipient recipient))
              (fun recipient text =>
                 (pure_result (formatAddress (normalizeRecipient recipient)) text
                  /\ (has_address recipient = true -> text <> []))
                 /\ has_address recipient = negb (is_empty text))
              (filter (has_type type) recipients))
    as (formatted & Hpure & Hall).
  { intros x.
    destruct (formatAddress_nil_iff (normalizeRecipient x))
      as (text & Ht & Hiff).
    exists text.
    assert (Hb : has_address x = negb (is_empty text)).
    { unfold has_address. f_equal.
      destruct text as [|c t].
      - now rewrite (proj1 Hiff eq_refl).
      - destruct (address_of (normalizeRecipient x)); [|reflexivity].
        now destruct (proj2 Hiff eq_refl). }
    refine (conj Ht (conj (conj Ht _) Hb)).
    intros Hx. rewrite Hb in Hx. now destruct text. }
  apply Forall2_filter in Hall.
  exists (filter (fun s => negb (is_empty s)) formatted).
  assert (Hentries :
            Forall2
              (fun recipient entry =>
                 pure_result (formatAddress (normalizeRecipient recipient)) entry
                 /\ entry <> [])
              (filter has_address (filter (has_type type) recipients))
              (filter (fun s => negb (is_empty s)) formatted)).
  { revert Hall. generalize (filter (fun s => negb (is_empty s)) formatted).
    generalize (filter (has_type type) recipients). intros l.
    induction l as [|x l IH]; intros ys Hall; cbn [filter] in *.
    - inversion Hall. constructor.
    - destruct (has_address x) eqn:Hx; [|now apply IH].
      inversion Hall as [|? y ? ys' [Hy Hne] Hrest]; subst.
      constructor; [split; [exact Hy|now apply Hne]|].
      now apply IH. }
  split; [|split; [exact Hentries|split; [|apply pure_ret]]].
  - intros w. unfold formatAddressList.
    rewrite (bind_pure _ _ _ _ Hpure). reflexivity.
  - rewrite join_nil_iff.
    + split; intros H; rewrite H in Hentries; now inversion Hentries.
    + clear -Hentries. induction Hentries as [|? ? ? ? [_ Hne] _ IH];
        now constructor.
Qed.

(** The list depends on the recipients of the requested type only. *)
Lemma formatAddressList_filter recipients recipients' type :
  filter (has_type type) recipients = filter (has_type type) recipients' ->
  formatAddressList (Some recipients) type
  = formatAddressList (Some recipients') type.
Proof. intros H. unfold formatAddressList. now rewrite H. Qed.

(** X13 (buildEmlFromMessage, buildEmlDownload).  Only the recipients of
    type [to] and [cc] reach the output: two messages that differ in their
    other recipients alone, those of type [bcc] among them, are serialized
    to the same text and give the same download. *)
Theorem other_recipients_left_out (host : Host) (message : Message.t)
  (recipients recipients' : list (option Recipient.t)) (w : World) :
  filter (has_type (js "to")) recipients
  = filter (has_type (js "to")) recipients' ->
  filter (has_type (js "cc")) recipients
  = filter (has_type (js "cc")) recipients' ->
  buildEmlFromMessage host (Some (with_recipients message (Some recipients))) w
  = buildEmlFromMessage host (Some (with_recipients message (Some recipients'))) w
  /\ buildEmlDownload host (Some (with_recipients message (Some recipients))) w
     = buildEmlDownload host (Some (with_recipients message (Some recipients'))) w.
Proof.
  intros Hto Hcc.
  assert (Heml : buildEmlFromMessage host
                   (Some (with_recipients message (Some recipients)))
                 = buildEmlFromMessage host
                     (Some (with_recipients message (Some recipients')))).
  { unfold buildEmlFromMessage, buildEmlFromMessage_headers.
    change (opt_chain (Some (with_recipients message (Some recipients)))
              Message.recipients) with (Some recipients).
    change (opt_chain (Some (with_recipients message (Some recipients')))
              Message.recipients) with (Some recipients').
    rewrite (formatAddressList_filter _ _ _ Hto).
    rewrite (formatAddressList_filter _ _ _ Hcc).
    reflexivity. }
  split; [now rewrite Heml|].
  unfold buildEmlDownload. rewrite Heml. reflexivity.
Qed.

(** X13, witness: the message with both bodies, with and without a recipient of
    type [bcc]. *)
Lemma other_recipients_left_out_witness :
  buildEmlFromMessage sample_host
    (Some (with_recipients both_bodies
             (Some [Some (recipient_of (js "to") (js "b@y.com"));
                    Some (recipient_of (js "bcc") (js "c@z.com"))])))
    initial_world
  = buildEmlFromMessage sample_host
      (Some (with_recipients both_bodies
               (Some [Some (recipient_of (js "to") (js "b@y.com"))])))
      initial_world
  /\ buildEmlDownload sample_host
       (Some (with_recipients both_bodies
                (Some [Some (recipient_of (js "to") (js "b@y.com"));
                       Some (recipient_of (js "bcc") (js "c@z.com"))])))
       initial_world
     = buildEmlDownload sample_host
         (Some (with_recipients both_bodies
                  (Some [Some (recipient_of (js "to") (js "b@y.com"))])))
         initial_world.
Proof.
  apply (other_recipients_left_out sample_host both_bodies
           [Some (recipient_of (js "to") (js "b@y.com"));
            Some (recipient_of (js "bcc") (js "c@z.com"))]
           [Some (recipient_of (js "to") (js "b@y.com"))] initial_world);
    reflexivity.
Defined.

End RecipientFacts.

(* ------------------------------------------------------------------ *)
(** ** Boundaries and the payloads between them *)

Module BoundaryFacts.
Import Eml Props Shapes Boundaries Examples StringFacts Base64 Utf8
  Base64Facts Utf8Facts CodecFacts SanitizerFacts HeaderFacts AssemblerFacts
  BranchFacts.

Lemma uint_digits_tail u : forallb is_tail_char (uint_digits u) = true.
Proof. induction u; cbn [uint_digits forallb]; auto. Qed.

Lemma hex_digit_tail d : is_tail_char (hex_digit d) = true.
Proof.
  unfold hex_digit.
  destruct (nth_in_or_default (N.to_nat (d mod 16)) (js "0123456789abcdef") 48)
    as [H | ->]; [|reflexivity].
  assert (Hall : forallb is_tail_char (js "0123456789abcdef") = true)
    by reflexivity.
  rewrite forallb_forall in Hall. now apply Hall.
Qed.

Lemma random_suffix_tail digits :
  forallb is_tail_char
    (slice_from 2
       (match digits with
        | [] => js "0"
        | _ :: _ => js "0." ++ List.map hex_digit digits
        end)) = true.
Proof.
  destruct digits as [|d digits]; [reflexivity|].
  change (slice_from 2 (js "0." ++ List.map hex_digit (d :: digits)))
    with (List.map hex_digit (d :: digits)).
  apply forallb_forall. intros c Hc.
  apply in_map_iff in Hc as [x [<- _]]. apply hex_digit_tail.
Qed.

Lemma makeBoundary_tail host prefix w :
  exists tail,
    makeBoundary host prefix w
    = Returns (prefix ++ js "-" ++ tail)
        {| random_draws := S (random_draws w);
           clock_reads := S (clock_reads w) |}
    /\ forallb is_tail_char tail = true.
Proof.
  unfold makeBoundary, bind, Math_random_toString16, Date_now_string, ret.
  cbn [random_draws clock_reads].
  eexists. split; [reflexivity|].
  rewrite !forallb_app. rewrite uint_digits_tail, random_suffix_tail.
  reflexivity.
Qed.

(** X14 (makeBoundary).  A boundary is its prefix, a hyphen, and a tail
    made of decimal digits, lower-case hexadecimal digits and hyphens only,
    whatever the clock and the random source return; drawing it reads each
    of the two once and cannot raise.  The boundary of a mixed body and that
    of the alternatives nested in it therefore always differ, and the
    delimiter line of neither is the beginning of a delimiter line of the
    other. *)
Theorem makeBoundary_characters (host : Host) (prefix : jsstring)
  (w w' : World) :
  (exists tail,
      makeBoundary host prefix w
      = Returns (prefix ++ js "-" ++ tail)
          {| random_draws := S (random_draws w);
             clock_reads := S (clock_reads w) |}
      /\ forallb is_tail_char tail = true
      /\ single_line tail = true
      /\ test_class (N.eqb DQUOTE) tail = false)
  /\ (exists mixed alt w1 w2,
         makeBoundary host (js "mixed") w = Returns mixed w1
         /\ makeBoundary host (js "alt") w' = Returns alt w2
         /\ mixed <> alt
         /\ startsWith (delimiter mixed) (delimiter alt) = false
         /\ startsWith (delimiter alt) (delimiter mixed) = false).
Proof.
  split.
  - destruct (makeBoundary_tail host prefix w) as (tail & Hb & Htail).
    exists tail. split; [exact Hb|]. split; [exact Htail|].
    rewrite forallb_forall in Htail. split.
    + apply single_line_in. intros c Hc. apply Htail in Hc.
      unfold is_tail_char, not_newline, is_cr_lf, CR, LF in *. nlia.
    + apply test_class_false. intros c Hc. apply Htail in Hc.
      unfold is_tail_char, DQUOTE in *. nlia.
  - destruct (makeBoundary_tail host (js "mixed") w) as (tm & Hm & _).
    destruct (makeBoundary_tail host (js "alt") w') as (ta & Ha & _).
    do 4 eexists. split; [exact Hm|]. split; [exact Ha|].
    split; [discriminate|]. split; reflexivity.
Qed.

(** X15 (buildTextPart, wrapBase64).  The payload of a text part is made
    of lines of base64 characters only, each at most 76 long: no line of it
    holds a hyphen, so that none can be taken for a boundary delimiter,
    whatever the text of the body and whatever the boundary. *)
Theorem text_payload_no_delimiter (content contentType boundary : jsstring) :
  exists lines,
    pure_result (buildTextPart content contentType)
      (part_with contentType (join CRLF lines))
    /\ Forall
         (fun line =>
            forallb is_base64_char line = true
            /\ (List.length line <= 76)%nat
            /\ startsWith line (js "--") = false
            /\ line <> delimiter boundary
            /\ line <> close_delimiter boundary)
         lines.
Proof.
  destruct (wrapBase64_lines
              (Base64.encode
                 (TextEncoder_encode (normalizeLineEndings (Some content)))))
    as (lines & Hwrap & _ & Hwidth & Hin & _).
  exists lines. split.
  - intros w. rewrite (buildTextPart_pure content contentType w).
    unfold part_with. now rewrite Hwrap.
  - rewrite Forall_forall in *. intros line Hline.
    assert (Hchars : forallb is_base64_char line = true).
    { apply forallb_forall. intros c Hc.
      pose proof (encode_base64_chars
                    (TextEncoder_encode (normalizeLineEndings (Some content))))
        as Hall.
      rewrite Forall_forall in Hall. apply Hall. eapply Hin; eauto. }
    assert (Hstart : startsWith line (js "--") = false).
    { destruct line as [|c t]; [reflexivity|].
      cbn [forallb] in Hchars. apply andb_true_iff in Hchars as [Hc _].
      cbn [startsWith js List.map list_ascii_of_string].
      replace (c =? N_of_ascii "-") with false; [reflexivity|].
      symmetry. apply N.eqb_neq. intros ->. discriminate. }
    split; [exact Hchars|]. split; [now apply Hwidth|].
    split; [exact Hstart|].
    split; intros ->; discriminate.
Qed.

End BoundaryFacts.

(* ------------------------------------------------------------------ *)
(** ** File names *)

Module FileNameFacts.
Import Eml Props FileNames Examples StringFacts SanitizerFacts AssemblerFacts
  FixedPointFacts.

Lemma is_kept_facts c :
  is_kept c = true ->
  is_whitespace c = false /\ is_control c = false /\ is_illegal c = false
  /\ is_separator c = false.
Proof.
  unfold is_kept. rewrite !andb_true_iff, !negb_true_iff. tauto.
Qed.

(** *** What each step of the chain does before a suffix it keeps *)

Lemma remove_triples_three a b c x y z t :
  remove_triples a b c (x :: y :: z :: t)
  = if (x =? a) && (y =? b) && (z =? c)
    then remove_triples a b c t
    else x :: remove_triples a b c (y :: z :: t).
Proof. reflexivity. Qed.

Lemma remove_triples_app n a b c suffix : forall prefix,
  (List.length prefix <= n)%nat ->
  ~ In c suffix ->
  remove_triples a b c (prefix ++ suffix)
  = remove_triples a b c prefix ++ suffix.
Proof.
  induction n as [|n IH]; intros prefix Hlen Hc.
  - destruct prefix; [|cbn in Hlen; lia]. now apply remove_triples_none.
  - destruct prefix as [|x [|y [|z t3]]]; cbn [List.length] in Hlen.
    + now apply remove_triples_none.
    + change (remove_triples a b c [x]) with [x].
      destruct suffix as [|y [|z t3]]; try reflexivity.
      change ([x] ++ y :: z :: t3) with (x :: y :: z :: t3).
      rewrite remove_triples_three.
      replace (z =? c) with false
        by (symmetry; apply N.eqb_neq; intros ->; apply Hc; right; now left).
      rewrite andb_false_r. now rewrite (remove_triples_none _ _ _ _ Hc).
    + change (remove_triples a b c [x; y]) with [x; y].
      destruct suffix as [|z t3]; [reflexivity|].
      change ([x; y] ++ z :: t3) with (x :: y :: z :: t3).
      rewrite remove_triples_three.
      replace (z =? c) with false
        by (symmetry; apply N.eqb_neq; intros ->; apply Hc; now left).
      rewrite andb_false_r.
      change (y :: z :: t3) with ([y] ++ z :: t3).
      rewrite IH by (cbn [List.length]; lia || exact Hc). reflexivity.
    + change ((x :: y :: z :: t3) ++ suffix)
        with (x :: y :: z :: t3 ++ suffix).
      rewrite !remove_triples_three.
      destruct ((x =? a) && (y =? b) && (z =? c)).
      * apply IH; [lia|exact Hc].
      * change (y :: z :: t3 ++ suffix) with ((y :: z :: t3) ++ suffix).
        rewrite IH by (cbn [List.length]; lia || exact Hc). reflexivity.
Qed.

Lemma drop_leading_app c prefix suffix :
  suffix <> [] -> ~ In c suffix ->
  drop_leading c (prefix ++ suffix) = drop_leading c prefix ++ suffix.
Proof.
  intros Hne Hc. destruct suffix as [|x suffix]; [congruence|].
  assert (Hx : (x =? c) = false)
    by (apply N.eqb_neq; intros ->; apply Hc; now left).
  induction prefix as [|y prefix IH]; cbn [app drop_leading].
  - now rewrite Hx.
  - now destruct (y =? c).
Qed.

Lemma remove_drive_prefix_app prefix suffix :
  (forall c, In c suffix -> is_separator c = false) ->
  remove_drive_prefix (prefix ++ suffix)
  = remove_drive_prefix prefix ++ suffix.
Proof.
  intros H. unfold remove_drive_prefix, drive_prefix, slice_from.
  destruct prefix as [|x [|y [|z t]]]; cbn [app prefix_matches skipn].
  - destruct suffix as [|x [|y [|z t]]]; cbn [prefix_matches];
      rewrite ?andb_false_r; try reflexivity.
    rewrite (H z) by (right; right; now left).
    now rewrite !andb_false_r.
  - destruct suffix as [|y [|z t]]; cbn [prefix_matches];
      rewrite ?andb_false_r; try reflexivity.
    rewrite (H z) by (right; now left). now rewrite !andb_false_r.
  - destruct suffix as [|z t]; cbn [prefix_matches];
      rewrite ?andb_false_r; try reflexivity.
    rewrite (H z) by now left. now rewrite !andb_false_r.
  - now destruct (is_ascii_letter x && ((58 =? y) && (is_separator z && true))).
Qed.

Lemma replace_class_app p r a b :
  replace_class p r (a ++ b) = replace_class p r a ++ replace_class p r b.
Proof. unfold replace_class. apply flat_map_app. Qed.

Lemma trim_keeps prefix suffix :
  suffix <> [] ->
  (forall c, In c suffix -> is_whitespace c = false) ->
  trim (prefix ++ suffix) = trimStart prefix ++ suffix.
Proof.
  intros Hne H. unfold trim.
  destruct suffix as [|c t]; [congruence|].
  rewrite trimStart_app by (apply H; now left).
  destruct (exists_last (l := c :: t) ltac:(discriminate)) as (l & d & Hl).
  rewrite Hl, app_assoc. apply trimEnd_last. apply H. rewrite Hl.
  apply in_or_app. right. now left.
Qed.

(** The chain keeps a suffix made of kept code units. *)
Lemma sanitizeFilename_chain_app prefix suffix :
  suffix <> [] ->
  forallb is_kept suffix = true ->
  exists stem,
    sanitizeFilename_chain (Some (prefix ++ suffix)) = stem ++ suffix.
Proof.
  intros Hne Hk. rewrite forallb_forall in Hk.
  assert (Hf : forall c, In c suffix ->
             is_whitespace c = false /\ is_control c = false
             /\ is_illegal c = false /\ is_separator c = false)
    by (intros c Hc; now apply is_kept_facts, Hk).
  assert (Hno : forall c, is_separator c = true -> ~ In c suffix).
  { intros c Hc Hin. apply Hf in Hin as (_ & _ & _ & Hs). congruence. }
  unfold sanitizeFilename_chain. rewrite js_or_some.
  rewrite (remove_triples_app (List.length prefix) 46 46 SLASH)
    by (reflexivity || (apply Hno; reflexivity)).
  set (p1 := remove_triples 46 46 SLASH prefix).
  rewrite (remove_triples_app (List.length p1) 46 46 BACKSLASH)
    by (reflexivity || (apply Hno; reflexivity)).
  set (p2 := remove_triples 46 46 BACKSLASH p1).
  rewrite drop_leading_app by (exact Hne || (apply Hno; reflexivity)).
  rewrite remove_drive_prefix_app by (intros c Hc; now apply Hf).
  rewrite !replace_class_app.
  rewrite (replace_class_none is_control [] suffix)
    by (intros c Hc; now apply Hf).
  rewrite (replace_class_none is_illegal _ suffix)
    by (intros c Hc; now apply Hf).
  rewrite (replace_class_none is_separator _ suffix)
    by (intros c Hc; now apply Hf).
  rewrite trim_keeps; [|exact Hne|intros c Hc; now apply Hf].
  eexists. reflexivity.
Qed.

Lemma sanitizeFilename_app prefix suffix :
  suffix <> [] ->
  forallb is_kept suffix = true ->
  exists stem, sanitizeFilename (Some (prefix ++ suffix)) = stem ++ suffix.
Proof.
  intros Hne Hk.
  destruct (sanitizeFilename_chain_app prefix suffix Hne Hk) as (stem & Hc).
  exists stem. unfold sanitizeFilename. rewrite Hc.
  destruct (stem ++ suffix) eqn:He; [|reflexivity].
  now apply app_eq_nil in He as [_ He].
Qed.

(** X16 (sanitizeFilename).  The end of a name survives sanitation: a
    suffix free of white space, control characters, illegal characters and
    separators, such as an extension, is kept as it is, whatever stands
    before it.  The result is then what the chain of replacements leaves,
    which is not empty, and what stands before the suffix in it holds no
    separator, no illegal character and no control character. *)
Theorem sanitizeFilename_keeps_extension (prefix suffix : jsstring) :
  suffix <> [] ->
  forallb is_kept suffix = true ->
  exists stem,
    sanitizeFilename (Some (prefix ++ suffix)) = stem ++ suffix
    /\ sanitizeFilename_chain (Some (prefix ++ suffix)) = stem ++ suffix
    /\ test_class is_separator stem = false
    /\ test_class is_illegal stem = false
    /\ test_class is_control stem = false.
Proof.
  intros Hne Hk.
  destruct (sanitizeFilename_chain_app prefix suffix Hne Hk) as (stem & Hch).
  assert (Hs : sanitizeFilename (Some (prefix ++ suffix)) = stem ++ suffix).
  { unfold sanitizeFilename. rewrite Hch.
    destruct (stem ++ suffix) eqn:He; [|reflexivity].
    now apply app_eq_nil in He as [_ He]. }
  exists stem. split; [exact Hs|]. split; [exact Hch|].
  assert (Hc : forall c, In c stem ->
             is_control c = false /\ is_illegal c = false
             /\ is_separator c = false).
  { intros c Hc. apply (sanitizeFilename_chars (Some (prefix ++ suffix))).
    rewrite Hs. apply in_or_app. now left. }
  repeat split; apply test_class_false; intros c Hin; now apply Hc in Hin.
Qed.

(** X16, witness: a path with a traversal, a drive, separators and a colon
    before the extension. *)
Lemma sanitizeFilename_keeps_extension_witness :
  exists stem,
    sanitizeFilename (Some (js "../C:\docs/a:b " ++ js ".pdf"))
    = stem ++ js ".pdf"
    /\ sanitizeFilename_chain (Some (js "../C:\docs/a:b " ++ js ".pdf"))
       = stem ++ js ".pdf"
    /\ test_class is_separator stem = false
    /\ test_class is_illegal stem = false
    /\ test_class is_control stem = false.
Proof.
  apply (sanitizeFilename_keeps_extension (js "../C:\docs/a:b ") (js ".pdf"));
    [discriminate|reflexivity].
Defined.

(** *** Extensions *)

Lemma prefix_matches_split pat : forall s,
  prefix_matches pat s = true ->
  exists matched rest,
    s = matched ++ rest /\ Forall2 (fun p c => p c = true) pat matched.
Proof.
  induction pat as [|p pat IH]; intros s H.
  - exists [], s. split; [reflexivity|constructor].
  - destruct s as [|c s]; cbn [prefix_matches] in H; [discriminate|].
    apply andb_true_iff in H as [Hc Hs].
    destruct (IH s Hs) as (matched & rest & -> & Hall).
    exists (c :: matched), rest. split; [reflexivity|now constructor].
Qed.

Lemma prefix_matches_app pat : forall matched rest,
  Forall2 (fun p c => p c = true) pat matched ->
  prefix_matches pat (matched ++ rest) = true.
Proof.
  induction pat as [|p pat IH]; intros matched rest H;
    inversion H as [|? c ? m Hc Hm]; subst; [reflexivity|].
  cbn [app prefix_matches]. now rewrite Hc, IH.
Qed.

Lemma Forall2_rev {A B : Type} (R : A -> B -> Prop) l l' :
  Forall2 R l l' -> Forall2 R (rev l) (rev l').
Proof.
  induction 1 as [|x y l l' Hxy _ IH]; [constructor|].
  cbn [rev]. apply Forall2_app; [exact IH|]. now repeat constructor.
Qed.

Lemma suffix_matches_split pat s :
  suffix_matches pat s = true ->
  exists stem matched,
    s = stem ++ matched /\ Forall2 (fun p c => p c = true) pat matched.
Proof.
  unfold suffix_matches. intros H.
  apply prefix_matches_split in H as (matched & rest & Hs & Hall).
  exists (rev rest), (rev matched). split.
  - rewrite <- rev_app_distr, <- Hs. now rewrite rev_involutive.
  - apply Forall2_rev in Hall. now rewrite rev_involutive in Hall.
Qed.

Lemma suffix_matches_app pat stem matched :
  Forall2 (fun p c => p c = true) pat matched ->
  suffix_matches pat (stem ++ matched) = true.
Proof.
  intros H. unfold suffix_matches. rewrite rev_app_distr.
  apply prefix_matches_app. now apply Forall2_rev.
Qed.

Lemma ci_kept lower c :
  97 <= lower <= 122 -> ci lower c = true -> is_kept c = true.
Proof.
  unfold ci. intros Hl H.
  assert (Hc : 65 <= c <= 90 \/ 97 <= c <= 122) by nlia.
  unfold is_kept, is_whitespace, is_control, is_illegal, is_separator,
    SLASH, BACKSLASH, DQUOTE.
  nlia.
Qed.

(** What matches [.eml] is a suffix the sanitizer keeps. *)
Lemma dot_eml_kept matched :
  Forall2 (fun p c => p c = true) dot_eml matched ->
  matched <> [] /\ forallb is_kept matched = true.
Proof.
  unfold dot_eml. intros H.
  inversion H as [|? c1 ? m1 H1 H']; subst.
  inversion H' as [|? c2 ? m2 H2 H'']; subst.
  inversion H'' as [|? c3 ? m3 H3 H''']; subst.
  inversion H''' as [|? c4 ? m4 H4 Hnil]; subst. inversion Hnil; subst.
  split; [discriminate|]. cbn [forallb].
  apply N.eqb_eq in H1. subst c1.
  rewrite (ci_kept 101 c2), (ci_kept 109 c3), (ci_kept 108 c4);
    (reflexivity || assumption || lia).
Qed.

Lemma dot_eml_literal :
  Forall2 (fun p c => p c = true) dot_eml (js ".eml").
Proof. unfold dot_eml. repeat constructor. Qed.

Lemma sanitizeFilename_dot_eml prefix matched :
  Forall2 (fun p c => p c = true) dot_eml matched ->
  suffix_matches dot_eml (sanitizeFilename (Some (prefix ++ matched))) = true.
Proof.
  intros H. destruct (dot_eml_kept matched H) as [Hne Hk].
  destruct (sanitizeFilename_app prefix matched Hne Hk) as (stem & ->).
  now apply suffix_matches_app.
Qed.

Lemma drop_last_in n s c : In c (drop_last n s) -> In c s.
Proof.
  unfold drop_last. intros H.
  rewrite <- (firstn_skipn (List.length s - n) s).
  apply in_or_app. now left.
Qed.

(** X17 (deriveEmlFileName).  The name of the download always ends in
    [.eml], in whatever case the source name wrote it, and holds no
    separator, no illegal character and no control character.  A source
    name that ends in neither [.eml] nor [.msg] is left aside: the name is
    then the one derived from the subject alone. *)
Theorem deriveEmlFileName_extension (message : option Message.t) :
  let name := deriveEmlFileName message in
  suffix_matches dot_eml name = true
  /\ test_class is_separator name = false
  /\ test_class is_illegal name = false
  /\ test_class is_control name = false
  /\ (let original := trim (js_or (opt_chain message Message.fileName) []) in
      suffix_matches dot_eml original = false ->
      suffix_matches dot_msg original = false ->
      name = deriveEmlFileName
               (Some (named None (opt_chain message Message.subject)))).
Proof.
  cbn zeta. unfold deriveEmlFileName.
  set (original := trim (js_or (opt_chain message Message.fileName) [])).
  set (subject :=
         sanitizeFilename
           (Some (js_or (opt_chain message Message.subject) (js "message")))).
  set (base :=
         js_or
           (Some (trim (if suffix_matches dot_eml subject
                        then drop_last 4 subject else subject)))
           (js "message")).
  assert (Hsafe : forall filename,
             test_class is_separator (sanitizeFilename filename) = false
             /\ test_class is_illegal (sanitizeFilename filename) = false
             /\ test_class is_control (sanitizeFilename filename) = false).
  { intros filename. repeat split; apply test_class_false; intros c Hc;
      now apply sanitizeFilename_chars in Hc. }
  assert (Hbase : suffix_matches dot_eml (base ++ js ".eml") = true
                  /\ test_class is_separator (base ++ js ".eml") = false
                  /\ test_class is_illegal (base ++ js ".eml") = false
                  /\ test_class is_control (base ++ js ".eml") = false).
  { split; [apply suffix_matches_app, dot_eml_literal|].
    assert (Hc : forall c, In c (base ++ js ".eml") ->
               is_control c = false /\ is_illegal c = false
               /\ is_separator c = false).
    { intros c Hc. apply in_app_or in Hc as [Hc|Hc].
      - unfold base in Hc.
        destruct (trim (if suffix_matches dot_eml subject
                        then drop_last 4 subject else subject))
          as [|x t] eqn:Ht; cbn [js_or] in Hc.
        + revert c Hc. apply Forall_forall. repeat constructor.
        + rewrite <- Ht in Hc. apply trim_in in Hc.
          apply (sanitizeFilename_chars
                   (Some (js_or (opt_chain message Message.subject)
                            (js "message")))).
          destruct (suffix_matches dot_eml subject);
            [now apply drop_last_in in Hc|exact Hc].
      - revert c Hc. apply Forall_forall. repeat constructor. }
    repeat split; apply test_class_false; intros c Hin; now apply Hc in Hin. }
  split; [|split; [|split; [|split]]].
  5: { intros Heml Hmsg. rewrite Heml, Hmsg.
       destruct (negb (is_empty original)); reflexivity. }
  all: destruct (negb (is_empty original)); [|apply Hbase].
  all: destruct (suffix_matches dot_eml original) eqn:Heml.
  all: try (destruct (suffix_matches dot_msg original); [|apply Hbase]).
  all: try apply Hsafe.
  - apply suffix_matches_split in Heml as (stem & matched & -> & Hm).
    now apply sanitizeFilename_dot_eml.
  - apply sanitizeFilename_dot_eml, dot_eml_literal.
Qed.

End FileNameFacts.

(* ------------------------------------------------------------------ *)
(** ** The header block, the bodies without attachment and the download *)

Module BodyFacts.
Import Eml Props Shapes Addressing Headers Examples StringFacts Base64 Utf8
  Base64Facts Utf8Facts CodecFacts SanitizerFacts HeaderFacts AssemblerFacts
  BranchFacts LineEndingFacts StructureFacts LineFacts.

(** *** The header block *)

Lemma pure_result_unique {A : Type} (c : M A) a b :
  pure_result c a -> pure_result c b -> a = b.
Proof.
  intros Ha Hb. specialize (Ha initial_world). specialize (Hb initial_world).
  congruence.
Qed.

(** The header block in full: five optional fields and [MIME-Version]. *)
Lemma buildEmlFromMessage_headers_fields host message :
  exists subject from to cc,
    pure_result (buildEmlFromMessage_headers host message)
      (push_header
         (push_header
            (push_header
               (push_header (push_header [] (js "Subject: ") subject)
                  (js "From: ") from)
               (js "To: ") to)
            (js "Cc: ") cc)
         (js "Date: ") (getMessageDate host message)
       ++ [js "MIME-Version: 1.0"]).
Proof.
  destruct (encodeHeaderWord_pure
              (Some (js_or (opt_chain message Message.subject) [])))
    as (subject & Hsubject & _).
  destruct (formatAddress_pure
              {| na_name := js_or (opt_chain message Message.senderName) [];
                 na_address := js_or (opt_chain message Message.senderEmail) [] |})
    as (from & Hfrom & _).
  destruct (formatAddressList_pure (opt_chain message Message.recipients)
              (js "to")) as (to & Hto & _).
  destruct (formatAddressList_pure (opt_chain message Message.recipients)
              (js "cc")) as (cc & Hcc & _).
  exists subject, from, to, cc. intros w.
  unfold buildEmlFromMessage_headers.
  rewrite (bind_pure _ _ _ _ Hsubject), (bind_pure _ _ _ _ Hfrom),
    (bind_pure _ _ _ _ Hto), (bind_pure _ _ _ _ Hcc).
  reflexivity.
Qed.

Lemma push_header_has_value headers name value :
  In name header_order ->
  Forall has_value headers ->
  Forall has_value (push_header headers (name ++ js ": ") value).
Proof.
  intros Hname Hall. unfold push_header.
  destruct value as [|c t]; cbn [is_empty]; [exact Hall|].
  apply Forall_app. split; [exact Hall|].
  constructor; [|constructor].
  exists name, (c :: t). split; [now rewrite <- app_assoc|].
  split; [exact Hname|discriminate].
Qed.

(** X18 (buildEmlFromMessage).  The header block holds each of [Subject],
    [From], [To], [Cc] and [Date] at most once and in this order, followed
    by [MIME-Version: 1.0], which is always there and always last; a field
    whose value would be empty is left out, so that no field of the block
    is written without a value.  Building the block does not raise and
    draws no boundary. *)
Theorem header_block_order (host : Host) (message : option Message.t) :
  exists headers,
    pure_result (buildEmlFromMessage_headers host message) headers
    /\ subsequence (List.map field_name headers) header_order = true
    /\ last headers [] = js "MIME-Version: 1.0"
    /\ Forall has_value headers.
Proof.
  destruct (buildEmlFromMessage_headers_fields host message)
    as (subject & from & to & cc & Hpure).
  eexists. split; [exact Hpure|]. split; [|split].
  - unfold push_header.
    destruct subject, from, to, cc, (getMessageDate host message);
      vm_compute; reflexivity.
  - apply last_last.
  - apply Forall_app. split.
    + apply (push_header_has_value _ (js "Date")); [cbn; tauto|].
      apply (push_header_has_value _ (js "Cc")); [cbn; tauto|].
      apply (push_header_has_value _ (js "To")); [cbn; tauto|].
      apply (push_header_has_value _ (js "From")); [cbn; tauto|].
      apply (push_header_has_value _ (js "Subject")); [cbn; tauto|].
      constructor.
    + constructor; [|constructor].
      exists (js "MIME-Version"), (js "1.0").
      split; [reflexivity|]. split; [cbn; tauto|discriminate].
Qed.

(** *** Bodies without attachment *)

Lemma blank_body body :
  forallb is_whitespace (js_or body []) = true ->
  trim (normalizeLineEndings (Some (js_or body []))) = [].
Proof.
  intros H. apply trim_normalizeLineEndings. rewrite js_or_some.
  now apply trim_empty.
Qed.

(** X19 (buildEmlFromMessage).  Bodies made of white space only count as
    absent: a message without attachment whose two bodies are missing,
    empty or blank is written as a [text/plain] entity in base64 with an
    empty body, so that the blank text is not exported, and no boundary is
    drawn. *)
Theorem blank_bodies_left_out (host : Host) (message : option Message.t)
  (w : World) :
  message_attachments message = [] ->
  forallb is_whitespace (js_or (opt_chain message Message.bodyContent) [])
  = true ->
  forallb is_whitespace (js_or (opt_chain message Message.bodyContentHTML) [])
  = true ->
  exists headers,
    buildEmlFromMessage host message w
    = Returns
        (join CRLF
           (headers
            ++ [content_type_text_plain;
                js "Content-Transfer-Encoding: base64"])
         ++ CRLF ++ CRLF) w
    /\ forallb not_content_type headers = true.
Proof.
  intros Hatt Htext Hhtml.
  destruct (buildEmlFromMessage_headers_pure host message)
    as [headers [Hheaders _]].
  exists headers. split.
  - apply (empty_branch host message w headers Hheaders Hatt).
    + unfold hasText, bodyText. now rewrite blank_body.
    + unfold hasHtml, bodyHtml. now rewrite blank_body.
  - now apply (headers_not_content_type host message).
Qed.

(** X19, witness: a plain-text body of spaces, a line ending and a tab. *)
Lemma blank_bodies_left_out_witness :
  exists headers,
    buildEmlFromMessage sample_host
      (Some (with_bodies (Some (js "  " ++ [CR; LF; 9])) None)) initial_world
    = Returns
        (join CRLF
           (headers
            ++ [content_type_text_plain;
                js "Content-Transfer-Encoding: base64"])
         ++ CRLF ++ CRLF) initial_world
    /\ forallb not_content_type headers = true.
Proof.
  apply (blank_bodies_left_out sample_host
           (Some (with_bodies (Some (js "  " ++ [CR; LF; 9])) None))
           initial_world); reflexivity.
Defined.

Lemma encode_nil octets : Base64.encode octets = [] -> octets = [].
Proof. destruct octets as [|a [|b [|c rest]]]; [reflexivity|discriminate..]. Qed.

Lemma TextEncoder_encode_nil text : TextEncoder_encode text = [] -> text = [].
Proof.
  destruct text as [|c t]; [reflexivity|]. unfold TextEncoder_encode.
  intros H. exfalso.
  assert (Hs : exists cp rest, scalar_values (c :: t) = cp :: rest).
  { cbn [scalar_values]. destruct (is_high_surrogate c).
    - destruct t as [|d t']; [|destruct (is_low_surrogate d)]; eauto.
    - destruct (is_low_surrogate c); eauto. }
  destruct Hs as (cp & rest & Hs). rewrite Hs in H. cbn [flat_map] in H.
  apply app_eq_nil in H as [H _]. unfold encode_scalar in H.
  destruct (cp <? 128); [discriminate|].
  destruct (cp <? 2048); [discriminate|].
  destruct (cp <? 65536); discriminate.
Qed.

(** X20 (buildEmlFromMessage).  A message without attachment that has
    one body only, the other being missing or blank, is written as a
    single entity of the type of that body, [text/html] or [text/plain],
    in base64: no multipart structure, no boundary drawn, and a payload in
    lines of at most 76 characters that decode to the UTF-8 octets of the
    body with its line endings normalized. *)
Theorem single_body_entity (host : Host) (message : option Message.t)
  (w : World) :
  message_attachments message = [] ->
  hasText message && hasHtml message = false ->
  hasHtml message || hasText message = true ->
  let contentType :=
    if hasHtml message then js "text/html" else js "text/plain" in
  let body :=
    if hasHtml message then opt_chain message Message.bodyContentHTML
    else opt_chain message Message.bodyContent in
  exists headers lines,
    buildEmlFromMessage host message w
    = Returns
        (join CRLF
           (headers
            ++ [js "Content-Type: " ++ contentType ++ js "; charset="
                  ++ [DQUOTE] ++ js "utf-8" ++ [DQUOTE];
                js "Content-Transfer-Encoding: base64"])
         ++ CRLF ++ CRLF ++ join CRLF lines) w
    /\ forallb not_content_type headers = true
    /\ payload_lines lines body
    /\ lines <> [].
Proof.
  cbn zeta. intros Hatt Hboth Hone.
  destruct (buildEmlFromMessage_headers_pure host message)
    as [headers [Hheaders _]].
  pose proof (single_branch host message w headers Hheaders Hatt Hboth Hone)
    as Hrun.
  set (body := if hasHtml message then opt_chain message Message.bodyContentHTML
               else opt_chain message Message.bodyContent).
  assert (Hbody : (if hasHtml message then bodyHtml message
                   else bodyText message)
                  = normalizeLineEndings (Some (js_or body []))).
  { unfold body, bodyHtml, bodyText. now destruct (hasHtml message). }
  assert (Hnot : trim (normalizeLineEndings (Some (js_or body []))) <> []).
  { rewrite <- Hbody. unfold hasHtml, hasText in Hone.
    destruct (hasHtml message) eqn:Hh; unfold hasHtml in Hh.
    - now apply negb_true_iff, is_empty_false in Hh.
    - rewrite Hh in Hone. cbn [orb] in Hone.
      now apply negb_true_iff, is_empty_false in Hone. }
  destruct (wrapBase64_lines
              (Base64.encode
                 (TextEncoder_encode
                    (normalizeLineEndings (Some (js_or body []))))))
    as (lines & Hwrap & Hconcat & Hwidth & _ & Hfirst).
  exists headers, lines. rewrite Hrun, Hbody, Hwrap.
  split; [reflexivity|].
  split; [now apply (headers_not_content_type host message)|].
  assert (Hnorm : normalizeLineEndings (Some (js_or body []))
                  = normalizeLineEndings body)
    by (unfold normalizeLineEndings; now rewrite js_or_some).
  split.
  - unfold payload_lines. rewrite Hconcat, <- Hnorm.
    split; [exact Hwidth|]. split.
    + apply forallb_forall, Forall_forall, encode_base64_chars.
    + apply decode_encode, TextEncoder_encode_octets.
  - intros ->. cbn [List.concat] in Hconcat. symmetry in Hconcat.
    apply encode_nil, TextEncoder_encode_nil in Hconcat.
    rewrite Hconcat in Hnot. now apply Hnot.
Qed.

(** X20, witness: a blank plain-text body beside an HTML body. *)
Lemma single_body_entity_witness :
  exists headers lines,
    buildEmlFromMessage sample_host
      (Some (with_bodies (Some (js " ")) (Some (js "<p>Hi</p>"))))
      initial_world
    = Returns
        (join CRLF
           (headers
            ++ [js "Content-Type: " ++ js "text/html" ++ js "; charset="
                  ++ [DQUOTE] ++ js "utf-8" ++ [DQUOTE];
                js "Content-Transfer-Encoding: base64"])
         ++ CRLF ++ CRLF ++ join CRLF lines) initial_world
    /\ forallb not_content_type headers = true
    /\ payload_lines lines (Some (js "<p>Hi</p>"))
    /\ lines <> [].
Proof.
  apply (single_body_entity sample_host
           (Some (with_bodies (Some (js " ")) (Some (js "<p>Hi</p>"))))
           initial_world); reflexivity.
Defined.

(** *** The serialized download *)

(** X21 (buildEmlDownload).  Unless the message is recorded as [eml], in
    lower case, and carries a raw buffer, the download is the
    serialization: its payload is the base64 text of the UTF-8 octets of
    what [buildEmlFromMessage] returns, decodes to these octets, and to the
    text itself when that is well-formed UTF-16; a raw buffer under any
    other type is not used. *)
Theorem buildEmlDownload_serialized (host : Host) (message : Message.t)
  (w : World) :
  is_eml (Message._fileType message) = false
  \/ Message._rawBuffer message = None ->
  exists eml w',
    buildEmlFromMessage host (Some message) w = Returns eml w'
    /\ buildEmlDownload host (Some message) w
       = Returns
           (Some {| fileName := deriveEmlFileName (Some message);
                    dataUrl := js "data:message/rfc822;base64,"
                               ++ Base64.encode (TextEncoder_encode eml) |})
           w'
    /\ Base64.decode (Base64.encode (TextEncoder_encode eml))
       = Some (TextEncoder_encode eml)
    /\ (well_formed eml = true ->
        decode_base64_utf8 (Base64.encode (TextEncoder_encode eml))
        = Some eml).
Proof.
  intros Hraw.
  destruct (buildEmlFromMessage_returns host (Some message) w)
    as (eml & w' & Heml).
  exists eml, w'. split; [exact Heml|]. split; [|split].
  - unfold buildEmlDownload.
    replace (if is_eml (Message._fileType message)
             then Message._rawBuffer message else None)
      with (@None (list Byte.byte))
      by (destruct Hraw as [-> | ->];
          [reflexivity|now destruct (is_eml _)]).
    bind_step Heml. bind_step (base64EncodeUtf8_returns eml w').
    reflexivity.
  - apply decode_encode, TextEncoder_encode_octets.
  - apply decode_base64_utf8_encode.
Qed.

(** X21, witness: a raw buffer under the type [EML] in upper case. *)
Lemma buildEmlDownload_serialized_witness :
  exists eml w',
    buildEmlFromMessage sample_host
      (Some (recorded (js "EML") [Byte.x00; Byte.xff])) initial_world
    = Returns eml w'
    /\ buildEmlDownload sample_host
         (Some (recorded (js "EML") [Byte.x00; Byte.xff])) initial_world
       = Returns
           (Some {| fileName := js "mail.eml";
                    dataUrl := js "data:message/rfc822;base64,"
                               ++ Base64.encode (TextEncoder_encode eml) |})
           w'
    /\ Base64.decode (Base64.encode (TextEncoder_encode eml))
       = Some (TextEncoder_encode eml)
    /\ (well_formed eml = true ->
        decode_base64_utf8 (Base64.encode (TextEncoder_encode eml))
        = Some eml).
Proof.
  apply (buildEmlDownload_serialized sample_host
           (recorded (js "EML") [Byte.x00; Byte.xff]) initial_world).
  left. reflexivity.
Defined.

(** *** Attachment parts *)

Lemma unquote_plain s :
  test_class (N.eqb DQUOTE) s = false ->
  test_class (N.eqb BACKSLASH) s = false ->
  unquote ([DQUOTE] ++ s ++ [DQUOTE]) = Some s.
Proof.
  cbn [app unquote]. rewrite N.eqb_refl. unfold test_class.
  induction s as [|c t IH]; cbn [existsb app unquote_body]; [reflexivity|].
  intros Hq Hb. apply orb_false_iff in Hq as [Hq Hq'].
  apply orb_false_iff in Hb as [Hb Hb'].
  rewrite N.eqb_sym in Hq, Hb. rewrite Hq, Hb, (IH Hq' Hb'). reflexivity.
Qed.

(** X22 (buildAttachmentPart).  The part of an attachment is a
    [Content-Type] field, the transfer encoding, at most one [Content-ID]
    field, a [Content-Disposition] field, a blank line and the payload.
    Both fields carry the same file name between double quotes, and since
    the sanitized name holds neither a double quote nor a backslash it is
    read back from between the quotes as it is.  A content identifier, when
    written, is not empty and holds no angle bracket of its own. *)
Theorem buildAttachmentPart_file_name (attachment : option Attachment.t)
  (part : list jsstring) :
  buildAttachmentPart attachment = Some part ->
  let name :=
    sanitizeFilename
      (Some (js_or (opt_chain attachment Attachment.fileName) (js "attachment"))) in
  let quoted := [DQUOTE] ++ name ++ [DQUOTE] in
  exists mimeType identifier disposition payload,
    part
    = [js "Content-Type: " ++ mimeType ++ js "; name=" ++ quoted;
       js "Content-Transfer-Encoding: base64"]
      ++ identifier
      ++ [js "Content-Disposition: " ++ disposition ++ js "; filename="
            ++ quoted;
          [];
          payload]
    /\ unquote quoted = Some name
    /\ In disposition [js "inline"; js "attachment"]
    /\ payload <> []
    /\ (identifier = []
        \/ exists contentId,
             identifier = [js "Content-ID: <" ++ contentId ++ js ">"]
             /\ contentId <> []
             /\ test_class is_angle contentId = false
             /\ single_line contentId = true
             /\ disposition = js "inline").
Proof.
  cbn zeta. unfold buildAttachmentPart.
  set (name := sanitizeFilename _).
  set (content := extractBase64 _).
  set (cid := js_or (opt_chain attachment Attachment.contentId) []).
  destruct (is_empty content) eqn:Hcontent; [discriminate|].
  intros H. injection H as <-.
  assert (Hname : unquote ([DQUOTE] ++ name ++ [DQUOTE]) = Some name).
  { apply unquote_plain; apply test_class_false; intros c Hc;
      apply sanitizeFilename_chars in Hc as (_ & Hi & Hs).
    - unfold is_illegal in Hi. rewrite !orb_false_iff in Hi.
      rewrite N.eqb_sym. tauto.
    - unfold is_separator in Hs. rewrite !orb_false_iff in Hs.
      rewrite N.eqb_sym. tauto. }
  assert (Hpayload : wrapBase64 content <> []).
  { destruct (wrapBase64_lines content) as (lines & -> & _ & _ & _ & Hfirst).
    apply is_empty_false in Hcontent.
    destruct (Hfirst Hcontent) as (first & rest & -> & Hne).
    destruct first as [|c t]; [congruence|].
    destruct (join_head CRLF c t rest) as (tail & Ht). intros Hj.
    discriminate (eq_trans (eq_sym Hj) Ht). }
  destruct (negb (is_empty cid)) eqn:Hcid.
  - destruct (negb (is_empty (replace_class is_angle []
                                (sanitizeHeaderValue (Some cid))))) eqn:Hid.
    + eexists. exists [js "Content-ID: <"
                         ++ replace_class is_angle []
                              (sanitizeHeaderValue (Some cid)) ++ js ">"].
      exists (js "inline"). eexists.
      split; [reflexivity|]. split; [exact Hname|].
      split; [now left|]. split; [exact Hpayload|]. right.
      eexists. split; [reflexivity|].
      split; [now apply negb_true_iff, is_empty_false in Hid|].
      split; [|split; [|reflexivity]].
      * apply test_class_false. intros c Hc.
        now apply replace_class_in in Hc as [[]|[_ Hc]].
      * apply single_line_in. intros c Hc.
        apply replace_class_in in Hc as [[]|[Hc _]].
        pose proof (sanitizeHeaderValue_single_line (Some cid)) as Hl.
        rewrite single_line_in in Hl. now apply Hl.
    + eexists. exists []. exists (js "inline"). eexists.
      split; [reflexivity|]. split; [exact Hname|].
      split; [now left|]. split; [exact Hpayload|]. now left.
  - eexists. exists []. exists (js "attachment"). eexists.
    split; [reflexivity|]. split; [exact Hname|].
    split; [right; now left|]. split; [exact Hpayload|]. now left.
Qed.

(** X22, witness: the attachment [logo.png]. *)
Lemma buildAttachmentPart_file_name_witness :
  exists mimeType identifier disposition payload,
    [js "Content-Type: image/png; name=" ++ [DQUOTE] ++ js "logo.png"
       ++ [DQUOTE];
     js "Content-Transfer-Encoding: base64";
     js "Content-Disposition: attachment; filename=" ++ [DQUOTE]
       ++ js "logo.png" ++ [DQUOTE];
     [];
     js "QUJD"]
    = [js "Content-Type: " ++ mimeType ++ js "; name="
         ++ [DQUOTE] ++ js "logo.png" ++ [DQUOTE];
       js "Content-Transfer-Encoding: base64"]
      ++ identifier
      ++ [js "Content-Disposition: " ++ disposition ++ js "; filename="
            ++ [DQUOTE] ++ js "logo.png" ++ [DQUOTE];
          [];
          payload]
    /\ unquote ([DQUOTE] ++ js "logo.png" ++ [DQUOTE]) = Some (js "logo.png")
    /\ In disposition [js "inline"; js "attachment"]
    /\ payload <> []
    /\ (identifier = []
        \/ exists contentId,
             identifier = [js "Content-ID: <" ++ contentId ++ js ">"]
             /\ contentId <> []
             /\ test_class is_angle contentId = false
             /\ single_line contentId = true
             /\ disposition = js "inline").
Proof.
  apply (buildAttachmentPart_file_name (Some logo)). reflexivity.
Defined.

End BodyFacts.

(* ------------------------------------------------------------------ *)
(** ** The message handler *)

Module HandlerFacts.
Import Eml Props Handler Examples StringFacts AddressFacts.

(** *** Sets *)

Lemma Set_has_In s h : Set_has s h = true <-> In h s.
Proof.
  unfold Set_has. rewrite existsb_exists. split.
  - intros (x & Hx & He). apply str_eqb_eq in He. now subst.
  - intros H. exists h. split; [exact H|now apply str_eqb_eq].
Qed.

Lemma Set_has_not_In s h : Set_has s h = false <-> ~ In h s.
Proof.
  rewrite <- Set_has_In. destruct (Set_has s h); split; congruence.
Qed.

Lemma Set_add_In s h x : In x (Set_add s h) <-> In x s \/ x = h.
Proof.
  unfold Set_add. destruct (Set_has s h) eqn:Hh.
  - apply Set_has_In in Hh. split; [now left|].
    intros [H| ->]; assumption.
  - rewrite in_app_iff. cbn [In]. split; intros [H|H]; auto.
    destruct H as [<-|[]]. now right.
Qed.

Lemma Set_delete_In s h x : In x (Set_delete s h) <-> In x s /\ x <> h.
Proof.
  unfold Set_delete. rewrite filter_In, negb_true_iff. split.
  - intros [Hx He]. split; [exact Hx|]. intros ->.
    rewrite (proj2 (str_eqb_eq h h) eq_refl) in He. discriminate.
  - intros [Hx Hne]. split; [exact Hx|].
    destruct (str_eqb h x) eqn:He; [|reflexivity].
    apply str_eqb_eq in He. congruence.
Qed.

Lemma Set_add_NoDup s h : NoDup s -> NoDup (Set_add s h).
Proof.
  intros H. unfold Set_add. destruct (Set_has s h) eqn:Hh; [exact H|].
  apply Set_has_not_In in Hh.
  apply NoDup_app; [exact H|repeat constructor; intros []|].
  intros x Hx [<-|[]]. contradiction.
Qed.

Lemma Set_delete_NoDup s h : NoDup s -> NoDup (Set_delete s h).
Proof. apply NoDup_filter. Qed.

Lemma fold_Set_add values : forall s,
  (NoDup s -> NoDup (fold_left Set_add values s))
  /\ (forall x, In x (fold_left Set_add values s) <-> In x s \/ In x values).
Proof.
  induction values as [|v values IH]; intros s; cbn [fold_left].
  - split; [auto|]. intros x. cbn [In]. tauto.
  - destruct (IH (Set_add s v)) as [Hn Hi]. split.
    + intros H. apply Hn. now apply Set_add_NoDup.
    + intros x. rewrite Hi, Set_add_In. cbn [In].
      split; [intros [[H|H]|H]|intros [H|[H|H]]]; auto.
Qed.

Lemma new_Set_NoDup values : NoDup (new_Set values).
Proof. apply fold_Set_add. constructor. Qed.

Lemma new_Set_In values x : In x (new_Set values) <-> In x values.
Proof.
  unfold new_Set. rewrite (proj2 (fold_Set_add values [])). cbn [In]. tauto.
Qed.

(** *** Sorting *)

Lemma forallb_insert_by_time p m l :
  forallb p (insert_by_time m l) = p m && forallb p l.
Proof.
  induction l as [|x l IH]; cbn [insert_by_time forallb]; [reflexivity|].
  destruct (time_of m <? time_of x)%Z; cbn [forallb]; [|reflexivity].
  rewrite IH. now destruct (p m), (p x).
Qed.

Lemma insert_by_time_Permutation m l :
  Permutation (insert_by_time m l) (m :: l).
Proof.
  induction l as [|x l IH]; cbn [insert_by_time]; [reflexivity|].
  destruct (time_of m <? time_of x)%Z; [|reflexivity].
  rewrite IH. apply perm_swap.
Qed.

Lemma insert_by_time_sorted m l :
  newest_first l = true -> newest_first (insert_by_time m l) = true.
Proof.
  induction l as [|x l IH]; cbn [insert_by_time newest_first];
    [reflexivity|].
  intros H. apply andb_true_iff in H as [Hx Hl].
  destruct (time_of m <? time_of x)%Z eqn:Hlt; cbn [newest_first forallb].
  - rewrite forallb_insert_by_time, Hx, (IH Hl).
    replace (time_of m <=? time_of x)%Z with true by lia. reflexivity.
  - rewrite Hx, Hl. replace (time_of x <=? time_of m)%Z with true by lia.
    cbn [andb]. rewrite andb_true_r.
    apply forallb_forall. intros y Hy.
    rewrite forallb_forall in Hx. apply Hx in Hy. lia.
Qed.

Lemma sort_by_time_sorted l : newest_first (sort_by_time l) = true.
Proof.
  induction l as [|x l IH]; [reflexivity|].
  cbn [sort_by_time fold_right]. now apply insert_by_time_sorted.
Qed.

Lemma sort_by_time_Permutation l : Permutation (sort_by_time l) l.
Proof.
  induction l as [|x l IH]; [reflexivity|].
  cbn [sort_by_time fold_right]. rewrite insert_by_time_Permutation.
  now constructor.
Qed.

Lemma sort_by_time_fixed l : newest_first l = true -> sort_by_time l = l.
Proof.
  induction l as [|x l IH]; [reflexivity|].
  cbn [newest_first sort_by_time fold_right]. intros H.
  apply andb_true_iff in H as [Hx Hl].
  fold (sort_by_time l). rewrite (IH Hl).
  destruct l as [|y l]; [reflexivity|].
  cbn [insert_by_time]. cbn [forallb] in Hx.
  apply andb_true_iff in Hx as [Hy _].
  replace (time_of x <? time_of y)%Z with false by lia. reflexivity.
Qed.

(** Where the insertion puts a message: behind the messages at the head of
    the list that are strictly later, and no further. *)
Lemma insert_by_time_position m l :
  exists before behind,
    l = before ++ behind
    /\ insert_by_time m l = before ++ m :: behind
    /\ Forall (fun x => (time_of m < time_of x)%Z) before
    /\ match behind with
       | x :: _ => (time_of x <= time_of m)%Z
       | [] => True
       end.
Proof.
  induction l as [|x l (before & behind & Hl & Hi & Hb & Hh)];
    cbn [insert_by_time].
  - exists [], []. repeat split. constructor.
  - destruct (time_of m <? time_of x)%Z eqn:Hlt.
    + exists (x :: before), behind. rewrite Hi, Hl.
      repeat split; [|exact Hh]. constructor; [lia|exact Hb].
    + exists [], (x :: l). repeat split; [constructor|lia].
Qed.

(** X23 (addMessage, sortMessages).  Adding a message stores it under
    its file name with its hash and keeps everything else of the state; the
    list afterwards is the old list and the new message, with no message
    followed by a later one, a message without date counting as dated at
    the epoch.  In a list that was in this order the other messages keep
    their places, and the new one stands behind those that are strictly
    later and before those of the same time. *)
Theorem addMessage_newest_first (host : Host)
  (md5_hashInput : MsgInfo -> jsstring -> jsstring) (info : MsgInfo)
  (name : jsstring) (st : State) :
  let added := fst (addMessage host md5_hashInput info name st) in
  let st' := snd (addMessage host md5_hashInput info name st) in
  msgInfo added = info
  /\ fileName added = name
  /\ messageHash added = md5_hashInput info name
  /\ Permutation (messages st') (added :: messages st)
  /\ newest_first (messages st') = true
  /\ pinnedMessages st' = pinnedMessages st
  /\ selectedMessages st' = selectedMessages st
  /\ storage_pinnedMessages st' = storage_pinnedMessages st
  /\ currentMessage st' = currentMessage st
  /\ (newest_first (messages st) = true ->
      exists before behind,
        messages st = before ++ behind
        /\ messages st' = before ++ added :: behind
        /\ Forall (fun x => (time_of added < time_of x)%Z) before
        /\ match behind with
           | x :: _ => (time_of x <= time_of added)%Z
           | [] => True
           end).
Proof.
  cbn zeta. unfold addMessage. cbn [fst snd sortMessages messages
    pinnedMessages selectedMessages storage_pinnedMessages currentMessage
    msgInfo fileName messageHash].
  repeat split.
  - apply sort_by_time_Permutation.
  - apply sort_by_time_sorted.
  - intros Hsorted. cbn [sort_by_time fold_right].
    fold (sort_by_time (messages st)). rewrite (sort_by_time_fixed _ Hsorted).
    apply insert_by_time_position.
Qed.

Lemma first_valid_date_cons host val rest :
  first_valid_date host (val :: rest)
  = match truthy_date val with
    | Some v =>
        match new_Date host v with
        | Some time => Some time
        | None => first_valid_date host rest
        end
    | None => first_valid_date host rest
    end.
Proof. reflexivity. Qed.

(** X24 (addMessage, getMessageDate).  The timestamp a message is listed
    under is the time of the first of its delivery, submit, creation and
    modification times that is set and valid.  The exporter reads the
    delivery time before the timestamp: when the delivery time is missing
    or valid, the [Date] it writes is the timestamp of the list; when the
    delivery time is set but not a valid date, it writes no [Date] at all,
    although the message may be listed under a later field. *)
Theorem addMessage_export_date (host : Host)
  (md5_hashInput : MsgInfo -> jsstring -> jsstring) (info : MsgInfo)
  (name : jsstring) (st : State) :
  let added := fst (addMessage host md5_hashInput info name st) in
  let exported := getMessageDate host (Some (as_message added)) in
  let others :=
    first_valid_date host
      [clientSubmitTime info; creationTime info; lastModificationTime info] in
  match truthy_date (Message.messageDeliveryTime (fields info)) with
  | Some delivery =>
      match new_Date host delivery with
      | Some time =>
          timestamp added = Some time
          /\ exported = Date_toUTCString host time
      | None => timestamp added = others /\ exported = []
      end
  | None =>
      timestamp added = others
      /\ exported = match others with
                    | Some time => Date_toUTCString host time
                    | None => []
                    end
  end.
Proof.
  cbn zeta. unfold addMessage, getMessageDate, as_message.
  cbn [fst timestamp msgInfo opt_chain Message.messageDeliveryTime
         Message.timestamp].
  rewrite first_valid_date_cons.
  set (others := first_valid_date host _).
  destruct (truthy_date (Message.messageDeliveryTime (fields info)))
    as [delivery|].
  - destruct (new_Date host delivery) as [time|]; split; reflexivity.
  - split; [reflexivity|]. now destruct others as [time|].
Qed.

(** *** Deleting *)

Lemma element_at {A : Type} (before : list A) m behind :
  element (before ++ m :: behind) (Int (Z.of_nat (List.length before)))
  = Some m.
Proof.
  unfold element. rewrite length_app. cbn [List.length].
  replace ((0 <=? Z.of_nat (List.length before))
           && (Z.of_nat (List.length before)
               <? Z.of_nat (List.length before + S (List.length behind))))%Z
    with true by lia.
  rewrite Nat2Z.id, nth_error_app2 by lia.
  now rewrite Nat.sub_diag.
Qed.

Lemma splice_one_at {A : Type} (before : list A) m behind :
  splice_one (before ++ m :: behind) (Int (Z.of_nat (List.length before)))
  = before ++ behind.
Proof.
  unfold splice_one. rewrite length_app. cbn [List.length].
  set (n := List.length before). set (k := List.length behind).
  replace (Z.of_nat n <? 0)%Z with false by lia.
  replace (Z.min (Z.of_nat n) (Z.of_nat (n + S k))) with (Z.of_nat n) by lia.
  replace (Z.min 1 (Z.of_nat (n + S k) - Z.of_nat n)) with 1%Z by lia.
  replace (Z.to_nat (Z.of_nat n + 1)) with (S n) by lia.
  rewrite Nat2Z.id. subst n.
  rewrite firstn_app, Nat.sub_diag, firstn_all. cbn [firstn].
  rewrite app_nil_r. f_equal.
  rewrite skipn_app, skipn_all2 by lia.
  replace (S (List.length before) - List.length before)%nat with 1%nat by lia.
  reflexivity.
Qed.

Lemma list_at {A : Type} (l : list A) : forall n,
  (n < List.length l)%nat ->
  exists m, l = firstn n l ++ m :: skipn (S n) l.
Proof.
  induction l as [|x l IH]; intros n Hn; [cbn in Hn; lia|].
  destruct n as [|n]; [now exists x|].
  destruct (IH n) as (m & Hm); [cbn in Hn; lia|].
  exists m. change (x :: l = x :: (firstn n l ++ m :: skipn (S n) l)).
  now f_equal.
Qed.

(** What [splice] removes: nothing, or one element. *)
Lemma splice_one_cases {A : Type} (l : list A) index :
  splice_one l index = l
  \/ exists before m behind,
       l = before ++ m :: behind /\ splice_one l index = before ++ behind.
Proof.
  unfold splice_one.
  set (len := Z.of_nat (List.length l)).
  set (start := if ((match index with NaN => 0 | Int z => z end) <? 0)%Z
                then Z.max (len + match index with NaN => 0 | Int z => z end) 0
                else Z.min (match index with NaN => 0 | Int z => z end) len).
  assert (Hs : (0 <= start <= len)%Z).
  { unfold start, len. destruct index as [|z].
    - change (0 <? 0)%Z with false. cbv iota. lia.
    - destruct (z <? 0)%Z eqn:Hz; lia. }
  destruct (Z.eq_dec start len) as [He|Hne].
  - left. rewrite He. replace (Z.min 1 (len - len)) with 0%Z by lia.
    rewrite Z.add_0_r. unfold len. rewrite Nat2Z.id.
    now rewrite firstn_all, skipn_all, app_nil_r.
  - right. replace (Z.min 1 (len - start)) with 1%Z by lia.
    replace (Z.to_nat (start + 1)) with (S (Z.to_nat start)) by lia.
    destruct (list_at l (Z.to_nat start)) as (m & Hm); [unfold len in *; lia|].
    exists (firstn (Z.to_nat start) l), m, (skipn (S (Z.to_nat start)) l).
    split; [exact Hm|reflexivity].
Qed.

Lemma last_Some {A : Type} (l : list A) x :
  last (List.map Some (l ++ [x])) None = Some x.
Proof. rewrite map_app. apply last_last. Qed.

(** X25 (deleteMessage).  Deleting the message at a position of the list
    takes this one message out, removes its hash from the pinned and from
    the selected set, writes the pinned set to the storage and leaves the
    current message as it is.  What is returned is the message that
    followed the deleted one, or else the one that preceded it, or [null]
    when the list is left empty.  A second copy of the message, stored
    under the same hash, stays in the list but is no longer pinned nor
    selected. *)
Theorem deleteMessage_at_position (st : State) (before behind : list Stored)
  (m : Stored) :
  messages st = before ++ m :: behind ->
  exists st',
    deleteMessage (Int (Z.of_nat (List.length before))) st
    = Done
        (match behind with
         | next :: _ => Some next
         | [] => last (List.map Some before) None
         end) st'
    /\ messages st' = before ++ behind
    /\ pinnedMessages st' = Set_delete (pinnedMessages st) (messageHash m)
    /\ selectedMessages st' = Set_delete (selectedMessages st) (messageHash m)
    /\ storage_pinnedMessages st' = Some (pinnedMessages st')
    /\ currentMessage st' = currentMessage st
    /\ (forall copy,
          messageHash copy = messageHash m ->
          isPinned st' copy = false /\ isSelected st' copy = false).
Proof.
  intros Hl. unfold deleteMessage. rewrite Hl, element_at, splice_one_at.
  cbn [savePinnedMessages messages pinnedMessages selectedMessages
         storage_pinnedMessages currentMessage].
  exists {| messages := before ++ behind;
            currentMessage := currentMessage st;
            pinnedMessages := Set_delete (pinnedMessages st) (messageHash m);
            selectedMessages :=
              Set_delete (selectedMessages st) (messageHash m);
            storage_pinnedMessages :=
              Some (Set_delete (pinnedMessages st) (messageHash m)) |}.
  split; [|repeat split].
  - destruct behind as [|next behind].
    + rewrite app_nil_r.
      destruct before as [|b before']; [reflexivity|].
      destruct (exists_last (l := b :: before') ltac:(discriminate))
        as (l & x & Hx).
      rewrite Hx. rewrite last_Some.
      replace (is_empty_list (l ++ [x])) with false by now destruct l.
      f_equal. unfold element. rewrite !length_app. cbn [List.length].
      replace (Z.min (Z.of_nat (List.length l + 1))
                 (Z.of_nat (List.length l + 1) - 1))
        with (Z.of_nat (List.length l)) by lia.
      replace ((0 <=? Z.of_nat (List.length l))
               && (Z.of_nat (List.length l)
                   <? Z.of_nat (List.length l + 1)))%Z with true by lia.
      rewrite Nat2Z.id, nth_error_app2 by lia.
      now rewrite Nat.sub_diag.
    + replace (is_empty_list (before ++ next :: behind)) with false
        by now destruct before.
      f_equal. rewrite length_app. cbn [List.length].
      replace (Z.min (Z.of_nat (List.length before))
                 (Z.of_nat (List.length before + S (List.length behind)) - 1))
        with (Z.of_nat (List.length before)) by lia.
      apply element_at.
  - unfold isPinned. cbn [pinnedMessages]. apply Set_has_not_In.
    rewrite Set_delete_In. intros [_ Hne]. congruence.
  - unfold isSelected. cbn [selectedMessages]. apply Set_has_not_In.
    rewrite Set_delete_In. intros [_ Hne]. congruence.
Qed.

(** X25, witness: the first of two messages. *)
Lemma deleteMessage_at_position_witness :
  exists st',
    deleteMessage (Int 0)
      (holding [stored_as (js "a") (Some 2%Z); stored_as (js "b") (Some 1%Z)])
    = Done (Some (stored_as (js "b") (Some 1%Z))) st'
    /\ messages st' = [stored_as (js "b") (Some 1%Z)]
    /\ pinnedMessages st' = []
    /\ selectedMessages st' = []
    /\ storage_pinnedMessages st' = Some (pinnedMessages st')
    /\ currentMessage st' = None
    /\ (forall copy,
          messageHash copy = js "a" ->
          isPinned st' copy = false /\ isSelected st' copy = false).
Proof.
  apply (deleteMessage_at_position
           (holding [stored_as (js "a") (Some 2%Z);
                     stored_as (js "b") (Some 1%Z)])
           [] [stored_as (js "b") (Some 1%Z)] (stored_as (js "a") (Some 2%Z))).
  reflexivity.
Defined.

(** X26 (deleteMessage).  With an index that is not a position of the
    list the method raises a [TypeError], and it does so after the
    [splice]: the sets, the storage and the current message are as before,
    but with [NaN] the first message of the list is gone, and with [-1]
    the last one; only an index at or beyond the end leaves the list
    untouched. *)
Theorem deleteMessage_not_a_position (index : JsIndex) (st : State) :
  element (messages st) index = None ->
  exists st',
    deleteMessage index st = Raised TypeError st'
    /\ pinnedMessages st' = pinnedMessages st
    /\ selectedMessages st' = selectedMessages st
    /\ storage_pinnedMessages st' = storage_pinnedMessages st
    /\ currentMessage st' = currentMessage st
    /\ (index = NaN -> messages st' = tl (messages st))
    /\ (index = Int (-1) -> messages st' = removelast (messages st))
    /\ (forall z, index = Int z -> (0 <= z)%Z -> messages st' = messages st).
Proof.
  intros Hnone. unfold deleteMessage. rewrite Hnone.
  eexists. split; [reflexivity|]. cbn [messages pinnedMessages
    selectedMessages storage_pinnedMessages currentMessage].
  repeat split.
  - intros ->. unfold splice_one.
    change (0 <? 0)%Z with false. cbv iota.
    destruct (messages st) as [|x l]; [reflexivity|].
    cbn [List.length tl].
    replace (Z.min 0 (Z.of_nat (S (List.length l)))) with 0%Z by lia.
    replace (Z.min 1 (Z.of_nat (S (List.length l)) - 0)) with 1%Z by lia.
    reflexivity.
  - intros ->. unfold splice_one.
    change (-1 <? 0)%Z with true. cbv iota.
    destruct (messages st) as [|x l] eqn:Hl; [reflexivity|].
    rewrite <- Hl.
    assert (Hlen : (0 < List.length (messages st))%nat)
      by (rewrite Hl; cbn [List.length]; lia).
    set (len := List.length (messages st)) in *.
    replace (Z.max (Z.of_nat len + -1) 0) with (Z.of_nat (len - 1)) by lia.
    replace (Z.min 1 (Z.of_nat len - Z.of_nat (len - 1))) with 1%Z by lia.
    replace (Z.to_nat (Z.of_nat (len - 1) + 1)) with len by lia.
    rewrite Nat2Z.id. unfold len.
    rewrite skipn_all, app_nil_r, removelast_firstn_len.
    f_equal. lia.
  - intros z -> Hz. unfold element in Hnone. unfold splice_one.
    replace (z <? 0)%Z with false by lia.
    replace (0 <=? z)%Z with true in Hnone by lia. cbn [andb] in Hnone.
    destruct (z <? Z.of_nat (List.length (messages st)))%Z eqn:Hlt.
    + exfalso. apply nth_error_None in Hnone. lia.
    + replace (Z.min z (Z.of_nat (List.length (messages st))))
        with (Z.of_nat (List.length (messages st))) by lia.
      rewrite Z.sub_diag. replace (Z.min 1 0) with 0%Z by lia.
      rewrite Z.add_0_r, Nat2Z.id.
      now rewrite firstn_all, skipn_all, app_nil_r.
Qed.

(** X26, witness: [NaN] on a list of two messages. *)
Lemma deleteMessage_not_a_position_witness :
  exists st',
    deleteMessage NaN
      (holding [stored_as (js "a") (Some 2%Z); stored_as (js "b") (Some 1%Z)])
    = Raised TypeError st'
    /\ pinnedMessages st' = []
    /\ selectedMessages st' = []
    /\ storage_pinnedMessages st' = None
    /\ currentMessage st' = None
    /\ (NaN = NaN -> messages st' = [stored_as (js "b") (Some 1%Z)])
    /\ (NaN = Int (-1) ->
        messages st'
        = removelast
            [stored_as (js "a") (Some 2%Z); stored_as (js "b") (Some 1%Z)])
    /\ (forall z, NaN = Int z -> (0 <= z)%Z ->
        messages st'
        = [stored_as (js "a") (Some 2%Z); stored_as (js "b") (Some 1%Z)]).
Proof.
  apply (deleteMessage_not_a_position NaN
           (holding [stored_as (js "a") (Some 2%Z);
                     stored_as (js "b") (Some 1%Z)])).
  reflexivity.
Defined.

(** *** Deleting by hash *)

Lemma fold_delete hashes : forall st,
  let st' :=
    fold_left
      (fun st hash =>
         {| messages := messages st;
            currentMessage := currentMessage st;
            pinnedMessages := Set_delete (pinnedMessages st) hash;
            selectedMessages := Set_delete (selectedMessages st) hash;
            storage_pinnedMessages := storage_pinnedMessages st |})
      hashes st in
  messages st' = messages st
  /\ currentMessage st' = currentMessage st
  /\ storage_pinnedMessages st' = storage_pinnedMessages st
  /\ (forall h, In h (pinnedMessages st')
                <-> In h (pinnedMessages st) /\ ~ In h hashes)
  /\ (forall h, In h (selectedMessages st')
                <-> In h (selectedMessages st) /\ ~ In h hashes)
  /\ (NoDup (pinnedMessages st) -> NoDup (pinnedMessages st'))
  /\ (NoDup (selectedMessages st) -> NoDup (selectedMessages st')).
Proof.
  induction hashes as [|hash hashes IH]; intros st; cbn zeta;
    cbn [fold_left].
  - repeat split; auto; try tauto; intros H; cbn [In]; tauto.
  - specialize (IH {| messages := messages st;
                      currentMessage := currentMessage st;
                      pinnedMessages := Set_delete (pinnedMessages st) hash;
                      selectedMessages := Set_delete (selectedMessages st) hash;
                      storage_pinnedMessages := storage_pinnedMessages st |}).
    cbn zeta in IH. cbn [messages currentMessage pinnedMessages
      selectedMessages storage_pinnedMessages] in IH.
    destruct IH as (Hm & Hc & Hs & Hp & Hsel & Hnp & Hns).
    split; [exact Hm|]. split; [exact Hc|]. split; [exact Hs|].
    split; [|split; [|split]].
    + intros h. rewrite Hp, Set_delete_In. cbn [In].
      split; [intros [[H1 H2] H3]|intros [H1 H2]]; repeat split; auto.
      intros [->|H]; auto.
    + intros h. rewrite Hsel, Set_delete_In. cbn [In].
      split; [intros [[H1 H2] H3]|intros [H1 H2]]; repeat split; auto.
      intros [->|H]; auto.
    + intros H. now apply Hnp, Set_delete_NoDup.
    + intros H. now apply Hns, Set_delete_NoDup.
Qed.

Lemma Set_has_new_Set values h :
  Set_has (new_Set values) h = Set_has values h.
Proof.
  destruct (Set_has values h) eqn:H.
  - apply Set_has_In. apply new_Set_In. now apply Set_has_In.
  - apply Set_has_not_In. rewrite new_Set_In. now apply Set_has_not_In.
Qed.

Lemma filter_length_split {A : Type} (p : A -> bool) l :
  (List.length (filter p l) + List.length (filter (fun x => negb (p x)) l)
   = List.length l)%nat.
Proof.
  induction l as [|x l IH]; [reflexivity|]. cbn [filter].
  destruct (p x); cbn [negb List.length]; lia.
Qed.

Lemma filter_all {A : Type} (l : list A) : filter (fun _ => true) l = l.
Proof. induction l as [|x l IH]; [reflexivity|]. cbn [filter]. now rewrite IH. Qed.

Lemma filter_none {A : Type} (l : list A) : filter (fun _ => false) l = [].
Proof. induction l as [|x l IH]; [reflexivity|exact IH]. Qed.

Lemma new_Set_nil values : new_Set values = [] <-> values = [].
Proof.
  split; [|now intros ->]. intros H.
  destruct values as [|v values]; [reflexivity|]. exfalso.
  assert (Hin : In v (new_Set (v :: values)))
    by (apply new_Set_In; now left).
  now rewrite H in Hin.
Qed.

(** X27 (deleteMessagesByHash).  Deleting by hash takes out of the list
    every message whose hash is among the given ones, keeps the others in
    their order, and returns the number of messages taken out, which
    counts copies stored under one hash each.  The given hashes leave the
    pinned and the selected set, whether or not a message was stored under
    them, and the pinned set is written to the storage.  Without any hash
    the method returns zero and changes nothing, the storage included. *)
Theorem deleteMessagesByHash_count (hashes : list jsstring) (st : State) :
  let deleted := fst (deleteMessagesByHash hashes st) in
  let st' := snd (deleteMessagesByHash hashes st) in
  messages st'
  = filter (fun m => negb (Set_has hashes (messageHash m))) (messages st)
  /\ deleted
     = List.length
         (filter (fun m => Set_has hashes (messageHash m)) (messages st))
  /\ (deleted + List.length (messages st') = List.length (messages st))%nat
  /\ (forall h, In h (pinnedMessages st')
                <-> In h (pinnedMessages st) /\ ~ In h hashes)
  /\ (forall h, In h (selectedMessages st')
                <-> In h (selectedMessages st) /\ ~ In h hashes)
  /\ currentMessage st' = currentMessage st
  /\ (hashes <> [] -> storage_pinnedMessages st' = Some (pinnedMessages st'))
  /\ (hashes = [] -> st' = st).
Proof.
  cbn zeta. unfold deleteMessagesByHash.
  destruct (is_empty_list (new_Set hashes)) eqn:He.
  - assert (Hn : hashes = []).
    { apply new_Set_nil. now destruct (new_Set hashes). }
    subst hashes. cbn [fst snd Set_has existsb negb].
    rewrite filter_all, filter_none. cbn [In]. repeat split; try tauto; congruence.
  - cbn [fst snd].
    set (kept := filter (fun m => negb (Set_has (new_Set hashes) (messageHash m)))
                   (messages st)).
    pose proof (fold_delete (new_Set hashes)
                  {| messages := kept;
                     currentMessage := currentMessage st;
                     pinnedMessages := pinnedMessages st;
                     selectedMessages := selectedMessages st;
                     storage_pinnedMessages := storage_pinnedMessages st |})
      as Hfold.
    cbn zeta in Hfold.
    cbn [messages currentMessage pinnedMessages selectedMessages
           storage_pinnedMessages] in Hfold.
    destruct Hfold as (Hm & Hc & _ & Hp & Hs & _).
    cbn [savePinnedMessages messages currentMessage pinnedMessages
           selectedMessages storage_pinnedMessages].
    rewrite Hm.
    assert (Hkept : kept
                    = filter (fun m => negb (Set_has hashes (messageHash m)))
                        (messages st)).
    { unfold kept. apply filter_ext. intros m.
      now rewrite Set_has_new_Set. }
    pose proof (filter_length_split
                  (fun m => Set_has hashes (messageHash m)) (messages st))
      as Hlen.
    cbv beta in Hlen. rewrite <- Hkept in Hlen.
    split; [exact Hkept|]. split; [lia|]. split; [lia|].
    split; [intros h; rewrite Hp, new_Set_In; reflexivity|].
    split; [intros h; rewrite Hs, new_Set_In; reflexivity|].
    split; [exact Hc|]. split; [reflexivity|].
    intros ->. discriminate.
Qed.

(** *** Pinning *)

(** X28 (togglePin, isPinned, savePinnedMessages).  Toggling the pin of
    the message at a position changes whether it is pinned and nothing
    else about the list; toggling it again gives back a pinned set with the
    elements it had, and after each of the two calls the storage holds the
    pinned set as it then is.  With an index that is not a position the
    method raises a [TypeError] and changes nothing. *)
Theorem togglePin_twice (index : JsIndex) (st : State) :
  match element (messages st) index with
  | Some m =>
      exists st1 st2,
        togglePin index st = Done m st1
        /\ togglePin index st1 = Done m st2
        /\ isPinned st1 m = negb (isPinned st m)
        /\ isPinned st2 m = isPinned st m
        /\ (forall h, In h (pinnedMessages st2) <-> In h (pinnedMessages st))
        /\ (forall h, h <> messageHash m ->
                      (In h (pinnedMessages st1) <-> In h (pinnedMessages st)))
        /\ storage_pinnedMessages st1 = Some (pinnedMessages st1)
        /\ storage_pinnedMessages st2 = Some (pinnedMessages st2)
        /\ messages st2 = messages st
        /\ selectedMessages st2 = selectedMessages st
  | None => togglePin index st = Raised TypeError st
  end.
Proof.
  destruct (element (messages st) index) as [m|] eqn:Hm;
    [|unfold togglePin; now rewrite Hm].
  set (h := messageHash m). set (pinned := pinnedMessages st).
  set (pinned1 := if Set_has pinned h then Set_delete pinned h
                  else Set_add pinned h).
  set (pinned2 := if Set_has pinned1 h then Set_delete pinned1 h
                  else Set_add pinned1 h).
  exists {| messages := messages st;
            currentMessage := currentMessage st;
            pinnedMessages := pinned1;
            selectedMessages := selectedMessages st;
            storage_pinnedMessages := Some pinned1 |}.
  exists {| messages := messages st;
            currentMessage := currentMessage st;
            pinnedMessages := pinned2;
            selectedMessages := selectedMessages st;
            storage_pinnedMessages := Some pinned2 |}.
  split; [unfold togglePin; rewrite Hm; reflexivity|].
  split; [unfold togglePin; cbn [messages]; rewrite Hm; reflexivity|].
  unfold isPinned.
  cbn [pinnedMessages messages selectedMessages storage_pinnedMessages].
  fold h pinned. unfold pinned2, pinned1.
  destruct (Set_has pinned h) eqn:Hh.
  - assert (Hgone : Set_has (Set_delete pinned h) h = false).
    { apply Set_has_not_In. rewrite Set_delete_In. tauto. }
    rewrite Hgone. apply Set_has_In in Hh.
    split; [reflexivity|].
    split; [apply Set_has_In, Set_add_In; now right|].
    split; [|split; [|repeat split]].
    + intros x. rewrite Set_add_In, Set_delete_In.
      split; [intros [[H _]| ->]; assumption|].
      intros H. destruct (list_eq_dec N.eq_dec x h) as [->|Hne]; tauto.
    + intros x Hne. rewrite Set_delete_In. tauto.
  - assert (Hthere : Set_has (Set_add pinned h) h = true).
    { apply Set_has_In, Set_add_In. now right. }
    rewrite Hthere. apply Set_has_not_In in Hh.
    split; [reflexivity|].
    split; [apply Set_has_not_In; rewrite Set_delete_In; tauto|].
    split; [|split; [|repeat split]].
    + intros x. rewrite Set_delete_In, Set_add_In.
      split; [intros [[H| ->] Hne]; tauto|].
      intros H. split; [now left|]. intros ->. contradiction.
    + intros x Hne. rewrite Set_add_In. tauto.
Qed.

(** *** Selecting *)

Lemma setSelected_selected m (flag : bool) st :
  let st' := setSelected m flag st in
  messages st' = messages st
  /\ currentMessage st' = currentMessage st
  /\ pinnedMessages st' = pinnedMessages st
  /\ storage_pinnedMessages st' = storage_pinnedMessages st
  /\ (forall h, In h (selectedMessages st')
                <-> if flag
                    then In h (selectedMessages st) \/ In h (selectable [m])
                    else In h (selectedMessages st) /\ ~ In h (selectable [m]))
  /\ (NoDup (selectedMessages st) -> NoDup (selectedMessages st')).
Proof.
  cbn zeta. unfold setSelected, selectable, opt_chain. cbn [flat_map].
  rewrite app_nil_r.
  destruct m as [m|]; [destruct (messageHash m) as [|c t]|]; cbn [is_empty].
  - repeat split; auto; destruct flag; cbn [In]; tauto.
  - cbn [messages currentMessage pinnedMessages selectedMessages
           storage_pinnedMessages].
    repeat split.
    + destruct flag; [rewrite Set_add_In|rewrite Set_delete_In]; cbn [In].
      * intros [H|H]; auto.
      * intros [H Hne]. split; [exact H|]. intros [He|[]]. congruence.
    + destruct flag; [rewrite Set_add_In|rewrite Set_delete_In]; cbn [In].
      * intros [H|[H|[]]]; auto.
      * intros [H Hne]. split; [exact H|]. intros He. apply Hne. now left.
    + intros H. destruct flag;
        [now apply Set_add_NoDup|now apply Set_delete_NoDup].
  - repeat split; auto; destruct flag; cbn [In]; tauto.
Qed.

Lemma selectable_cons m array :
  selectable (m :: array) = selectable [m] ++ selectable array.
Proof. unfold selectable. cbn [flat_map]. now rewrite app_nil_r. Qed.

Lemma selectable_not_empty array : ~ In [] (selectable array).
Proof.
  unfold selectable. rewrite in_flat_map. intros (m & _ & H).
  destruct m as [m|]; [|destruct H].
  destruct (messageHash m) as [|c t]; cbn [is_empty] in H; [destruct H|].
  destruct H as [H|[]]. discriminate.
Qed.

Lemma fold_setSelected array (flag : bool) : forall st,
  let st' := fold_left (fun st m => setSelected m flag st) array st in
  messages st' = messages st
  /\ currentMessage st' = currentMessage st
  /\ pinnedMessages st' = pinnedMessages st
  /\ storage_pinnedMessages st' = storage_pinnedMessages st
  /\ (forall h, In h (selectedMessages st')
                <-> if flag
                    then In h (selectedMessages st) \/ In h (selectable array)
                    else In h (selectedMessages st) /\ ~ In h (selectable array))
  /\ (NoDup (selectedMessages st) -> NoDup (selectedMessages st')).
Proof.
  induction array as [|m array IH]; intros st; cbn zeta; cbn [fold_left].
  - repeat split; auto; destruct flag; cbn [selectable flat_map In]; tauto.
  - destruct (setSelected_selected m flag st) as (Hm & Hc & Hp & Hs & Hsel & Hn).
    destruct (IH (setSelected m flag st)) as (Hm' & Hc' & Hp' & Hs' & Hsel' & Hn').
    cbn zeta in *.
    split; [congruence|]. split; [congruence|]. split; [congruence|].
    split; [congruence|]. split; [|auto].
    intros h. specialize (Hsel h). specialize (Hsel' h).
    rewrite selectable_cons.
    destruct flag; cbv iota in *; rewrite in_app_iff; tauto.
Qed.

(** X29 (setSelectionForMessages, setSelected, getSelectedMessages).
    Selecting an array of messages adds to the selected set the hashes of
    those elements that are messages with a hash, and deselecting it
    removes them; elements that are [null] or have no hash are passed
    over, and an argument that is not an array changes nothing.  The list,
    the pinned set and the storage are not touched.  The selected messages
    are then the messages of the list, in its order, whose hash is in the
    set, and after [clearSelection] there is none. *)
Theorem setSelectionForMessages_selected (array : list (option Stored))
  (flag : bool) (st : State) :
  let st' := setSelectionForMessages (Some array) flag st in
  (forall h, In h (selectedMessages st')
             <-> if flag
                 then In h (selectedMessages st) \/ In h (selectable array)
                 else In h (selectedMessages st) /\ ~ In h (selectable array))
  /\ getSelectedMessages st'
     = filter
         (fun m =>
            if flag
            then Set_has (selectedMessages st) (messageHash m)
                 || Set_has (selectable array) (messageHash m)
            else Set_has (selectedMessages st) (messageHash m)
                 && negb (Set_has (selectable array) (messageHash m)))
         (messages st)
  /\ messages st' = messages st
  /\ pinnedMessages st' = pinnedMessages st
  /\ storage_pinnedMessages st' = storage_pinnedMessages st
  /\ setSelectionForMessages None flag st = st
  /\ getSelectedMessages (clearSelection st') = [].
Proof.
  cbn zeta. unfold setSelectionForMessages.
  destruct (fold_setSelected array flag st) as (Hm & _ & Hp & Hs & Hsel & _).
  cbn zeta in *.
  split; [exact Hsel|]. split; [|repeat split; auto].
  - unfold getSelectedMessages. rewrite Hm. apply filter_ext. intros m.
    apply eq_true_iff_eq. rewrite Set_has_In, Hsel.
    destruct flag.
    + now rewrite orb_true_iff, !Set_has_In.
    + rewrite andb_true_iff, negb_true_iff, Set_has_In, Set_has_not_In.
      reflexivity.
  - unfold getSelectedMessages, clearSelection.
    cbn [selectedMessages messages Set_has existsb]. apply filter_none.
Qed.

(** *** What every call keeps *)

Lemma forallb_filter {A : Type} (q p : A -> bool) l :
  forallb q l = true -> forallb q (filter p l) = true.
Proof.
  rewrite !forallb_forall. intros H x Hx. apply filter_In in Hx as [Hx _].
  now apply H.
Qed.

Lemma newest_first_filter p l :
  newest_first l = true -> newest_first (filter p l) = true.
Proof.
  induction l as [|x l IH]; [reflexivity|]. cbn [newest_first filter].
  intros H. apply andb_true_iff in H as [Hx Hl].
  destruct (p x); [|now apply IH].
  cbn [newest_first]. now rewrite forallb_filter, IH.
Qed.

Lemma newest_first_remove before m behind :
  newest_first (before ++ m :: behind) = true ->
  newest_first (before ++ behind) = true.
Proof.
  induction before as [|x before IH]; cbn [app newest_first].
  - intros H. now apply andb_true_iff in H as [_ H].
  - intros H. apply andb_true_iff in H as [Hx Hl].
    rewrite (IH Hl), andb_true_r.
    rewrite forallb_app in *. cbn [forallb] in Hx.
    apply andb_true_iff in Hx as [H1 H2].
    apply andb_true_iff in H2 as [_ H2]. now rewrite H1, H2.
Qed.

Lemma newest_first_splice l index :
  newest_first l = true -> newest_first (splice_one l index) = true.
Proof.
  intros H.
  destruct (splice_one_cases l index) as [->|(before & m & behind & Hl & ->)];
    [exact H|].
  rewrite Hl in H. now apply newest_first_remove in H.
Qed.

Lemma fold_setPinned hashes (flag : bool) : forall st,
  let st' :=
    fold_left
      (fun st hash =>
         {| messages := messages st;
            currentMessage := currentMessage st;
            pinnedMessages :=
              if flag then Set_add (pinnedMessages st) hash
              else Set_delete (pinnedMessages st) hash;
            selectedMessages := selectedMessages st;
            storage_pinnedMessages := storage_pinnedMessages st |})
      hashes st in
  messages st' = messages st
  /\ currentMessage st' = currentMessage st
  /\ selectedMessages st' = selectedMessages st
  /\ storage_pinnedMessages st' = storage_pinnedMessages st
  /\ (forall h, In h (pinnedMessages st')
                <-> if flag then In h (pinnedMessages st) \/ In h hashes
                    else In h (pinnedMessages st) /\ ~ In h hashes)
  /\ (NoDup (pinnedMessages st) -> NoDup (pinnedMessages st')).
Proof.
  induction hashes as [|hash hashes IH]; intros st; cbn zeta;
    cbn [fold_left].
  - repeat split; auto; destruct flag; cbn [In]; tauto.
  - specialize (IH {| messages := messages st;
                      currentMessage := currentMessage st;
                      pinnedMessages :=
                        if flag then Set_add (pinnedMessages st) hash
                        else Set_delete (pinnedMessages st) hash;
                      selectedMessages := selectedMessages st;
                      storage_pinnedMessages := storage_pinnedMessages st |}).
    cbn zeta in IH. cbn [messages currentMessage pinnedMessages
      selectedMessages storage_pinnedMessages] in IH.
    destruct IH as (Hm & Hc & Hs & Hst & Hp & Hn).
    split; [exact Hm|]. split; [exact Hc|]. split; [exact Hs|].
    split; [exact Hst|]. split.
    + intros h. rewrite Hp. cbn [In].
      destruct flag; [rewrite Set_add_In|rewrite Set_delete_In].
      * split; [intros [[H|H]|H]|intros [H|[H|H]]]; auto.
      * split; [intros [[H1 H2] H3]|intros [H1 H2]]; repeat split; auto.
        intros [->|H]; auto.
    + intros H. apply Hn.
      destruct flag; [now apply Set_add_NoDup|now apply Set_delete_NoDup].
Qed.

Lemma constructor_well_kept stored : well_kept (constructor stored).
Proof.
  unfold well_kept, constructor.
  cbn [pinnedMessages selectedMessages messages storage_pinnedMessages].
  split; [apply new_Set_NoDup|]. split; [constructor|].
  split; [intros []|]. split; [reflexivity|].
  intros h. apply new_Set_In.
Qed.

Lemma after_well_kept host md5_hashInput st call :
  well_kept st -> well_kept (after host md5_hashInput st call).
Proof.
  intros (Hp & Hs & He & Hm & Hst). unfold well_kept.
  destruct call as [info name| |index|hashes|index|hashes flag|m flag
                   | |array flag|m]; cbn [after].
  - unfold addMessage. cbn [snd sortMessages pinnedMessages selectedMessages
      messages storage_pinnedMessages].
    repeat split; auto; try apply Hst. apply sort_by_time_sorted.
  - cbn [sortMessages pinnedMessages selectedMessages messages
      storage_pinnedMessages].
    repeat split; auto; try apply Hst. apply sort_by_time_sorted.
  - unfold deleteMessage.
    destruct (element (messages st) index) as [m|].
    + cbn [savePinnedMessages messages pinnedMessages selectedMessages
             storage_pinnedMessages currentMessage].
      destruct (is_empty_list (splice_one (messages st) index));
        cbn [state_of savePinnedMessages pinnedMessages selectedMessages
               messages storage_pinnedMessages storage_get];
        (split; [now apply Set_delete_NoDup|];
         split; [now apply Set_delete_NoDup|];
         split; [rewrite Set_delete_In; tauto|];
         split; [now apply newest_first_splice|reflexivity]).
    + cbn [state_of pinnedMessages selectedMessages messages
             storage_pinnedMessages].
      repeat split; auto; try apply Hst. now apply newest_first_splice.
  - unfold deleteMessagesByHash.
    destruct (is_empty_list (new_Set hashes)); cbn [snd];
      [repeat split; auto; apply Hst|].
    match goal with
    | |- context [fold_left ?f ?l ?s] =>
        pose proof (fold_delete l s) as Hfold
    end.
    cbn zeta in Hfold.
    cbn [messages currentMessage pinnedMessages selectedMessages
           storage_pinnedMessages] in Hfold.
    destruct Hfold as (Hm' & _ & _ & _ & Hsel & Hnp & Hns).
    cbn [savePinnedMessages messages pinnedMessages selectedMessages
           storage_pinnedMessages storage_get].
    split; [now apply Hnp|]. split; [now apply Hns|].
    split; [rewrite Hsel; tauto|].
    split; [rewrite Hm'; now apply newest_first_filter|reflexivity].
  - unfold togglePin.
    destruct (element (messages st) index) as [m|];
      cbn [state_of]; [|repeat split; auto; apply Hst].
    cbn [savePinnedMessages messages pinnedMessages selectedMessages
           storage_pinnedMessages storage_get].
    split; [|repeat split; auto].
    destruct (isPinned st m);
      [now apply Set_delete_NoDup|now apply Set_add_NoDup].
  - unfold setPinnedByHash.
    destruct (fold_setPinned (new_Set hashes) flag st)
      as (Hm' & _ & Hs' & _ & _ & Hn).
    cbn zeta in *.
    cbn [savePinnedMessages messages pinnedMessages selectedMessages
           storage_pinnedMessages storage_get].
    rewrite Hm', Hs'. split; [now apply Hn|repeat split; auto].
  - destruct (setSelected_selected m flag st) as (Hm' & _ & Hp' & Hs' & Hsel & Hn).
    cbn zeta in *. rewrite Hm', Hp', Hs'.
    split; [exact Hp|]. split; [now apply Hn|].
    split; [|split; [exact Hm|exact Hst]].
    rewrite Hsel. pose proof (selectable_not_empty [m]).
    destruct flag; tauto.
  - cbn [clearSelection pinnedMessages selectedMessages messages
           storage_pinnedMessages].
    repeat split; auto; try apply Hst. constructor.
  - destruct array as [array|]; cbn [setSelectionForMessages];
      [|repeat split; auto; apply Hst].
    destruct (fold_setSelected array flag st) as (Hm' & _ & Hp' & Hs' & Hsel & Hn).
    cbn zeta in *. rewrite Hm', Hp', Hs'.
    split; [exact Hp|]. split; [now apply Hn|].
    split; [|split; [exact Hm|exact Hst]].
    rewrite Hsel. pose proof (selectable_not_empty array).
    destruct flag; tauto.
  - cbn [setCurrentMessage pinnedMessages selectedMessages messages
           storage_pinnedMessages].
    repeat split; auto; apply Hst.
Qed.

(** X30 (MessageHandler).  Whatever methods are called on a new handler,
    with whatever arguments and whether they return or raise, between two
    calls the pinned and the selected set hold no hash twice, the empty
    hash is never selected, no message of the list is followed by a later
    one, and the storage holds exactly the hashes that are pinned, so that
    a handler built from the storage afterwards has the same messages
    pinned. *)
Theorem handler_well_kept (host : Host)
  (md5_hashInput : MsgInfo -> jsstring -> jsstring)
  (stored : option (list jsstring)) (calls : list Call) :
  let st := run host md5_hashInput stored calls in
  well_kept st
  /\ (forall h,
        In h (pinnedMessages (constructor (storage_pinnedMessages st)))
        <-> In h (pinnedMessages st)).
Proof.
  cbn zeta.
  assert (H : well_kept (run host md5_hashInput stored calls)).
  { unfold run. generalize (constructor_well_kept stored).
    generalize (constructor stored). induction calls as [|call calls IH];
      intros st Hst; cbn [fold_left]; [exact Hst|].
    apply IH. now apply after_well_kept. }
  split; [exact H|]. intros h.
  destruct H as (_ & _ & _ & _ & Hst).
  unfold constructor. cbn [pinnedMessages]. rewrite new_Set_In.
  symmetry. apply Hst.
Qed.

End HandlerFacts.
